(** * Sardana pool acquisition: a shallow embedding of
      [src/sardana/pool/poolacquisition.py] and the properties of its
      configuration splitter, load/start sequencer, software poll loop and
      trigger-event dispatch. *)

From Stdlib Require Import List ZArith Bool String Ascii Lia PeanoNat Sorted.
From Stdlib Require Import Floats.PrimFloat.
From Stdlib Require DecimalString.
Import ListNotations.

Set Implicit Arguments.
Set Warnings "-register-all".
Local Open Scope string_scope.
Local Open Scope Z_scope.
Local Open Scope list_scope.

(** ** Python values, exceptions and results *)

(** The Python exceptions the module can raise by itself.  A bare
    [raise Exception(msg)] is [Exception msg]; the others are raised by the
    interpreter (missing key, missing list element, unbound local, ...). *)
Inductive exn : Type :=
| Exception (msg : string)
| KeyError (key : string)
| ValueError (msg : string)
| TypeError (msg : string)
| AttributeError (msg : string)
| IndexError (msg : string)
| UnboundLocalError (var : string).

(** A computation either raises or returns. *)
Definition result (A : Type) : Type := (exn + A)%type.
Definition Raise {A} (e : exn) : result A := inl e.
Definition Return {A} (a : A) : result A := inr a.

Definition rbind {A B} (r : result A) (k : A -> result B) : result B :=
  match r with
  | inl e => inl e
  | inr a => k a
  end.

Declare Scope result_scope.
Delimit Scope result_scope with result.
Notation "x <-? r ;; k" := (rbind r (fun x => k))
  (at level 100, r at next level, right associativity) : result_scope.

(** The Python values that travel through the module as data. *)
Inductive PyVal : Type :=
| PyNone
| PyBool (b : bool)
| PyInt (z : Z)
| PyFloat (f : float)
| PyList (l : list PyVal).

(** [d[key]] on a dict entry that may be absent. *)
Definition getitem {A} (key : string) (o : option A) : result A :=
  match o with
  | Some a => Return a
  | None => Raise (KeyError key)
  end.

(** ** ConfigSplitter: [extract_integ_time] *)

(** [group[SynchParam.Active]] is a dict indexed by [SynchDomain]; only the
    [Time] entry is read here. *)
Record SynchActive : Type := {
  Time : option float
}.

(** One synchronization group: a dict indexed by [SynchParam]. *)
Record SynchGroup : Type := {
  Active : option SynchActive;
  Repeats : option Z
}.

(** [[x] * n] : Python list repetition; a count below one gives []. *)
Definition list_repeat {A} (x : A) (n : Z) : list A := repeat x (Z.to_nat n).

(** [group[SynchParam.Active][SynchDomain.Time]] *)
Definition active_time_of (group : SynchGroup) : result float :=
  (a <-? getitem "SynchParam.Active" (Active group) ;;
   getitem "SynchDomain.Time" (Time a))%result.

(** The body of the [for group in synchronization] loop.  The local
    [integ_time] is carried as an option: [None] is "not bound yet".  The loop
    body evaluates [active_time], then [repeats], then the augmented
    assignment [integ_time += [active_time] * repeats], which reads the local
    first and so raises [UnboundLocalError] when it was never bound. *)
Fixpoint extract_loop (groups : list SynchGroup) (integ_time : option PyVal)
  : result (option PyVal) :=
  match groups with
  | [] => Return integ_time
  | group :: rest =>
      (active_time <-? active_time_of group ;;
       repeats <-? getitem "SynchParam.Repeats" (Repeats group) ;;
       match integ_time with
       | None => Raise (UnboundLocalError "integ_time")
       | Some (PyList l) =>
           extract_loop rest
             (Some (PyList (l ++ list_repeat (PyFloat active_time) repeats)))
       | Some _ => Raise (TypeError "unsupported operand type(s) for +=")
       end)%result
  end.

(** [extract_integ_time(synchronization)].  No branch binds [integ_time]
    before the loop, and [return integ_time] reads it. *)
Definition extract_integ_time (synchronization : list SynchGroup)
  : result PyVal :=
  if (Z.of_nat (List.length synchronization) =? 1) then
    match synchronization with
    | g :: _ => (t <-? active_time_of g ;; Return (PyFloat t))%result
    | [] => Raise (IndexError "list index out of range")
    end
  else
    (it <-? extract_loop synchronization None ;;
     match it with
     | Some v => Return v
     | None => Raise (UnboundLocalError "integ_time")
     end)%result.

(** The group [{Active: {Time: t}, Repeats: r}], [Repeats] left out when
    [r] is [None]. *)
Definition group_of (t : float) (r : option Z) : SynchGroup :=
  {| Active := Some {| Time := Some t |}; Repeats := r |}.

(** ** Dictionaries

    A Python dict is kept as the list of its items in iteration order (which
    Python 2 leaves unspecified but fixed for a given dict): the loops of the
    module run over that order.  A well-formed dict has no repeated key. *)
Section Dict.
Variables K V : Type.
Variable eqb : K -> K -> bool.

Definition dict : Type := list (K * V).

Definition dict_keys (d : dict) : list K := map fst d.
Definition dict_values (d : dict) : list V := map snd d.

Fixpoint dict_get (k : K) (d : dict) : option V :=
  match d with
  | [] => None
  | (k', v) :: rest => if eqb k k' then Some v else dict_get k rest
  end.

(** [d[k] = v]: an existing key keeps its place; a new one goes last, one
    of the places Python may give it. *)
Fixpoint dict_set (k : K) (v : V) (d : dict) : dict :=
  match d with
  | [] => [(k, v)]
  | (k', v') :: rest =>
      if eqb k k' then (k', v) :: rest else (k', v') :: dict_set k v rest
  end.

(** [d.pop(k, None)] with the popped value dropped. *)
Definition dict_pop (k : K) (d : dict) : dict :=
  filter (fun kv => negb (eqb k (fst kv))) d.

(** [l.remove(x)]: drops the first occurrence, [ValueError] without one. *)
Fixpoint list_remove (x : K) (l : list K) : result (list K) :=
  match l with
  | [] => Raise (ValueError "list.remove(x): x not in list")
  | y :: rest =>
      if eqb x y then Return rest
      else (rest' <-? list_remove x rest ;; Return (y :: rest'))%result
  end.
End Dict.

Arguments dict_keys {K V} d.
Arguments dict_values {K V} d.

(** ** Pool objects *)

Inductive ElementType : Type :=
| Motor | CTExpChannel | ZeroDExpChannel | OneDExpChannel | TwoDExpChannel
| PseudoCounter | TriggerGate | IORegister.

(** A pool controller.  [pc_id] stands for the identity of the Python object,
    the other fields for what its methods answer: [name], [is_timerable()]
    and [get_ctrl_types()]. *)
Record PoolController : Type := {
  pc_id : nat;
  pc_name : string;
  pc_timerable : bool;
  pc_types : list ElementType
}.

(** A pool element (channel, timer, monitor, trigger/gate).  [el_enabled] is
    the element's own [enabled] attribute, when it has one. *)
Record Element : Type := {
  el_id : nat;
  el_axis : Z;
  el_controller : PoolController;
  el_enabled : option bool
}.

Lemma ElementType_eq_dec (a b : ElementType) : {a = b} + {a <> b}.
Proof. decide equality. Defined.

Lemma PoolController_eq_dec (a b : PoolController) : {a = b} + {a <> b}.
Proof.
  decide equality.
  - apply (list_eq_dec ElementType_eq_dec).
  - apply bool_dec.
  - apply string_dec.
  - apply Nat.eq_dec.
Defined.

Lemma Element_eq_dec (a b : Element) : {a = b} + {a <> b}.
Proof.
  decide equality.
  - decide equality. apply bool_dec.
  - apply PoolController_eq_dec.
  - apply Z.eq_dec.
  - apply Nat.eq_dec.
Defined.

Definition ctrl_eqb (a b : PoolController) : bool :=
  if PoolController_eq_dec a b then true else false.
Definition element_eqb (a b : Element) : bool :=
  if Element_eq_dec a b then true else false.

(** The keys of [cfg['controllers']]: pool controllers, and the string
    ['__tango__'] under which external channels are filed. *)
Inductive CtrlKey : Type :=
| KTango
| KCtrl (c : PoolController).

Definition ckey_eqb (a b : CtrlKey) : bool :=
  match a, b with
  | KTango, KTango => true
  | KCtrl x, KCtrl y => ctrl_eqb x y
  | _, _ => false
  end.

(** The per-channel info dict; only [enabled] is read by this module. *)
Record ChannelInfo : Type := {
  ci_enabled : option bool
}.

(** The per-controller entry of a measurement configuration. *)
Record CtrlInfo : Type := {
  channels : dict Element ChannelInfo;
  timer : option Element;
  monitor : option Element;
  trigger_element : option Element
}.

(** A measurement-group configuration; [mg_timer]/[mg_monitor] are the
    top-level ['timer']/['monitor'] entries, which may be missing. *)
Record MGcfg : Type := {
  controllers : dict CtrlKey CtrlInfo;
  mg_timer : option Element;
  mg_monitor : option Element
}.

(** The text [%d] gives for an integer. *)
Definition fmt_d (z : Z) : string :=
  DecimalString.NilZero.string_of_int (Z.to_int z).

(** ** ConfigSplitter: [split_MGConfigurations] *)

Section Split.
(** [sardana.pool.poolutil.is_software_tg], imported by the module. *)
Variable is_software_tg : Element -> bool.

(** [ctrl.get_ctrl_types()[0]] for a key of the controllers dict. *)
Definition first_ctrl_type (ctrl : CtrlKey) : result ElementType :=
  match ctrl with
  | KTango =>
      Raise (AttributeError "'str' object has no attribute 'get_ctrl_types'")
  | KCtrl c =>
      match pc_types c with
      | t :: _ => Return t
      | [] => Raise (IndexError "list index out of range")
      end
  end.

(** The three output dicts, in the order the loop names them. *)
Record SplitOut : Type := {
  ctrls_sw_out : dict CtrlKey CtrlInfo;
  ctrls_0d_out : dict CtrlKey CtrlInfo;
  ctrls_hw_out : dict CtrlKey CtrlInfo
}.

(** One turn of [for ctrl, ctrl_info in ctrls_in.items()]. *)
Definition split_one (ctrl : CtrlKey) (ctrl_info : CtrlInfo) (o : SplitOut)
  : result SplitOut :=
  (t <-? first_ctrl_type ctrl ;;
   if ElementType_eq_dec t ZeroDExpChannel then
     Return {| ctrls_sw_out := ctrls_sw_out o;
               ctrls_0d_out := dict_set ckey_eqb ctrl ctrl_info (ctrls_0d_out o);
               ctrls_hw_out := ctrls_hw_out o |}
   else
     let software :=
       match trigger_element ctrl_info with
       | None => true
       | Some tg_element => is_software_tg tg_element
       end in
     if software then
       Return {| ctrls_sw_out := dict_set ckey_eqb ctrl ctrl_info (ctrls_sw_out o);
                 ctrls_0d_out := ctrls_0d_out o;
                 ctrls_hw_out := ctrls_hw_out o |}
     else
       Return {| ctrls_sw_out := ctrls_sw_out o;
                 ctrls_0d_out := ctrls_0d_out o;
                 ctrls_hw_out := dict_set ckey_eqb ctrl ctrl_info (ctrls_hw_out o) |}
  )%result.

Fixpoint split_loop (items : dict CtrlKey CtrlInfo) (o : SplitOut)
  : result SplitOut :=
  match items with
  | [] => Return o
  | (ctrl, ctrl_info) :: rest =>
      (o' <-? split_one ctrl ctrl_info o ;; split_loop rest o')%result
  end.

(** [if len(ctrls): cfg['timer'] = ctrls.values()[0]['timer']; ...]: the
    subset's timer and monitor are those of the first member controller. *)
Definition with_first_master (ctrls : dict CtrlKey CtrlInfo) : result MGcfg :=
  match dict_values ctrls with
  | [] => Return {| controllers := ctrls; mg_timer := None; mg_monitor := None |}
  | first :: _ =>
      (t <-? getitem "timer" (timer first) ;;
       m <-? getitem "monitor" (monitor first) ;;
       Return {| controllers := ctrls; mg_timer := Some t; mg_monitor := Some m |}
      )%result
  end.

(** [split_MGConfigurations(mg_cfg_in)] returns
    [(mg_hw_cfg_out, mg_sw_cfg_out, mg_0d_cfg_out)]. *)
Definition split_MGConfigurations (mg_cfg_in : MGcfg)
  : result (MGcfg * MGcfg * MGcfg) :=
  (o <-? split_loop (controllers mg_cfg_in)
          {| ctrls_sw_out := []; ctrls_0d_out := []; ctrls_hw_out := [] |} ;;
   mg_sw_cfg_out <-? with_first_master (ctrls_sw_out o) ;;
   mg_hw_cfg_out <-? with_first_master (ctrls_hw_out o) ;;
   Return (mg_hw_cfg_out, mg_sw_cfg_out,
           {| controllers := ctrls_0d_out o;
              mg_timer := None; mg_monitor := None |}))%result.
End Split.

(** ** External calls and the action monad *)

(** A [SardanaValue] as the read loops hand it over; of its attributes the
    module touches [value] and [idx]. *)
Record SardanaValue : Type := {
  sv_value : PyVal;
  sv_idx : PyVal
}.

(** The calls the module makes on objects it does not own: the controller
    plugin ([pool_ctrl.ctrl.X(...)]) and the acquirable elements.  The
    repetitions argument of [PreLoadOne]/[LoadOne] is [None] in the
    two-argument form of the call. *)
Inductive call : Type :=
| SetCtrlPar (c : PoolController) (name : string) (value : PyVal)
| PreLoadAll (c : PoolController)
| PreLoadOne (c : PoolController) (axis : Z) (value : PyVal) (repetitions : option PyVal)
| LoadOne (c : PoolController) (axis : Z) (value : PyVal) (repetitions : option PyVal)
| LoadAll (c : PoolController)
| PreStartAll (c : PoolController)
| PreStartOne (c : PoolController) (axis : Z) (value : PyVal)
| StartOne (c : PoolController) (axis : Z) (value : PyVal)
| StartAll (c : PoolController)
| SetStateMoving (e : Element) (propagate : Z)
| SetStateInfo (e : Element) (state_info : PyVal) (propagate : Z)
| PutValue (e : Element) (value : SardanaValue) (propagate : Z)
| ClearOperation (e : Element)
| FromCtrlStateInfo (e : Element) (state_info : PyVal).

(** A call together with what it answered: a value or an exception. *)
Definition event : Type := (call * result PyVal)%type.

(** An action reads the history of calls made so far and yields the calls it
    makes itself, in order, with its own outcome. *)
Definition Act (A : Type) : Type := list event -> list event * result A.

Definition aret {A} (a : A) : Act A := fun _ => ([], Return a).
Definition araise {A} (e : exn) : Act A := fun _ => ([], Raise e).
Definition alift {A} (r : result A) : Act A := fun _ => ([], r).

Definition abind {A B} (m : Act A) (k : A -> Act B) : Act B :=
  fun h =>
    match m h with
    | (d1, inl e) => (d1, inl e)
    | (d1, inr a) =>
        match k a (h ++ d1) with
        | (d2, r) => (d1 ++ d2, r)
        end
    end.

Declare Scope act_scope.
Delimit Scope act_scope with act.
Notation "x <- m ;; k" := (abind m (fun x => k))
  (at level 100, m at next level, right associativity) : act_scope.
Notation "m ;;; k" := (abind m (fun _ => k))
  (at level 100, right associativity) : act_scope.

(** [for x in l: body(x)] *)
Fixpoint for_each {X} (l : list X) (body : X -> Act unit) : Act unit :=
  match l with
  | [] => aret tt
  | x :: rest => (body x ;;; for_each rest body)%act
  end.

(** [try: m  except TypeError: handler] *)
Definition try_except_TypeError {A} (m handler : Act A) : Act A :=
  fun h =>
    match m h with
    | (d1, inl (TypeError _)) =>
        match handler (h ++ d1) with
        | (d2, r) => (d1 ++ d2, r)
        end
    | other => other
    end.

(** Python truth value, as tested by [if not res]. *)
Definition truthy (v : PyVal) : bool :=
  match v with
  | PyNone => false
  | PyBool b => b
  | PyInt z => negb (z =? 0)
  | PyFloat f => negb (PrimFloat.eqb f PrimFloat.zero)
  | PyList l => match l with [] => false | _ => true end
  end.

(** ** LoadStartSequencer *)

Inductive MasterKey : Type := KeyTimer | KeyMonitor.

Definition key_name (k : MasterKey) : string :=
  match k with KeyTimer => "timer" | KeyMonitor => "monitor" end.

(** [cfg[master_key]] and [pool_ctrl_data[master_key]] *)
Definition cfg_master (k : MasterKey) (cfg : MGcfg) : result Element :=
  getitem (key_name k)
    (match k with KeyTimer => mg_timer cfg | KeyMonitor => mg_monitor cfg end).
Definition ctrl_master (k : MasterKey) (d : CtrlInfo) : result Element :=
  getitem (key_name k)
    (match k with KeyTimer => timer d | KeyMonitor => monitor d end).

(** The keyword arguments the actions read.  [None] is a missing key (or, for
    the entries read with [kwargs.get], a key bound to Python's [None]). *)
Record Kwargs : Type := {
  kw_config : option MGcfg;
  kw_integ_time : option PyVal;
  kw_monitor_count : option Z;
  kw_repetitions : option PyVal;
  kw_synch : option bool;
  kw_idx : option Z
}.

(** [Channel(element, info=element_info)]: attribute look-up goes to the
    info entries first and falls back on the element ([__getattr__]). *)
Record Channel : Type := {
  ch_element : Element;
  ch_info : ChannelInfo
}.

Definition channel_enabled (ch : Channel) : result bool :=
  match ci_enabled (ch_info ch) with
  | Some b => Return b
  | None =>
      match el_enabled (ch_element ch) with
      | Some b => Return b
      | None => Raise (AttributeError "enabled")
      end
  end.

(** What the preparation part of [start_action] has computed when the
    hardware-access context is entered. *)
Record Plan : Type := {
  master_key : MasterKey;
  master_value : PyVal;
  repetitions : PyVal;
  pool_ctrls_dict : dict CtrlKey CtrlInfo;
  pool_ctrls : list PoolController;
  plan_channels : dict Element Channel
}.

(** [if integ_time is None and mon_count is None: raise ...]
    [if integ_time is not None and mon_count is not None: raise ...] *)
Definition check_integ_or_monitor (integ_time : option PyVal)
    (mon_count : option Z) : result unit :=
  match integ_time, mon_count with
  | None, None =>
      Raise (Exception "must give integration time or monitor counts")
  | Some _, Some _ =>
      Raise (Exception
        "must give either integration time or monitor counts (not both)")
  | _, _ => Return tt
  end.

(** The two [if ... is not None] assignments of [master_key] and
    [master_value]; the second overrides the first. *)
Definition select_master (integ_time : option PyVal) (mon_count : option Z)
  : result (MasterKey * PyVal) :=
  match mon_count, integ_time with
  | Some m, _ => Return (KeyMonitor, PyInt (- m))
  | None, Some t => Return (KeyTimer, t)
  | None, None => Raise (UnboundLocalError "master_key")
  end.

(** [for ctrl, v in pool_ctrls_dict.items(): if ctrl.is_timerable(): ...] *)
Fixpoint timerable_ctrls (items : dict CtrlKey CtrlInfo)
  : result (list PoolController) :=
  match items with
  | [] => Return []
  | (KTango, _) :: _ =>
      Raise (AttributeError "'str' object has no attribute 'is_timerable'")
  | (KCtrl c, _) :: rest =>
      (l <-? timerable_ctrls rest ;;
       Return (if pc_timerable c then c :: l else l))%result
  end.

Definition ctrl_data (d : dict CtrlKey CtrlInfo) (pool_ctrl : PoolController)
  : result CtrlInfo :=
  getitem (pc_name pool_ctrl) (dict_get ckey_eqb (KCtrl pool_ctrl) d).

(** "Determine which channels are active": the [channels] dict. *)
Fixpoint add_channels (elements : dict Element ChannelInfo)
    (chs : dict Element Channel) : dict Element Channel :=
  match elements with
  | [] => chs
  | (element, element_info) :: rest =>
      add_channels rest
        (dict_set element_eqb element
           {| ch_element := element; ch_info := element_info |} chs)
  end.

Fixpoint build_channels (d : dict CtrlKey CtrlInfo) (ctrls : list PoolController)
    (chs : dict Element Channel) : result (dict Element Channel) :=
  match ctrls with
  | [] => Return chs
  | pool_ctrl :: rest =>
      (pool_ctrl_data <-? ctrl_data d pool_ctrl ;;
       build_channels d rest (add_channels (channels pool_ctrl_data) chs))%result
  end.

(** The part of [start_action] between the check of the two arguments and
    the hardware-access context: the same text in [PoolAcquisitionBase],
    [PoolCTAcquisition] and [PoolContHWAcquisition]. *)
Definition plan_of (kwargs : Kwargs) : result Plan :=
  let integ_time := kw_integ_time kwargs in
  let mon_count := kw_monitor_count kwargs in
  (cfg <-? getitem "config" (kw_config kwargs) ;;
   km <-? select_master integ_time mon_count ;;
   master <-? cfg_master (fst km) cfg ;;
   let master_ctrl := el_controller master in
   let d := dict_pop ckey_eqb KTango (controllers cfg) in
   timerable <-? timerable_ctrls d ;;
   others <-? list_remove ctrl_eqb master_ctrl timerable ;;
   let ctrls := others ++ [master_ctrl] in
   chs <-? build_channels d ctrls [] ;;
   Return {| master_key := fst km;
             master_value := snd km;
             repetitions :=
               match kw_repetitions kwargs with Some r => r | None => PyNone end;
             pool_ctrls_dict := d;
             pool_ctrls := ctrls;
             plan_channels := chs |})%result.

(** Everything [start_action] does before it enters the context.  The
    assignments to [self._aborted], [self._stopped], the two [kwargs.pop]
    with their defaults read from the pool, [self.get_elements()] and the
    filling of [_pool_ctrl_dict_loop] call no controller and raise nothing;
    they are left out. *)
Definition prepare (kwargs : Kwargs) : result Plan :=
  (_ <-? check_integ_or_monitor (kw_integ_time kwargs) (kw_monitor_count kwargs) ;;
   plan_of kwargs)%result.

Section Sequencer.
(** What the objects outside the module answer to a call, given the calls
    made before it: any value, or any exception. *)
Variable respond : list event -> call -> result PyVal.

Definition invoke (c : call) : Act PyVal :=
  fun h => let r := respond h c in ([(c, r)], r).

Definition returned_False (pool_ctrl : PoolController) (method : string)
    (axis : Z) (verb : string) : exn :=
  Exception (pc_name pool_ctrl ++ "." ++ method ++ "(" ++ fmt_d axis ++ ") "
             ++ verb ++ " False")%string.

(** The body of the "PreLoadAll, PreLoadOne, LoadOne and LoadAll" loop of
    [PoolAcquisitionBase.start_action]. *)
Definition load_ctrl_base (p : Plan) (pool_ctrl : PoolController) : Act unit :=
  (pool_ctrl_data <- alift (ctrl_data (pool_ctrls_dict p) pool_ctrl) ;;
   invoke (PreLoadAll pool_ctrl) ;;;
   master <- alift (ctrl_master (master_key p) pool_ctrl_data) ;;
   let axis := el_axis master in
   res <- try_except_TypeError
            (invoke (PreLoadOne pool_ctrl axis (master_value p)
                       (Some (repetitions p))))
            (invoke (PreLoadOne pool_ctrl axis (master_value p) None)) ;;
   if truthy res then
     (try_except_TypeError
        (invoke (LoadOne pool_ctrl axis (master_value p) (Some (repetitions p))))
        (invoke (LoadOne pool_ctrl axis (master_value p) None)) ;;;
      invoke (LoadAll pool_ctrl) ;;;
      aret tt)
   else araise (returned_False pool_ctrl "PreLoadOne" axis "returned"))%act.

(** The same loop body in [PoolCTAcquisition] and [PoolContHWAcquisition]:
    two-argument calls only. *)
Definition load_ctrl_ct (p : Plan) (pool_ctrl : PoolController) : Act unit :=
  (pool_ctrl_data <- alift (ctrl_data (pool_ctrls_dict p) pool_ctrl) ;;
   invoke (PreLoadAll pool_ctrl) ;;;
   master <- alift (ctrl_master (master_key p) pool_ctrl_data) ;;
   let axis := el_axis master in
   res <- invoke (PreLoadOne pool_ctrl axis (master_value p) None) ;;
   if truthy res then
     (invoke (LoadOne pool_ctrl axis (master_value p) None) ;;;
      invoke (LoadAll pool_ctrl) ;;;
      aret tt)
   else araise (returned_False pool_ctrl "PreLoadOne" axis "returns"))%act.

(** The body of [for element in elements] in the "PreStartOne & StartOne"
    loop. *)
Definition start_element (p : Plan) (pool_ctrl : PoolController)
    (element : Element) : Act unit :=
  (let axis := el_axis element in
   channel <- alift (getitem "channels[element]"
                       (dict_get element_eqb element (plan_channels p))) ;;
   enabled <- alift (channel_enabled channel) ;;
   if (enabled : bool) then
     (ret <- invoke (PreStartOne pool_ctrl axis (master_value p)) ;;
      if truthy ret then
        (invoke (StartOne pool_ctrl axis (master_value p)) ;;; aret tt)
      else araise (returned_False pool_ctrl "PreStartOne" axis "returns"))
   else aret tt)%act.

(** "PreStartOne & StartOne" for one controller, as [PoolAcquisitionBase]
    and [PoolCTAcquisition] do it: the timer/monitor is removed from the
    channel keys and appended again, so that it is started last. *)
Definition start_ctrl_master_last (p : Plan) (pool_ctrl : PoolController)
  : Act unit :=
  (pool_ctrl_data <- alift (ctrl_data (pool_ctrls_dict p) pool_ctrl) ;;
   let elements := dict_keys (channels pool_ctrl_data) in
   timer_monitor <- alift (ctrl_master (master_key p) pool_ctrl_data) ;;
   others <- alift (list_remove element_eqb timer_monitor elements) ;;
   for_each (others ++ [timer_monitor]) (start_element p pool_ctrl))%act.

(** The same for [PoolContHWAcquisition]: the loop runs over the channels
    dict as it is. *)
Definition start_ctrl_dict_order (p : Plan) (pool_ctrl : PoolController)
  : Act unit :=
  (pool_ctrl_data <- alift (ctrl_data (pool_ctrls_dict p) pool_ctrl) ;;
   for_each (dict_keys (channels pool_ctrl_data)) (start_element p pool_ctrl))%act.

Definition call_each (ctrls : list PoolController)
    (method : PoolController -> call) : Act unit :=
  for_each ctrls (fun pool_ctrl => invoke (method pool_ctrl) ;;; aret tt)%act.

(** [for channel in channels: channel.set_state(State.Moving, propagate=2)] *)
Definition set_states_moving (p : Plan) : Act unit :=
  for_each (dict_keys (plan_channels p))
    (fun channel => invoke (SetStateMoving channel 2) ;;; aret tt)%act.

(** The block under [with ActionContext(self)] of
    [PoolAcquisitionBase.start_action].  The context manager belongs to
    [sardana.pool.poolaction]; it is taken to let exceptions through. *)
Definition sequence_base (p : Plan) : Act unit :=
  (for_each (pool_ctrls p) (load_ctrl_base p) ;;;
   call_each (pool_ctrls p) PreStartAll ;;;
   for_each (pool_ctrls p) (start_ctrl_master_last p) ;;;
   set_states_moving p ;;;
   call_each (pool_ctrls p) StartAll)%act.

(** The same block of [PoolCTAcquisition.start_action]. *)
Definition sequence_ct (p : Plan) : Act unit :=
  (for_each (pool_ctrls p) (load_ctrl_ct p) ;;;
   call_each (pool_ctrls p) PreStartAll ;;;
   for_each (pool_ctrls p) (start_ctrl_master_last p) ;;;
   set_states_moving p ;;;
   call_each (pool_ctrls p) StartAll)%act.

(** The same block of [PoolContHWAcquisition.start_action], which first
    reads [self.conf['repetitions']] and pushes it to every controller. *)
Definition sequence_conthw (kwargs : Kwargs) (p : Plan) : Act unit :=
  (reps <- alift (getitem "repetitions" (kw_repetitions kwargs)) ;;
   call_each (pool_ctrls p) (fun c => SetCtrlPar c "repetitions" reps) ;;;
   for_each (pool_ctrls p) (load_ctrl_ct p) ;;;
   call_each (pool_ctrls p) PreStartAll ;;;
   for_each (pool_ctrls p) (start_ctrl_dict_order p) ;;;
   set_states_moving p ;;;
   call_each (pool_ctrls p) StartAll)%act.

(** [start_action] returns nothing; the value given back here is the
    [self._channels] it leaves behind. *)
Definition PoolAcquisitionBase_start_action (kwargs : Kwargs)
  : Act (dict Element Channel) :=
  (p <- alift (prepare kwargs) ;;
   sequence_base p ;;;
   aret (plan_channels p))%act.

Definition PoolCTAcquisition_start_action (kwargs : Kwargs)
  : Act (dict Element Channel) :=
  (p <- alift (prepare kwargs) ;;
   sequence_ct p ;;;
   aret (plan_channels p))%act.

Definition PoolContHWAcquisition_start_action (kwargs : Kwargs)
  : Act (dict Element Channel) :=
  (p <- alift (prepare kwargs) ;;
   sequence_conthw kwargs p ;;;
   aret (plan_channels p))%act.

(** [PoolAcquisitionSoftware.start_action]: the base sequence, then
    [self.index = kwargs.get("idx")]; gives back [(_channels, index)]. *)
Definition PoolAcquisitionSoftware_start_action (kwargs : Kwargs)
  : Act (dict Element Channel * PyVal) :=
  (chs <- PoolAcquisitionBase_start_action kwargs ;;
   aret (chs, match kw_idx kwargs with Some i => PyInt i | None => PyNone end)
  )%act.

(** *** The convergence of [PoolAcquisitionSoftware.action_loop]

    [states] and [values] are the two dicts as the authoritative reads
    ([raw_read_state_info], [raw_read_value_loop], both of
    [sardana.pool.poolaction]) have left them; a channel whose value was
    not read still maps to [None].  Each value object is taken to belong
    to one acquirable only.  The [with acquirable:] lock is not part of
    the call log. *)
Definition converge_acquirable (index : PyVal)
    (values : dict Element (option SardanaValue))
    (item : Element * PyVal) : Act unit :=
  (let (acquirable, state_info) := item in
   invoke (SetStateInfo acquirable state_info 0) ;;;
   match dict_get element_eqb acquirable values with
   | None => aret tt
   | Some None =>
       araise (AttributeError "'NoneType' object has no attribute 'value'")
   | Some (Some value) =>
       (let value' := {| sv_value := PyList [sv_value value];
                         sv_idx := PyList [index] |} in
        invoke (PutValue acquirable value' 2) ;;; aret tt)
   end ;;;
   invoke (ClearOperation acquirable) ;;;
   state_info' <- invoke (FromCtrlStateInfo acquirable state_info) ;;
   invoke (SetStateInfo acquirable state_info' 2) ;;;
   aret tt)%act.

Definition PoolAcquisitionSoftware_converge (index : PyVal)
    (states : dict Element PyVal)
    (values : dict Element (option SardanaValue)) : Act unit :=
  for_each states (converge_acquirable index values).
End Sequencer.

(** ** AcquisitionCoordinator: [PoolAcquisition] *)

Inductive TGEventType : Type := TGActive | TGPassive.

(** The two callables the coordinator hands to the worker pool; each goes
    with its own completion callback ([set_sw_acq_busy], [set_0d_acq_busy]). *)
Inductive Job : Type := RunCtContinuous | RunZerodAcquisition.

(** What a method of the coordinator does to the outside. *)
Inductive effect : Type :=
| LogDebug (msg : string)
| LogError (msg : string)
| DebugEventReceived (event_type : TGEventType) (event_id : Z)
| ThreadPoolAdd (job : Job) (kwargs : Kwargs)
| ZeroDStopAction.

(** The attributes of a [PoolAcquisition] that the event path reads and
    writes; the two busy [threading.Event]s are kept as their flags. *)
Record PoolAcquisition : Type := {
  sw_acq_config : option Kwargs;
  zerod_config : option Kwargs;
  sw_acq_busy : bool;
  zerod_acq_busy : bool
}.

(** [len(kwargs)] for the entries that are modelled. *)
Definition kwargs_len (k : Kwargs) : nat :=
  let count {A} (o : option A) := match o with Some _ => 1%nat | None => 0%nat end in
  (count (kw_config k) + count (kw_integ_time k) + count (kw_monitor_count k)
   + count (kw_repetitions k) + count (kw_synch k) + count (kw_idx k))%nat.

(** [if self._sw_acq_config:] holds for a non-empty dict. *)
Definition config_truthy (c : option Kwargs) : bool :=
  match c with
  | None => false
  | Some k => negb (Nat.eqb (kwargs_len k) 0)
  end.

Definition set_sw_config (self : PoolAcquisition) (config : option Kwargs)
  : PoolAcquisition :=
  {| sw_acq_config := config; zerod_config := zerod_config self;
     sw_acq_busy := sw_acq_busy self; zerod_acq_busy := zerod_acq_busy self |}.

Definition set_0d_config (self : PoolAcquisition) (config : option Kwargs)
  : PoolAcquisition :=
  {| sw_acq_config := sw_acq_config self; zerod_config := config;
     sw_acq_busy := sw_acq_busy self; zerod_acq_busy := zerod_acq_busy self |}.

(** [busy is True] *)
Definition is_True (v : PyVal) : bool :=
  match v with PyBool true => true | _ => false end.

Definition set_sw_acq_busy (self : PoolAcquisition) (busy : PyVal)
  : PoolAcquisition :=
  {| sw_acq_config := sw_acq_config self; zerod_config := zerod_config self;
     sw_acq_busy := if is_True busy then true else false;
     zerod_acq_busy := zerod_acq_busy self |}.

Definition set_0d_acq_busy (self : PoolAcquisition) (busy : PyVal)
  : PoolAcquisition :=
  {| sw_acq_config := sw_acq_config self; zerod_config := zerod_config self;
     sw_acq_busy := sw_acq_busy self;
     zerod_acq_busy := if is_True busy then true else false |}.

Definition is_cont_ct_acq_busy (self : PoolAcquisition) : bool := sw_acq_busy self.
Definition is_zerod_acq_busy (self : PoolAcquisition) : bool := zerod_acq_busy self.

(** [kwargs['synch'] = True; kwargs['idx'] = event_id] *)
Definition tag_kwargs (kwargs : Kwargs) (event_id : Z) : Kwargs :=
  {| kw_config := kw_config kwargs; kw_integ_time := kw_integ_time kwargs;
     kw_monitor_count := kw_monitor_count kwargs;
     kw_repetitions := kw_repetitions kwargs;
     kw_synch := Some true; kw_idx := Some event_id |}.

(** The [if self._0d_config:] block of the [Active] branch.  [kwargs] is the
    cached dict itself, so the two assignments also change the cache. *)
Definition dispatch_zerod (self : PoolAcquisition) (event_id : Z)
  : PoolAcquisition * list effect :=
  match zerod_config self with
  | Some cfg =>
      if config_truthy (zerod_config self) then
        if is_zerod_acq_busy self then
          (self, [LogDebug
             "Skipping trigger: ZeroD acquisition is still in progress."])
        else
          let self1 := set_0d_acq_busy self (PyBool true) in
          let kwargs := tag_kwargs cfg event_id in
          (set_0d_config self1 (Some kwargs),
           [LogDebug "Executing ZeroD acquisition.";
            ThreadPoolAdd RunZerodAcquisition kwargs])
      else (self, [])
  | None => (self, [])
  end.

(** [PoolAcquisition.event_received(src, event_type, event_id)]: the new
    attributes and what was done, in order. *)
Definition event_received (self : PoolAcquisition) (event_type : TGEventType)
    (event_id : Z) : PoolAcquisition * list effect :=
  let received := DebugEventReceived event_type event_id in
  match event_type with
  | TGActive =>
      match sw_acq_config self with
      | Some cfg =>
          if config_truthy (sw_acq_config self) then
            if is_cont_ct_acq_busy self then
              (self, [received; LogDebug
                 "Skipping trigger: software acquisition is still in progress."])
            else
              let self1 := set_sw_acq_busy self (PyBool true) in
              let kwargs := tag_kwargs cfg event_id in
              let self2 := set_sw_config self1 (Some kwargs) in
              let (self3, effs) := dispatch_zerod self2 event_id in
              (self3,
               [received; LogDebug "Executing software acquisition.";
                ThreadPoolAdd RunCtContinuous kwargs] ++ effs)
          else
            let (self', effs) := dispatch_zerod self event_id in
            (self', received :: effs)
      | None =>
          let (self', effs) := dispatch_zerod self event_id in
          (self', received :: effs)
      end
  | TGPassive =>
      if config_truthy (zerod_config self) && is_zerod_acq_busy self then
        (self, [received; LogDebug "Stopping ZeroD acquisition.";
                ZeroDStopAction])
      else (self, [received])
  end.

(** [try: body  except: handler  finally: return v].  A [return] in the
    [finally] clause discards whatever the [try] statement was about to do,
    a pending exception included; what was logged on the way stays. *)
Definition try_except_finally_return {A B} (body : result A)
    (handler : list effect * result unit) (v : B) : list effect * result B :=
  match body with
  | inr _ => ([], Return v)
  | inl _ =>
      match handler with
      | (log, inr _) => (log, Return v)
      | (log, inl _) => (log, Return v)
      end
  end.

(** [_run_ct_continuous]: [ran] is how [self._sw_acq.run] on the submitted arguments
    ended, [logged] whether the two logging calls went through. *)
Definition _run_ct_continuous (ran : result unit) (logged : result unit)
  : list effect * result PyVal :=
  try_except_finally_return ran
    ([LogError "Continuous Count Acquisition has failed"; LogDebug "Details:"],
     logged)
    (PyBool false).

(** [_run_zerod_acquisition], in the same way. *)
Definition _run_zerod_acquisition (ran : result unit) (logged : result unit)
  : list effect * result PyVal :=
  try_except_finally_return ran
    ([LogError "ZeroD Acquisition has failed"; LogError "Details:"], logged)
    (PyBool false).

Definition run_job (j : Job) (ran logged : result unit)
  : list effect * result PyVal :=
  match j with
  | RunCtContinuous => _run_ct_continuous ran logged
  | RunZerodAcquisition => _run_zerod_acquisition ran logged
  end.

Definition job_callback (j : Job) (self : PoolAcquisition) (busy : PyVal)
  : PoolAcquisition :=
  match j with
  | RunCtContinuous => set_sw_acq_busy self busy
  | RunZerodAcquisition => set_0d_acq_busy self busy
  end.

(** Modelled from the spec: the worker pool of [sardana.sardanathreadpool],
    which the module only calls.  A worker runs the submitted callable and
    then "always invokes completionCallback with a boolean 'still busy'
    result, even if callable raised"; when the callable raised there is no
    result, and the callback is given [None]. *)
Definition worker_finish (j : Job) (ran logged : result unit)
    (self : PoolAcquisition) : PoolAcquisition :=
  match snd (run_job j ran logged) with
  | inr v => job_callback j self v
  | inl _ => job_callback j self PyNone
  end.

(** The jobs a list of effects hands to the worker pool. *)
Fixpoint submitted (effs : list effect) : list Job :=
  match effs with
  | [] => []
  | ThreadPoolAdd j _ :: rest => j :: submitted rest
  | _ :: rest => submitted rest
  end.

(** The coordinator together with the cycles in flight: those handed to the
    worker pool whose completion callback has not run yet. *)
Record System : Type := {
  coord : PoolAcquisition;
  in_flight : list Job
}.

(** One step of the coordinator and its worker pool.  Trigger events are
    handled one at a time (the source: "we assume that only one
    EventGenerator will work at the same time"); a cycle in flight may
    finish, in any way, between two events; [run] may cache a new
    configuration. *)
Inductive step : System -> System -> Prop :=
| step_event : forall s event_type event_id,
    step s {| coord := fst (event_received (coord s) event_type event_id);
              in_flight := in_flight s ++
                submitted (snd (event_received (coord s) event_type event_id)) |}
| step_finish : forall s before j after ran logged,
    in_flight s = before ++ j :: after ->
    step s {| coord := worker_finish j ran logged (coord s);
              in_flight := before ++ after |}
| step_set_sw_config : forall s config,
    step s {| coord := set_sw_config (coord s) config; in_flight := in_flight s |}
| step_set_0d_config : forall s config,
    step s {| coord := set_0d_config (coord s) config; in_flight := in_flight s |}.

(** [PoolAcquisition.__init__]: nothing cached, nothing busy. *)
Definition initial : System :=
  {| coord := {| sw_acq_config := None; zerod_config := None;
                 sw_acq_busy := false; zerod_acq_busy := false |};
     in_flight := [] |}.

Inductive reachable : System -> Prop :=
| reach_init : reachable initial
| reach_step : forall s s', reachable s -> step s s' -> reachable s'.

Definition job_eqb (a b : Job) : bool :=
  match a, b with
  | RunCtContinuous, RunCtContinuous => true
  | RunZerodAcquisition, RunZerodAcquisition => true
  | _, _ => false
  end.

Definition count_job (j : Job) (l : list Job) : nat :=
  List.length (filter (job_eqb j) l).

Definition busy_flag (j : Job) (self : PoolAcquisition) : bool :=
  match j with
  | RunCtContinuous => sw_acq_busy self
  | RunZerodAcquisition => zerod_acq_busy self
  end.

(** ** Sample objects

    Two counter/timer controllers with two channels each; the dict of the
    configuration lists the master's controller first. *)

Definition ctrl_a : PoolController :=
  {| pc_id := 1; pc_name := "ctrlA"; pc_timerable := true;
     pc_types := [CTExpChannel] |}.
Definition ctrl_b : PoolController :=
  {| pc_id := 2; pc_name := "ctrlB"; pc_timerable := true;
     pc_types := [CTExpChannel] |}.
Definition ctrl_z : PoolController :=
  {| pc_id := 3; pc_name := "ctrlZ"; pc_timerable := false;
     pc_types := [ZeroDExpChannel] |}.
Definition ctrl_tg : PoolController :=
  {| pc_id := 4; pc_name := "ctrlTG"; pc_timerable := false;
     pc_types := [TriggerGate] |}.

Definition chan (id : nat) (axis : Z) (c : PoolController) : Element :=
  {| el_id := id; el_axis := axis; el_controller := c; el_enabled := None |}.

Definition ch_a1 := chan 11 1 ctrl_a.
Definition ch_a2 := chan 12 2 ctrl_a.
Definition ch_b1 := chan 21 1 ctrl_b.
Definition ch_b2 := chan 22 2 ctrl_b.
Definition ch_z1 := chan 31 1 ctrl_z.
Definition tg_hw := chan 41 1 ctrl_tg.

Definition on : ChannelInfo := {| ci_enabled := Some true |}.

(** [ctrl_a] with its timer [ch_a1] listed before the plain channel. *)
Definition info_a : CtrlInfo :=
  {| channels := [(ch_a1, on); (ch_a2, on)];
     timer := Some ch_a1; monitor := Some ch_a1; trigger_element := None |}.
Definition info_b : CtrlInfo :=
  {| channels := [(ch_b1, on); (ch_b2, on)];
     timer := Some ch_b1; monitor := Some ch_b1; trigger_element := None |}.
Definition info_z : CtrlInfo :=
  {| channels := [(ch_z1, on)];
     timer := None; monitor := None; trigger_element := None |}.

Definition sample_cfg : MGcfg :=
  {| controllers := [(KCtrl ctrl_b, info_b); (KCtrl ctrl_a, info_a)];
     mg_timer := Some ch_b1; mg_monitor := Some ch_b1 |}.

Definition sample_kwargs : Kwargs :=
  {| kw_config := Some sample_cfg; kw_integ_time := Some (PyFloat 1.0%float);
     kw_monitor_count := None; kw_repetitions := Some (PyInt 1);
     kw_synch := None; kw_idx := None |}.

(** Controllers and elements that accept every call. *)
Definition obliging : list event -> call -> result PyVal :=
  fun _ _ => Return (PyBool true).

(** As [obliging], but [PreStartOne] on axis 2 answers [False]. *)
Definition refusing_axis_2 : list event -> call -> result PyVal :=
  fun _ c =>
    match c with
    | PreStartOne _ 2 _ => Return (PyBool false)
    | _ => Return (PyBool true)
    end.

(** ** Predicates used in the statements *)

(** The first call an action makes from history [h]. *)
Definition first_event {A} (m : Act A) (h : list event) (ev : event) : Prop :=
  exists rest r, m h = (ev :: rest, r).

Definition neither_or_both (kwargs : Kwargs) : Prop :=
  (kw_integ_time kwargs = None /\ kw_monitor_count kwargs = None) \/
  (kw_integ_time kwargs <> None /\ kw_monitor_count kwargs <> None).

Definition exactly_one (kwargs : Kwargs) : Prop :=
  (kw_integ_time kwargs <> None /\ kw_monitor_count kwargs = None) \/
  (kw_integ_time kwargs = None /\ kw_monitor_count kwargs <> None).

(** The cached configuration of the sub-acquisition a job belongs to. *)
Definition job_config (j : Job) (self : PoolAcquisition) : option Kwargs :=
  match j with
  | RunCtContinuous => sw_acq_config self
  | RunZerodAcquisition => zerod_config self
  end.

(** A coordinator with both configurations cached, the software
    sub-acquisition busy and the ZeroD one idle. *)
Definition sw_busy_zerod_idle : PoolAcquisition :=
  {| sw_acq_config := Some sample_kwargs; zerod_config := Some sample_kwargs;
     sw_acq_busy := true; zerod_acq_busy := false |}.

(** How the convergence of the software loop wraps a value that was read. *)
Definition wrapped (index : PyVal) (value : SardanaValue) : SardanaValue :=
  {| sv_value := PyList [sv_value value]; sv_idx := PyList [index] |}.

(** A coordinator with a software configuration cached and nothing busy. *)
Definition sw_idle : PoolAcquisition :=
  {| sw_acq_config := Some sample_kwargs; zerod_config := None;
     sw_acq_busy := false; zerod_acq_busy := false |}.

(** The keyword arguments [event_received] hands to the worker pool for the
    software cycle, when it hands any. *)
Definition sw_cycle_kwargs (effs : list effect) : option Kwargs :=
  match filter (fun e => match e with
                         | ThreadPoolAdd RunCtContinuous _ => true
                         | _ => false
                         end) effs with
  | ThreadPoolAdd _ kwargs :: _ => Some kwargs
  | _ => None
  end.

(** Every call an action makes, from any history, satisfies [P]. *)
Definition act_all {A} (P : event -> Prop) (m : Act A) : Prop :=
  forall h, Forall P (fst (m h)).

(** The three subsets [split_MGConfigurations] sorts the controllers into. *)
Inductive Subset : Type := Hardware | Software | ZeroD.

(** The controllers of one subset of the result
    [(mg_hw_cfg_out, mg_sw_cfg_out, mg_0d_cfg_out)]. *)
Definition subset_ctrls (s : Subset) (outs : MGcfg * MGcfg * MGcfg)
  : dict CtrlKey CtrlInfo :=
  match outs with
  | (hw, sw, zd) =>
      controllers (match s with Hardware => hw | Software => sw | ZeroD => zd end)
  end.

(** The routing rule in words: a controller whose (first) type is ZeroD goes
    to the ZeroD subset; any other goes to the software subset when it has no
    trigger element or a software one, and to the hardware subset otherwise. *)
Definition routed (is_software_tg : Element -> bool) (ctrl : CtrlKey)
    (info : CtrlInfo) (s : Subset) : Prop :=
  exists t, first_ctrl_type ctrl = Return t /\
    match s with
    | ZeroD => t = ZeroDExpChannel
    | Software =>
        t <> ZeroDExpChannel /\
        (trigger_element info = None \/
         exists tg, trigger_element info = Some tg /\ is_software_tg tg = true)
    | Hardware =>
        t <> ZeroDExpChannel /\
        exists tg, trigger_element info = Some tg /\ is_software_tg tg = false
    end.

(** The subset the loop body picks for one item, when it does not raise. *)
Definition bucket (is_software_tg : Element -> bool)
    (item : CtrlKey * CtrlInfo) : option Subset :=
  match first_ctrl_type (fst item) with
  | inl _ => None
  | inr t =>
      if ElementType_eq_dec t ZeroDExpChannel then Some ZeroD
      else match trigger_element (snd item) with
           | None => Some Software
           | Some tg => if is_software_tg tg then Some Software else Some Hardware
           end
  end.

Definition subset_eqb (a b : Subset) : bool :=
  match a, b with
  | Hardware, Hardware | Software, Software | ZeroD, ZeroD => true
  | _, _ => false
  end.

Definition in_bucket (is_software_tg : Element -> bool) (s : Subset)
    (item : CtrlKey * CtrlInfo) : bool :=
  match bucket is_software_tg item with
  | Some s' => subset_eqb s s'
  | None => false
  end.

(** A configuration [split_MGConfigurations] can work on: every key is a
    controller that has a type, and every controller that is not of the
    ZeroD type carries its ['timer'] and ['monitor']. *)
Definition splittable (cfg : MGcfg) : Prop :=
  forall ctrl info, In (ctrl, info) (controllers cfg) ->
    exists c t ts, ctrl = KCtrl c /\ pc_types c = t :: ts /\
      (t <> ZeroDExpChannel -> timer info <> None /\ monitor info <> None).

(** A configuration with a ZeroD controller, a software-triggered and a
    hardware-triggered one. *)
Definition mixed_cfg : MGcfg :=
  {| controllers :=
       [(KCtrl ctrl_z, info_z);
        (KCtrl ctrl_a, info_a);
        (KCtrl ctrl_b,
         {| channels := channels info_b; timer := timer info_b;
            monitor := monitor info_b; trigger_element := Some tg_hw |})];
     mg_timer := Some ch_b1; mg_monitor := Some ch_b1 |}.

(** The dict of one subset while the loop runs. *)
Definition out_of (s : Subset) (o : SplitOut) : dict CtrlKey CtrlInfo :=
  match s with
  | Software => ctrls_sw_out o
  | ZeroD => ctrls_0d_out o
  | Hardware => ctrls_hw_out o
  end.

(** No key of [items] is yet in one of the output dicts. *)
Definition fresh_for (items : dict CtrlKey CtrlInfo) (o : SplitOut) : Prop :=
  forall k s, In k (dict_keys items) -> ~ In k (dict_keys (out_of s o)).

(** An action that ends, by raising the "PreStartOne returns False"
    exception, right after any [PreStartOne] call answered by a falsy
    value. *)
Definition stops_at_refusal {A} (m : Act A) : Prop :=
  forall h d r, m h = (d, r) ->
  forall pre c axis v ans post,
    d = pre ++ (PreStartOne c axis v, Return ans) :: post ->
    truthy ans = false ->
    post = [] /\ r = Raise (returned_False c "PreStartOne" axis "returns").

(** A call other than [PreStartOne]. *)
Definition not_PreStartOne (ev : event) : Prop :=
  forall c axis v, fst ev <> PreStartOne c axis v.

(** The controller that owns the master channel: [cfg[master_key].controller]. *)
Definition master_controller (kwargs : Kwargs) : result PoolController :=
  (cfg <-? getitem "config" (kw_config kwargs) ;;
   km <-? select_master (kw_integ_time kwargs) (kw_monitor_count kwargs) ;;
   master <-? cfg_master (fst km) cfg ;;
   Return (el_controller master))%result.

(** The per-channel calls of the sequence. *)
Inductive OneKind : Type := KPreLoadOne | KLoadOne | KPreStartOne | KStartOne.

Definition one_call_kind (c : call) : option OneKind :=
  match c with
  | PreLoadOne _ _ _ _ => Some KPreLoadOne
  | LoadOne _ _ _ _ => Some KLoadOne
  | PreStartOne _ _ _ => Some KPreStartOne
  | StartOne _ _ _ => Some KStartOne
  | _ => None
  end.

(** The controller a call is addressed to. *)
Definition call_ctrl (c : call) : option PoolController :=
  match c with
  | SetCtrlPar x _ _ | PreLoadAll x | PreLoadOne x _ _ _ | LoadOne x _ _ _
  | LoadAll x | PreStartAll x | PreStartOne x _ _ | StartOne x _ _
  | StartAll x => Some x
  | _ => None
  end.

(** Position of a call in the sequence: phase first, and within a phase the
    master controller [mc] after the others. *)
Definition master_bit (mc c : PoolController) : nat :=
  if ctrl_eqb c mc then 1%nat else 0%nat.

Definition seq_rank (mc : PoolController) (c : call) : nat :=
  match c with
  | SetCtrlPar x _ _ => (0 + master_bit mc x)%nat
  | PreLoadAll x | PreLoadOne x _ _ _ | LoadOne x _ _ _ | LoadAll x =>
      (2 + master_bit mc x)%nat
  | PreStartAll x => (4 + master_bit mc x)%nat
  | PreStartOne x _ _ | StartOne x _ _ => (6 + master_bit mc x)%nat
  | SetStateMoving _ _ => 8%nat
  | StartAll x => (9 + master_bit mc x)%nat
  | _ => 11%nat
  end.

(** A list of calls in non-decreasing rank, all ranks within [lo..hi]. *)
Definition rank_le (rank : call -> nat) (x y : event) : Prop :=
  (rank (fst x) <= rank (fst y))%nat.

Definition ranked (rank : call -> nat) (lo hi : nat) (d : list event) : Prop :=
  StronglySorted (rank_le rank) d
  /\ Forall (fun x => (lo <= rank (fst x) <= hi)%nat) d.

Definition emits {A} (rank : call -> nat) (lo hi : nat) (m : Act A) : Prop :=
  forall h, ranked rank lo hi (fst (m h)).

(** Position of a call with respect to one controller [c] whose timer or
    monitor sits on axis [a]: the phases before the per-channel start, the
    controllers started before [c] (the list [before]), the channels of [c]
    other than the master, the master channel of [c], the controllers
    started after [c], the phases after. *)
Definition channel_rank (before : list PoolController) (c : PoolController)
    (a : Z) (x : call) : nat :=
  match x with
  | SetCtrlPar _ _ _ | PreLoadAll _ | PreLoadOne _ _ _ _ | LoadOne _ _ _ _
  | LoadAll _ | PreStartAll _ => 0%nat
  | PreStartOne y ax _ | StartOne y ax _ =>
      if ctrl_eqb y c then (if ax =? a then 3%nat else 2%nat)
      else if existsb (ctrl_eqb y) before then 1%nat else 4%nat
  | _ => 5%nat
  end.

(** The band of [channel_rank] in which the turn of controller [y] emits. *)
Definition band_lo (before : list PoolController) (c y : PoolController) : nat :=
  if ctrl_eqb y c then 2%nat
  else if existsb (ctrl_eqb y) before then 1%nat else 4%nat.
Definition band_hi (before : list PoolController) (c y : PoolController) : nat :=
  if ctrl_eqb y c then 3%nat
  else if existsb (ctrl_eqb y) before then 1%nat else 4%nat.

(** The per-channel start calls. *)
Definition start_call_on (c : PoolController) (x : call) : option Z :=
  match x with
  | PreStartOne y ax _ | StartOne y ax _ =>
      if ctrl_eqb y c then Some ax else None
  | _ => None
  end.

(** Whether a channel sits on axis [a]. *)
Definition axis_bit (a : Z) (e : Element) : nat :=
  if el_axis e =? a then 1%nat else 0%nat.

(** The timer or monitor of controller [c] is on axis [a], alone on it, and
    the channels dict of [c] is well formed. *)
Definition master_alone_on_axis (c : PoolController) (a : Z) (p : Plan) : Prop :=
  forall data tm,
    ctrl_data (pool_ctrls_dict p) c = Return data ->
    ctrl_master (master_key p) data = Return tm ->
    el_axis tm = a
    /\ NoDup (dict_keys (channels data))
    /\ forall e, In e (dict_keys (channels data)) -> el_axis e = a -> e = tm.

(** Each debounced sub-acquisition has at most one cycle in flight, and none
    while its busy flag is clear. *)
Definition at_most_one_in_flight (s : System) : Prop :=
  forall j, (count_job j (in_flight s) <= 1)%nat
            /\ (busy_flag j (coord s) = false ->
                count_job j (in_flight s) = 0%nat).

(** What is asked of a [put_value] call made for acquirable [e]. *)
Definition put_as_wrapped (index : PyVal)
    (values : dict Element (option SardanaValue)) (e : Element) (ev : event)
  : Prop :=
  forall e' v p, fst ev = PutValue e' v p ->
    e' = e /\ p = 2 /\
    exists v0, dict_get element_eqb e values = Some (Some v0)
               /\ v = wrapped index v0.

(** ** ConfigSplitter: [getTGConfiguration] *)

(** The ["Create list with not repeated elements"] loop: the trigger
    elements of the controllers, each kept at its first occurrence.  The key
    of an entry is not looked at, so ['__tango__'] is read like any other. *)
Fixpoint tg_element_list (items : dict CtrlKey CtrlInfo) (acc : list Element)
  : list Element :=
  match items with
  | [] => acc
  | (_, ctrl_info) :: rest =>
      match trigger_element ctrl_info with
      | Some tg_element =>
          if existsb (element_eqb tg_element) acc
          then tg_element_list rest acc
          else tg_element_list rest (acc ++ [tg_element])
      | None => tg_element_list rest acc
      end
  end.

(** The "intermediate dictionary": the trigger elements filed under the
    controller [tgelem.get_controller()] answers. *)
Fixpoint ctrl_tgelem_dict (tgelems : list Element)
    (d : dict PoolController (list Element)) : dict PoolController (list Element) :=
  match tgelems with
  | [] => d
  | tgelem :: rest =>
      let tg_ctrl := el_controller tgelem in
      match dict_get ctrl_eqb tg_ctrl d with
      | None => ctrl_tgelem_dict rest (dict_set ctrl_eqb tg_ctrl [tgelem] d)
      | Some l => ctrl_tgelem_dict rest (dict_set ctrl_eqb tg_ctrl (l ++ [tgelem]) d)
      end
  end.

(** The entry of one controller in the trigger/gate configuration: its
    ['channels'], each channel holding its ['full_name']. *)
Record TGCtrlInfo : Type := {
  tg_channels : dict Element string
}.

Definition TGcfg : Type := dict PoolController TGCtrlInfo.

Section TGConfiguration.
(** [tg_elem.full_name] *)
Variable full_name : Element -> string.

(** [for tg_elem in ctrl_tgelem_dict[ctrl]: ctrls['channels'][tg_elem] = ...] *)
Fixpoint tg_channels_of (tgelems : list Element) (chs : dict Element string)
  : dict Element string :=
  match tgelems with
  | [] => chs
  | tg_elem :: rest =>
      tg_channels_of rest (dict_set element_eqb tg_elem (full_name tg_elem) chs)
  end.

(** [for ctrl in ctrl_tgelem_dict: TGcfg['controllers'][ctrl] = ...] *)
Fixpoint tg_controllers (groups : dict PoolController (list Element))
    (cfg : TGcfg) : TGcfg :=
  match groups with
  | [] => cfg
  | (ctrl, tgelems) :: rest =>
      tg_controllers rest
        (dict_set ctrl_eqb ctrl {| tg_channels := tg_channels_of tgelems [] |} cfg)
  end.

(** [getTGConfiguration(MGcfg)] returns [(TGcfg, _tg_element_list)]; the
    first component is [TGcfg['controllers']]. *)
Definition getTGConfiguration (cfg : MGcfg) : TGcfg * list Element :=
  let _tg_element_list := tg_element_list (controllers cfg) [] in
  (tg_controllers (ctrl_tgelem_dict _tg_element_list []) [], _tg_element_list).
End TGConfiguration.

(** ** AcquisitionCoordinator: [PoolAcquisition.run] *)

(** What [run] asks of the sub-actions it owns; their [run] and
    [add_listener] belong to [sardana.pool.poolaction]. *)
Inductive run_effect : Type :=
| HwAcqRun (kwargs : Kwargs)
| TgGenAddListener
| TgGenRun (tg_cfg : TGcfg).

(** [d = dict(kwargs); d['config'] = cfg; d['integ_time'] = integ_time] *)
Definition acq_kwargs (kwargs : Kwargs) (cfg : MGcfg) (integ_time : PyVal)
  : Kwargs :=
  {| kw_config := Some cfg; kw_integ_time := Some integ_time;
     kw_monitor_count := kw_monitor_count kwargs;
     kw_repetitions := kw_repetitions kwargs;
     kw_synch := kw_synch kwargs; kw_idx := kw_idx kwargs |}.

(** [d = dict(kwargs); d['config'] = cfg] *)
Definition zerod_kwargs (kwargs : Kwargs) (cfg : MGcfg) : Kwargs :=
  {| kw_config := Some cfg; kw_integ_time := kw_integ_time kwargs;
     kw_monitor_count := kw_monitor_count kwargs;
     kw_repetitions := kw_repetitions kwargs;
     kw_synch := kw_synch kwargs; kw_idx := kw_idx kwargs |}.

Section Run.
Variable is_software_tg : Element -> bool.
Variable full_name : Element -> string.
(** How the calls on the sub-actions end: [self._hw_acq.run],
    [self._tg_gen.add_listener], [self._tg_gen.run]. *)
Variable hw_acq_run : Kwargs -> result unit.
Variable tg_gen_add_listener : result unit.
Variable tg_gen_run : TGcfg -> result unit.

(** The [if len(sw_acq_cfg['controllers']) or len(zerod_acq_cfg[...])] block:
    the coordinator registers as listener and caches the configurations of
    the non-empty subsets. *)
Definition run_cache (self : PoolAcquisition) (kwargs : Kwargs)
    (integ_time : PyVal) (sw_acq_cfg zerod_acq_cfg : MGcfg)
  : PoolAcquisition * list run_effect * result unit :=
  match controllers sw_acq_cfg, controllers zerod_acq_cfg with
  | [], [] => (self, [], Return tt)
  | sw, zd =>
      match tg_gen_add_listener with
      | inl e => (self, [TgGenAddListener], Raise e)
      | inr _ =>
          let self1 :=
            match sw with
            | [] => self
            | _ => set_sw_config self (Some (acq_kwargs kwargs sw_acq_cfg integ_time))
            end in
          let self2 :=
            match zd with
            | [] => self1
            | _ => set_0d_config self1 (Some (zerod_kwargs kwargs zerod_acq_cfg))
            end in
          (self2, [TgGenAddListener], Return tt)
      end
  end.

(** [PoolAcquisition.run]; [synchronization] is
    [kwargs["synchronization"]] when the key is there.  Gives the
    coordinator as [run] leaves it, what was asked of the sub-actions, in
    order, and how [run] ends. *)
Definition PoolAcquisition_run (self : PoolAcquisition) (kwargs : Kwargs)
    (synchronization : option (list SynchGroup))
  : PoolAcquisition * list run_effect * result unit :=
  match getitem "config" (kw_config kwargs) with
  | inl e => (self, [], Raise e)
  | inr config =>
  match getitem "synchronization" synchronization with
  | inl e => (self, [], Raise e)
  | inr synch =>
  match extract_integ_time synch with
  | inl e => (self, [], Raise e)
  | inr integ_time =>
  match split_MGConfigurations is_software_tg config with
  | inl e => (self, [], Raise e)
  | inr (hw_acq_cfg, sw_acq_cfg, zerod_acq_cfg) =>
      let tg_cfg := fst (getTGConfiguration full_name config) in
      let hw :=
        match controllers hw_acq_cfg with
        | [] => ([], Return tt)
        | _ =>
            let cont_acq_kwargs := acq_kwargs kwargs hw_acq_cfg integ_time in
            ([HwAcqRun cont_acq_kwargs], hw_acq_run cont_acq_kwargs)
        end in
      match hw with
      | (effs1, inl e) => (self, effs1, Raise e)
      | (effs1, inr _) =>
          match run_cache self kwargs integ_time sw_acq_cfg zerod_acq_cfg with
          | (self', effs2, inl e) => (self', effs1 ++ effs2, Raise e)
          | (self', effs2, inr _) =>
              (self', effs1 ++ effs2 ++ [TgGenRun tg_cfg], tg_gen_run tg_cfg)
          end
      end
  end end end end.
End Run.

(** ** PollLoop family: [in_acquisition] and the final loops *)

(** [v[i]] for a list or tuple; [None] and scalars cannot be indexed. *)
Definition py_getitem (v : PyVal) (i : nat) : result PyVal :=
  match v with
  | PyList l =>
      match nth_error l i with
      | Some x => Return x
      | None => Raise (IndexError "index out of range")
      end
  | PyNone =>
      Raise (TypeError "'NoneType' object has no attribute '__getitem__'")
  | _ => Raise (TypeError "object is not subscriptable")
  end.

(** [len(v)] *)
Definition py_len (v : PyVal) : result Z :=
  match v with
  | PyList l => Return (Z.of_nat (List.length l))
  | _ => Raise (TypeError "object has no len()")
  end.

Section InAcquisition.
(** [self._is_in_action], of [sardana.pool.poolaction]. *)
Variable is_in_action : PyVal -> bool.

(** [in_acquisition(states)] of [PoolAcquisitionBase] and
    [PoolCTAcquisition]: [True] at the first element whose
    [states[elem][0][0]] is in action; falling off the loop gives [None]. *)
Fixpoint in_acquisition (states : dict Element PyVal) : result PyVal :=
  match states with
  | [] => Return PyNone
  | (elem, info) :: rest =>
      (s0 <-? py_getitem info 0 ;;
       s <-? py_getitem s0 0 ;;
       if is_in_action s then Return (PyBool true) else in_acquisition rest)%result
  end.

(** [in_acquisition(states)] of [Pool0DAcquisition], which reads
    [states[state][0]]. *)
Fixpoint in_acquisition_0d (states : dict Element PyVal) : result PyVal :=
  match states with
  | [] => Return PyNone
  | (elem, info) :: rest =>
      (s <-? py_getitem info 0 ;;
       if is_in_action s then Return (PyBool true) else in_acquisition_0d rest)%result
  end.
End InAcquisition.

Section FinalLoops.
Variable respond : list event -> call -> result PyVal.

(** The body shared by the final [for acquirable, state_info in
    states.items()] loops: state without propagation, the value as
    [publish] deals with it, then the cleared operation and the translated
    state with full propagation. *)
Definition converge_item (publish : Element -> Act unit)
    (item : Element * PyVal) : Act unit :=
  (let (acquirable, state_info) := item in
   invoke respond (SetStateInfo acquirable state_info 0) ;;;
   publish acquirable ;;;
   invoke respond (ClearOperation acquirable) ;;;
   state_info' <- invoke respond (FromCtrlStateInfo acquirable state_info) ;;
   invoke respond (SetStateInfo acquirable state_info' 2) ;;;
   aret tt)%act.

(** [PoolAcquisitionHardware] and [PoolContHWAcquisition]:
    [if len(value.value) > 0: acquirable.put_value(value, propagate=2)]. *)
Definition publish_nonempty (values : dict Element (option SardanaValue))
    (acquirable : Element) : Act unit :=
  match dict_get element_eqb acquirable values with
  | None => aret tt
  | Some None =>
      araise (AttributeError "'NoneType' object has no attribute 'value'")
  | Some (Some value) =>
      (n <- alift (py_len (sv_value value)) ;;
       if 0 <? n then (invoke respond (PutValue acquirable value 2) ;;; aret tt)
       else aret tt)%act
  end.

(** The final loop of [PoolAcquisitionHardware.action_loop] (and, with the
    same text, of [PoolContHWAcquisition.action_loop]). *)
Definition PoolAcquisitionHardware_converge (states : dict Element PyVal)
    (values : dict Element (option SardanaValue)) : Act unit :=
  for_each states (converge_item (publish_nonempty values)).
End FinalLoops.

(** ** Predicates used for the sequencing protocol *)

(** The step of the sequence a call belongs to. *)
Definition phase (c : call) : nat :=
  match c with
  | SetCtrlPar _ _ _ => 0%nat
  | PreLoadAll _ | PreLoadOne _ _ _ _ | LoadOne _ _ _ _ | LoadAll _ => 1%nat
  | PreStartAll _ => 2%nat
  | PreStartOne _ _ _ | StartOne _ _ _ => 3%nat
  | SetStateMoving _ _ => 4%nat
  | StartAll _ => 5%nat
  | _ => 6%nat
  end.

(** The value a per-channel call hands to the controller. *)
Definition one_call_value (c : call) : option PyVal :=
  match c with
  | PreLoadOne _ _ v _ | LoadOne _ _ v _ | PreStartOne _ _ v | StartOne _ _ v =>
      Some v
  | _ => None
  end.

(** The [TypeError] of a three-argument [PreLoadOne] or [LoadOne] is the one
    exception the base action catches. *)
Definition swallowed (c : call) (e : exn) : bool :=
  match c, e with
  | PreLoadOne _ _ _ (Some _), TypeError _ => true
  | LoadOne _ _ _ (Some _), TypeError _ => true
  | _, _ => false
  end.

(** The answers that end [PoolAcquisitionBase.start_action], with the
    exception each one ends it with: an exception that is not caught, a
    falsy [PreLoadOne], a falsy [PreStartOne]. *)
Definition fatal_base (ev : event) : option exn :=
  match ev with
  | (c, inl e) => if swallowed c e then None else Some e
  | (PreLoadOne c axis _ _, inr ans) =>
      if truthy ans then None
      else Some (returned_False c "PreLoadOne" axis "returned")
  | (PreStartOne c axis _, inr ans) =>
      if truthy ans then None
      else Some (returned_False c "PreStartOne" axis "returns")
  | (_, inr _) => None
  end.

(** An action in whose call log a fatal answer can only be the last entry,
    and which then raises the exception that goes with it. *)
Definition aborts_at {A} (fatal : event -> option exn) (m : Act A) : Prop :=
  forall h d r, m h = (d, r) ->
  forall pre ev post e,
    d = pre ++ ev :: post -> fatal ev = Some e ->
    post = [] /\ r = Raise e.

(** An action that makes the call of a fatal answer last and then either
    raises, or returns the falsy answer that its caller turns into [X]. *)
Definition answers (fatal : event -> option exn) (X : exn) (m : Act PyVal)
  : Prop :=
  forall h d r, m h = (d, r) ->
  forall pre ev post e,
    d = pre ++ ev :: post -> fatal ev = Some e ->
    post = [] /\
    (r = Raise e \/ exists ans, r = Return ans /\ truthy ans = false /\ e = X).

(** An action in whose call log every entry that satisfies [T] comes
    directly after an entry related to it by [R]. *)
Definition directly_after {A} (T : event -> Prop) (R : event -> event -> Prop)
    (m : Act A) : Prop :=
  forall h d r, m h = (d, r) ->
  forall pre ev post,
    d = pre ++ ev :: post -> T ev ->
    exists pre' ev', pre = pre' ++ [ev'] /\ R ev' ev.

Definition is_StartOne (ev : event) : Prop :=
  exists c axis v, fst ev = StartOne c axis v.

(** [ev'] is the [PreStartOne] that allowed the [StartOne] [ev]: same
    controller, axis and value, answered by a truthy value. *)
Definition allowed_by (ev' ev : event) : Prop :=
  exists c axis v ans,
    ev' = (PreStartOne c axis v, Return ans) /\ truthy ans = true
    /\ fst ev = StartOne c axis v.

Definition is_final_state (ev : event) : Prop :=
  exists e s, fst ev = SetStateInfo e s 2.

(** [ev'] is the translation whose answer the final state [ev] publishes. *)
Definition translated_by (ev' ev : event) : Prop :=
  exists e si s,
    ev' = (FromCtrlStateInfo e si, Return s) /\ fst ev = SetStateInfo e s 2.

Definition is_translation (ev : event) : Prop :=
  exists e si, fst ev = FromCtrlStateInfo e si.

(** [ev'] is the [clear_operation] of the element that [ev] translates the
    state of, and it went through. *)
Definition cleared_by (ev' ev : event) : Prop :=
  exists e si ans,
    ev' = (ClearOperation e, Return ans) /\ fst ev = FromCtrlStateInfo e si.

(** Arguments whose top-level timer sits on the ZeroD controller, which is
    not timerable. *)
Definition zerod_master_cfg : MGcfg :=
  {| controllers := [(KCtrl ctrl_a, info_a); (KCtrl ctrl_z, info_z)];
     mg_timer := Some ch_z1; mg_monitor := None |}.

Definition zerod_master_kwargs : Kwargs :=
  {| kw_config := Some zerod_master_cfg;
     kw_integ_time := Some (PyFloat 1.0%float);
     kw_monitor_count := None; kw_repetitions := None;
     kw_synch := None; kw_idx := None |}.

(** The three timer/monitor-driven actions of the module. *)
Inductive Action : Type := BaseAction | CTAction | ContHWAction.

Definition start_action_of (a : Action)
    (respond : list event -> call -> result PyVal) (kwargs : Kwargs)
  : Act (dict Element Channel) :=
  match a with
  | BaseAction => PoolAcquisitionBase_start_action respond kwargs
  | CTAction => PoolCTAcquisition_start_action respond kwargs
  | ContHWAction => PoolContHWAcquisition_start_action respond kwargs
  end.

Definition sequence_of (a : Action)
    (respond : list event -> call -> result PyVal) (kwargs : Kwargs) (p : Plan)
  : Act unit :=
  match a with
  | BaseAction => sequence_base respond p
  | CTAction => sequence_ct respond p
  | ContHWAction => sequence_conthw respond kwargs p
  end.

(** A call addressed to a controller of the plan and, when it is a
    per-channel call, carrying the master value of the plan. *)
Definition plan_call (p : Plan) (ev : event) : Prop :=
  (forall c, call_ctrl (fst ev) = Some c -> In c (pool_ctrls p))
  /\ (forall v, one_call_value (fst ev) = Some v -> v = master_value p).

(** The sample arguments with a monitor count of 5 in place of the
    integration time. *)
Definition monitor_kwargs : Kwargs :=
  {| kw_config := Some sample_cfg; kw_integ_time := None;
     kw_monitor_count := Some 5; kw_repetitions := Some (PyInt 1);
     kw_synch := None; kw_idx := None |}.

(** Controllers whose [PreLoadOne] answers [False]. *)
Definition refusing_preload : list event -> call -> result PyVal :=
  fun _ c =>
    match c with
    | PreLoadOne _ _ _ _ => Return (PyBool false)
    | _ => Return (PyBool true)
    end.

(** Controllers of the old API: the three-argument [PreLoadOne] and
    [LoadOne] raise [TypeError]. *)
Definition old_api : list event -> call -> result PyVal :=
  fun _ c =>
    match c with
    | PreLoadOne _ _ _ (Some _) | LoadOne _ _ _ (Some _) =>
        Raise (TypeError "takes exactly 3 arguments (4 given)")
    | _ => Return (PyBool true)
    end.

(** A two-argument [PreLoadOne] or [LoadOne]. *)
Definition is_two_argument (ev : event) : Prop :=
  match fst ev with
  | PreLoadOne _ _ _ None | LoadOne _ _ _ None => True
  | _ => False
  end.

(** [ev'] is the three-argument call that [ev] falls back from: the same
    method, controller, axis and value, answered by a [TypeError]. *)
Definition falls_back_from (ev' ev : event) : Prop :=
  exists msg,
    snd ev' = Raise (TypeError msg) /\
    match fst ev', fst ev with
    | PreLoadOne c' a' v' (Some _), PreLoadOne c a v None
    | LoadOne c' a' v' (Some _), LoadOne c a v None =>
        c' = c /\ a' = a /\ v' = v
    | _, _ => False
    end.

(** Whether an [Active] event finds the sub-acquisition of a job ready: its
    configuration cached and truthy, its busy flag clear. *)
Definition ready (j : Job) (self : PoolAcquisition) : bool :=
  config_truthy (job_config j self) && negb (busy_flag j self).

(** Whether the software side makes [event_received] return early. *)
Definition sw_blocks (self : PoolAcquisition) : bool :=
  config_truthy (sw_acq_config self) && sw_acq_busy self.

(** A busy flag is only set while a cycle of that sub-acquisition is in
    flight. *)
Definition busy_means_in_flight (s : System) : Prop :=
  forall j, busy_flag j (coord s) = true -> count_job j (in_flight s) = 1%nat.

(** The coordinator after [set_sw_config] with the sample arguments and one
    [Active] event with id 7. *)
Definition after_one_active : System :=
  let s1 := {| coord := set_sw_config (coord initial) (Some sample_kwargs);
               in_flight := in_flight initial |} in
  {| coord := fst (event_received (coord s1) TGActive 7);
     in_flight := in_flight s1 ++
                  submitted (snd (event_received (coord s1) TGActive 7)) |}.

(** The value block of the final loop of
    [PoolAcquisitionSoftware.action_loop], as a [publish] of
    [converge_item]. *)
Definition publish_wrapped (respond : list event -> call -> result PyVal)
    (index : PyVal) (values : dict Element (option SardanaValue))
    (acquirable : Element) : Act unit :=
  match dict_get element_eqb acquirable values with
  | None => aret tt
  | Some None =>
      araise (AttributeError "'NoneType' object has no attribute 'value'")
  | Some (Some value) =>
      (let value' := {| sv_value := PyList [sv_value value];
                        sv_idx := PyList [index] |} in
       invoke respond (PutValue acquirable value' 2) ;;; aret tt)%act
  end.

(** The final loops of the action loops: the software one, with the index
    it was started with, and the hardware one. *)
Inductive FinalLoop : Type := SoftwareLoop (index : PyVal) | HardwareLoop.

Definition final_loop_of (l : FinalLoop)
    (respond : list event -> call -> result PyVal)
    (states : dict Element PyVal)
    (values : dict Element (option SardanaValue)) : Act unit :=
  match l with
  | SoftwareLoop index =>
      PoolAcquisitionSoftware_converge respond index states values
  | HardwareLoop => PoolAcquisitionHardware_converge respond states values
  end.

Definition publish_of (l : FinalLoop)
    (respond : list event -> call -> result PyVal)
    (values : dict Element (option SardanaValue)) : Element -> Act unit :=
  match l with
  | SoftwareLoop index => publish_wrapped respond index values
  | HardwareLoop => publish_nonempty respond values
  end.

Definition is_PutValue (ev : event) : Prop :=
  exists e v p, fst ev = PutValue e v p.

(** States and values as read for the two channels of [ctrl_a]: the first
    with a one-point value, the second with an empty one. *)
Definition sample_states : dict Element PyVal :=
  [(ch_a1, PyList [PyInt 0; PyNone]); (ch_a2, PyList [PyInt 0; PyNone])].

Definition sample_values : dict Element (option SardanaValue) :=
  [(ch_a1, Some {| sv_value := PyList [PyFloat 3.5%float];
                   sv_idx := PyList [PyInt 0] |});
   (ch_a2, Some {| sv_value := PyList []; sv_idx := PyList [] |})].

(** [len(l)] used as a condition. *)
Definition nonempty {A} (l : list A) : bool :=
  match l with [] => false | _ => true end.

(** What a [run] that meets no failure asks of the sub-actions, in order:
    the hardware acquisition when the hardware subset has controllers, the
    listener registration when the software or the ZeroD subset has, then
    the trigger/gate generation. *)
Definition run_sequence (kwargs : Kwargs) (integ_time : PyVal)
    (hw_acq_cfg sw_acq_cfg zerod_acq_cfg : MGcfg) (tg_cfg : TGcfg)
  : list run_effect :=
  (if nonempty (controllers hw_acq_cfg)
   then [HwAcqRun (acq_kwargs kwargs hw_acq_cfg integ_time)] else [])
  ++ (if nonempty (controllers sw_acq_cfg)
         || nonempty (controllers zerod_acq_cfg)
      then [TgGenAddListener] else [])
  ++ [TgGenRun tg_cfg].

(** A configuration whose only controller is triggered by hardware, and
    arguments of [run] for it. *)
Definition hw_only_cfg : MGcfg :=
  {| controllers :=
       [(KCtrl ctrl_b,
         {| channels := channels info_b; timer := timer info_b;
            monitor := monitor info_b; trigger_element := Some tg_hw |})];
     mg_timer := Some ch_b1; mg_monitor := Some ch_b1 |}.

Definition hw_only_kwargs : Kwargs :=
  {| kw_config := Some hw_only_cfg; kw_integ_time := None;
     kw_monitor_count := None; kw_repetitions := Some (PyInt 1);
     kw_synch := None; kw_idx := None |}.

Definition mixed_kwargs : Kwargs :=
  {| kw_config := Some mixed_cfg; kw_integ_time := None;
     kw_monitor_count := None; kw_repetitions := Some (PyInt 1);
     kw_synch := None; kw_idx := None |}.

(** Sub-actions that start without raising, triggers all from hardware
    elements. *)
Definition sample_run (self : PoolAcquisition) (kwargs : Kwargs)
    (synchronization : option (list SynchGroup))
  : PoolAcquisition * list run_effect * result unit :=
  PoolAcquisition_run (fun _ => false) (fun _ => "tg"%string)
    (fun _ => Return tt) (Return tt) (fun _ => Return tt)
    self kwargs synchronization.

(** The three subsets [mixed_cfg] splits into when every trigger element is
    a hardware one. *)
Definition mixed_hw : MGcfg :=
  {| controllers :=
       [(KCtrl ctrl_b,
         {| channels := channels info_b; timer := timer info_b;
            monitor := monitor info_b; trigger_element := Some tg_hw |})];
     mg_timer := Some ch_b1; mg_monitor := Some ch_b1 |}.

Definition mixed_sw : MGcfg :=
  {| controllers := [(KCtrl ctrl_a, info_a)];
     mg_timer := Some ch_a1; mg_monitor := Some ch_a1 |}.

Definition mixed_zd : MGcfg :=
  {| controllers := [(KCtrl ctrl_z, info_z)];
     mg_timer := None; mg_monitor := None |}.

(** A subset no controller went to. *)
Definition empty_cfg : MGcfg :=
  {| controllers := []; mg_timer := None; mg_monitor := None |}.

(** A synchronization of one group with an active time of two seconds. *)
Definition one_group : list SynchGroup := [group_of 2.0%float None].

(** [State.Moving] as the integer 1, and states as [read_state_info] files
    them for counter channels: [((state, status), exc_info)]. *)
Definition moving_is_1 (s : PyVal) : bool :=
  match s with PyInt 1 => true | _ => false end.

Definition state_entry (state : Z) : PyVal :=
  PyList [PyList [PyInt state; PyNone]; PyNone].

Definition idle_states : dict Element PyVal :=
  [(ch_a1, state_entry 0); (ch_a2, state_entry 0)].

(** The second state not read yet. *)
Definition unread_states : dict Element PyVal :=
  [(ch_a1, state_entry 1); (ch_a2, PyNone)].

(** * Properties *)

(** ** [extract_integ_time] *)

Lemma extract_integ_time_single_example :
  extract_integ_time [group_of 2.0%float None] = Return (PyFloat 2.0%float).
Proof. reflexivity. Qed.

(** X1: one group: the scalar active time of that group, whatever its
    repeat count (which is not read). *)
Lemma extract_integ_time_single (g : SynchGroup) (t : float) :
  active_time_of g = Return t ->
  extract_integ_time [g] = Return (PyFloat t).
Proof.
  intros Ht. unfold extract_integ_time. simpl. rewrite Ht. reflexivity.
Qed.

Lemma extract_loop_unbound (groups : list SynchGroup) :
  groups <> [] -> exists e, extract_loop groups None = Raise e.
Proof.
  destruct groups as [|g rest]; [congruence|]. intros _. simpl.
  destruct (active_time_of g) as [e|t]; simpl; [eauto|].
  destruct (Repeats g) as [n|]; simpl; eauto.
Qed.

(** X2: any number of groups other than one, none included: the function
    raises, it never returns a list. *)
Lemma extract_integ_time_not_single (synchronization : list SynchGroup) :
  List.length synchronization <> 1%nat ->
  exists e, extract_integ_time synchronization = Raise e.
Proof.
  intros Hlen. unfold extract_integ_time.
  destruct (Z.eqb_spec (Z.of_nat (List.length synchronization)) 1) as [E|_];
    [lia|].
  destruct synchronization as [|g rest].
  - simpl. eauto.
  - destruct (@extract_loop_unbound (g :: rest)) as [e He]; [congruence|].
    rewrite He. simpl. eauto.
Qed.

(** C1, at the input of the specification: on the two groups
    [{Active:{Time:1.0},Repeats:3}] and [{Active:{Time:2.0},Repeats:2}] the
    function raises [UnboundLocalError] for its local [integ_time]; it does
    not return [[1.0,1.0,1.0,2.0,2.0]]. *)
Theorem extract_integ_time_two_groups_raises :
  extract_integ_time [group_of 1.0%float (Some 3); group_of 2.0%float (Some 2)]
  = Raise (UnboundLocalError "integ_time").
Proof. reflexivity. Qed.

(** ** Laws of the action monad *)

Lemma abind_alift_Return {A B} (a : A) (k : A -> Act B) (h : list event) :
  abind (alift (Return a)) k h = k a h.
Proof.
  unfold abind, alift, Return. rewrite app_nil_r.
  destruct (k a h) as [d r]. reflexivity.
Qed.

Lemma abind_alift_Raise {A B} (e : exn) (k : A -> Act B) (h : list event) :
  abind (alift (Raise e)) k h = ([], Raise e).
Proof. reflexivity. Qed.

(** Every outcome of [abind m k] is either [m] raising, or [m] returning and
    [k] going on from the extended history. *)
Lemma abind_inv {A B} (m : Act A) (k : A -> Act B) (h d : list event)
    (r : result B) :
  abind m k h = (d, r) ->
  (exists e, m h = (d, inl e) /\ r = inl e) \/
  (exists d1 a d2, m h = (d1, inr a) /\ k a (h ++ d1) = (d2, r) /\ d = d1 ++ d2).
Proof.
  unfold abind. destruct (m h) as [d1 [e|a]].
  - intros H. inversion H; subst. left. eauto.
  - destruct (k a (h ++ d1)) as [d2 r2] eqn:Hk.
    intros H. inversion H; subst. right. exists d1, a, d2. auto.
Qed.

Lemma try_except_TypeError_inv {A} (m handler : Act A) (h d : list event)
    (r : result A) :
  try_except_TypeError m handler h = (d, r) ->
  (m h = (d, r) /\ forall msg, r <> inl (TypeError msg)) \/
  (exists d1 msg d2, m h = (d1, inl (TypeError msg)) /\
                     handler (h ++ d1) = (d2, r) /\ d = d1 ++ d2).
Proof.
  unfold try_except_TypeError. destruct (m h) as [d1 [e|a]].
  - destruct e;
      try (intros H; inversion H; subst; left; split; [reflexivity|congruence]).
    destruct (handler (h ++ d1)) as [d2 r2] eqn:Hh.
    intros H. inversion H; subst. right. exists d1, msg, d2. auto.
  - intros H. inversion H; subst. left. split; [reflexivity|congruence].
Qed.

Lemma first_event_bind {A B} (m : Act A) (k : A -> Act B) h ev :
  first_event m h ev -> first_event (abind m k) h ev.
Proof.
  intros (rest & r & Hm). unfold first_event, abind. rewrite Hm.
  destruct r as [e|a]; [eauto|].
  destruct (k a (h ++ ev :: rest)) as [d2 r2]. simpl. eauto.
Qed.

Lemma first_event_after_lift {A B} (a : A) (k : A -> Act B) h ev :
  first_event (k a) h ev -> first_event (abind (alift (Return a)) k) h ev.
Proof. unfold first_event. rewrite abind_alift_Return. auto. Qed.

Lemma first_event_invoke respond (c : call) h :
  first_event (invoke respond c) h (c, respond h c).
Proof. unfold first_event, invoke. eauto. Qed.

Lemma invoke_inv respond (c : call) (h d : list event) (r : result PyVal) :
  invoke respond c h = (d, r) -> d = [(c, r)] /\ r = respond h c.
Proof. unfold invoke. intros H. inversion H; subst. auto. Qed.

Lemma for_each_cons {X} (x : X) (l : list X) (body : X -> Act unit) :
  for_each (x :: l) body = abind (body x) (fun _ => for_each l body).
Proof. reflexivity. Qed.

Section ActAll.
Variable P : event -> Prop.

Lemma act_all_aret {A} (a : A) : act_all P (aret a).
Proof. intros h. constructor. Qed.

Lemma act_all_araise {A} (e : exn) : act_all P (@araise A e).
Proof. intros h. constructor. Qed.

Lemma act_all_alift {A} (r : result A) : act_all P (alift r).
Proof. intros h. constructor. Qed.

Lemma act_all_abind {A B} (m : Act A) (k : A -> Act B) :
  act_all P m -> (forall a, act_all P (k a)) -> act_all P (abind m k).
Proof.
  intros Hm Hk h. unfold abind. specialize (Hm h).
  destruct (m h) as [d1 [e|a]]; [exact Hm|].
  specialize (Hk a (h ++ d1)). destruct (k a (h ++ d1)) as [d2 r].
  cbn in *. apply Forall_app. auto.
Qed.

Lemma act_all_try {A} (m handler : Act A) :
  act_all P m -> act_all P handler -> act_all P (try_except_TypeError m handler).
Proof.
  intros Hm Hh h. unfold try_except_TypeError. specialize (Hm h).
  destruct (m h) as [d1 [e|a]]; [|exact Hm].
  destruct e; try exact Hm.
  specialize (Hh (h ++ d1)). destruct (handler (h ++ d1)) as [d2 r].
  cbn in *. apply Forall_app. auto.
Qed.

Lemma act_all_invoke respond (c : call) :
  (forall r, P (c, r)) -> act_all P (invoke respond c).
Proof. intros Hc h. unfold invoke. cbn. constructor; [apply Hc|constructor]. Qed.

Lemma act_all_for_each {X} (l : list X) (body : X -> Act unit) :
  (forall x, In x l -> act_all P (body x)) -> act_all P (for_each l body).
Proof.
  induction l as [|x l IH]; intros Hb.
  - apply act_all_aret.
  - rewrite for_each_cons. apply act_all_abind.
    + apply Hb. left. reflexivity.
    + intros _. apply IH. intros y Hy. apply Hb. right. exact Hy.
Qed.
End ActAll.

Lemma act_all_impl {A} (P Q : event -> Prop) (m : Act A) :
  (forall ev, P ev -> Q ev) -> act_all P m -> act_all Q m.
Proof. intros HPQ Hm h. eapply Forall_impl; [exact HPQ|apply Hm]. Qed.

(** ** The check of integration time against monitor count *)

Lemma fmt_d_example : fmt_d (-12) = "-12".
Proof. reflexivity. Qed.

Lemma build_channels_head (d : dict CtrlKey CtrlInfo) (c : PoolController)
    (rest : list PoolController) (chs chs' : dict Element Channel) :
  build_channels d (c :: rest) chs = Return chs' ->
  exists data, ctrl_data d c = Return data.
Proof.
  simpl. destruct (ctrl_data d c) as [e|data]; simpl; [discriminate|eauto].
Qed.

Lemma plan_of_first_ctrl (kwargs : Kwargs) (p : Plan) :
  plan_of kwargs = Return p ->
  exists c rest data,
    pool_ctrls p = c :: rest /\ ctrl_data (pool_ctrls_dict p) c = Return data.
Proof.
  unfold plan_of.
  destruct (getitem "config" (kw_config kwargs)) as [e|cfg]; simpl; [discriminate|].
  destruct (select_master _ _) as [e|km]; simpl; [discriminate|].
  destruct (cfg_master (fst km) cfg) as [e|master]; simpl; [discriminate|].
  destruct (timerable_ctrls _) as [e|timerable]; simpl; [discriminate|].
  destruct (list_remove _ _ _) as [e|others]; simpl; [discriminate|].
  destruct (build_channels _ _ _) as [e|chs] eqn:Hb; simpl; [discriminate|].
  intros H. inversion H; subst; clear H. simpl.
  destruct (others ++ [el_controller master]) as [|c rest] eqn:E.
  - destruct others; discriminate.
  - destruct (build_channels_head _ _ _ _ Hb) as [data Hd]. eauto.
Qed.

Lemma exactly_one_check (kwargs : Kwargs) :
  exactly_one kwargs ->
  check_integ_or_monitor (kw_integ_time kwargs) (kw_monitor_count kwargs)
  = Return tt.
Proof.
  intros [[Hi Hm]|[Hi Hm]].
  - rewrite Hm. destruct (kw_integ_time kwargs); [reflexivity|congruence].
  - rewrite Hi. destruct (kw_monitor_count kwargs); [reflexivity|congruence].
Qed.

(** C3: with neither or both of integration time and monitor count,
    [start_action] raises at once and has made no call at all; with exactly
    one of them the check passes and [start_action] is the sequencing that
    follows it, which, once the plan is built from the configuration, opens
    with [PreLoadAll] on the first controller. *)
Theorem start_action_integ_xor_monitor
    (respond : list event -> call -> result PyVal) (kwargs : Kwargs)
    (h : list event) :
  (neither_or_both kwargs ->
   exists msg,
     PoolAcquisitionBase_start_action respond kwargs h = ([], Raise (Exception msg)))
  /\
  (exactly_one kwargs ->
   check_integ_or_monitor (kw_integ_time kwargs) (kw_monitor_count kwargs)
     = Return tt
   /\ PoolAcquisitionBase_start_action respond kwargs h
      = (p <- alift (plan_of kwargs) ;;
         sequence_base respond p ;;; aret (plan_channels p))%act h
   /\ forall p, plan_of kwargs = Return p ->
      exists c,
        hd_error (pool_ctrls p) = Some c /\
        first_event (PoolAcquisitionBase_start_action respond kwargs) h
          (PreLoadAll c, respond h (PreLoadAll c))).
Proof.
  split.
  - intros [[Hi Hm]|[Hi Hm]];
      unfold PoolAcquisitionBase_start_action, abind, alift, prepare.
    + rewrite Hi, Hm. simpl. eauto.
    + destruct (kw_integ_time kwargs); [|congruence].
      destruct (kw_monitor_count kwargs); [|congruence]. simpl. eauto.
  - intros Hone.
    pose proof (exactly_one_check Hone) as Hcheck.
    assert (Heq : prepare kwargs = plan_of kwargs).
    { unfold prepare. rewrite Hcheck. reflexivity. }
    split; [exact Hcheck|]. split.
    + unfold PoolAcquisitionBase_start_action. rewrite Heq. reflexivity.
    + intros p Hp.
      destruct (plan_of_first_ctrl _ Hp) as (c & rest & data & Hc & Hd).
      exists c. split; [rewrite Hc; reflexivity|].
      unfold PoolAcquisitionBase_start_action. rewrite Heq, Hp.
      apply first_event_after_lift, first_event_bind.
      unfold sequence_base. rewrite Hc. apply first_event_bind.
      cbn [for_each]. apply first_event_bind.
      unfold load_ctrl_base. rewrite Hd.
      apply first_event_after_lift, first_event_bind, first_event_invoke.
Qed.

Lemma start_action_integ_xor_monitor_witness :
  (exists msg,
     PoolAcquisitionBase_start_action obliging
       {| kw_config := Some sample_cfg; kw_integ_time := None;
          kw_monitor_count := None; kw_repetitions := None;
          kw_synch := None; kw_idx := None |} []
     = ([], Raise (Exception msg)))
  /\ check_integ_or_monitor (kw_integ_time sample_kwargs)
       (kw_monitor_count sample_kwargs) = Return tt.
Proof.
  split.
  - apply (proj1 (start_action_integ_xor_monitor obliging _ [])).
    left. split; reflexivity.
  - apply (proj2 (start_action_integ_xor_monitor obliging sample_kwargs [])).
    left. split; [discriminate|reflexivity].
Defined.

(** ** The dispatch wrappers *)

(** C6: whatever the wrapped run does, and whether or not the logging in the
    handler goes through, both wrappers return [False] and never raise; the
    completion callback then clears the busy flag of its sub-acquisition. *)
Theorem run_wrappers_return_False (ran logged : result unit)
    (self : PoolAcquisition) :
  snd (_run_ct_continuous ran logged) = Return (PyBool false)
  /\ snd (_run_zerod_acquisition ran logged) = Return (PyBool false)
  /\ sw_acq_busy (worker_finish RunCtContinuous ran logged self) = false
  /\ zerod_acq_busy (worker_finish RunZerodAcquisition ran logged self) = false.
Proof.
  unfold worker_finish, run_job, _run_ct_continuous, _run_zerod_acquisition,
    try_except_finally_return.
  destruct ran as [e|[]]; [destruct logged as [e'|[]]|]; simpl; auto.
Qed.

(** ** Trigger-event dispatch *)

Ltac case_configs :=
  repeat match goal with
         | |- context [config_truthy (Some ?k)] =>
             destruct (config_truthy (Some k))
         end.

(** C10: with a software configuration cached and the software
    sub-acquisition busy, an [Active] event only logs the skip and returns:
    the coordinator is unchanged and nothing is handed to the worker pool,
    whatever the state of the ZeroD side. *)
Theorem active_event_sw_busy_skips_zerod (self : PoolAcquisition)
    (event_id : Z) :
  config_truthy (sw_acq_config self) = true ->
  sw_acq_busy self = true ->
  event_received self TGActive event_id
  = (self,
     [DebugEventReceived TGActive event_id;
      LogDebug "Skipping trigger: software acquisition is still in progress."])
  /\ submitted (snd (event_received self TGActive event_id)) = [].
Proof.
  intros Hcfg Hbusy. unfold event_received, is_cont_ct_acq_busy.
  destruct (sw_acq_config self) as [cfg|]; [|discriminate].
  rewrite Hcfg, Hbusy. split; reflexivity.
Qed.

Lemma active_event_sw_busy_skips_zerod_witness :
  config_truthy (zerod_config sw_busy_zerod_idle) = true
  /\ zerod_acq_busy sw_busy_zerod_idle = false
  /\ submitted (snd (event_received sw_busy_zerod_idle TGActive 7)) = [].
Proof.
  split; [reflexivity|]. split; [reflexivity|].
  apply (active_event_sw_busy_skips_zerod sw_busy_zerod_idle 7); reflexivity.
Defined.

Lemma count_job_app (j : Job) (l1 l2 : list Job) :
  count_job j (l1 ++ l2) = (count_job j l1 + count_job j l2)%nat.
Proof. unfold count_job. rewrite filter_app, length_app. reflexivity. Qed.

Lemma count_job_In (j : Job) (l : list Job) :
  In j l -> (0 < count_job j l)%nat.
Proof.
  unfold count_job. induction l as [|x l IH]; simpl; [tauto|].
  intros [->|Hin].
  - destruct j; simpl; lia.
  - destruct (job_eqb j x); simpl; [lia|auto].
Qed.

(** What one event does to the flag of a sub-acquisition: it hands over at
    most one cycle, none when the flag is set, and the flag afterwards is
    set exactly when it was set before or a cycle was handed over. *)
Lemma event_received_flag (self : PoolAcquisition) (event_type : TGEventType)
    (event_id : Z) (j : Job) :
  let after := event_received self event_type event_id in
  (count_job j (submitted (snd after)) <= 1)%nat
  /\ (busy_flag j self = true -> count_job j (submitted (snd after)) = 0%nat)
  /\ busy_flag j (fst after)
     = busy_flag j self || negb (Nat.eqb (count_job j (submitted (snd after))) 0).
Proof.
  destruct self as [swc zc sb zb].
  unfold event_received, dispatch_zerod, is_cont_ct_acq_busy,
    is_zerod_acq_busy, set_sw_config, set_0d_config, set_sw_acq_busy,
    set_0d_acq_busy.
  destruct event_type, j, swc as [ks|], zc as [kz|], sb, zb;
    cbn [sw_acq_config zerod_config sw_acq_busy zerod_acq_busy];
    case_configs; cbn; repeat split; try lia; try reflexivity;
    try discriminate.
Qed.

(** An event that finds the flag of a sub-acquisition set leaves that
    sub-acquisition as it was: flag set, cached configuration untouched. *)
Lemma event_received_dropped (self : PoolAcquisition) (event_id : Z) (j : Job) :
  busy_flag j self = true ->
  busy_flag j (fst (event_received self TGActive event_id)) = true
  /\ job_config j (fst (event_received self TGActive event_id))
     = job_config j self.
Proof.
  destruct self as [swc zc sb zb].
  unfold event_received, dispatch_zerod, is_cont_ct_acq_busy,
    is_zerod_acq_busy, set_sw_config, set_0d_config, set_sw_acq_busy,
    set_0d_acq_busy.
  destruct j, swc as [ks|], zc as [kz|], sb, zb;
    cbn [sw_acq_config zerod_config sw_acq_busy zerod_acq_busy busy_flag];
    intros Hb; try discriminate Hb;
    case_configs; cbn; split; reflexivity.
Qed.

Lemma worker_finish_flag (j0 j : Job) (ran logged : result unit)
    (self : PoolAcquisition) :
  busy_flag j (worker_finish j0 ran logged self)
  = if job_eqb j j0 then false else busy_flag j self.
Proof.
  unfold worker_finish, run_job, _run_ct_continuous, _run_zerod_acquisition,
    try_except_finally_return.
  destruct j0, j, ran as [e|[]]; try destruct logged as [e'|[]]; reflexivity.
Qed.

Lemma step_preserves_at_most_one (s s' : System) :
  at_most_one_in_flight s -> step s s' -> at_most_one_in_flight s'.
Proof.
  intros Hinv Hstep j. destruct (Hinv j) as [Hle Hidle].
  destruct Hstep as [s ty id|s before j0 after ran logged Hfl|s cfg|s cfg];
    cbn [coord in_flight].
  - destruct (event_received_flag (coord s) ty id j) as (Hsub & Hbusy & Hflag).
    cbv zeta in *. rewrite count_job_app, Hflag.
    destruct (busy_flag j (coord s)) eqn:Hb.
    + rewrite (Hbusy eq_refl). split; [lia|discriminate].
    + rewrite (Hidle eq_refl). split; [lia|].
      cbn. destruct (Nat.eqb_spec (count_job j (submitted
        (snd (event_received (coord s) ty id)))) 0); [lia|discriminate].
  - rewrite Hfl in Hle, Hidle. rewrite count_job_app in *.
    rewrite worker_finish_flag.
    unfold count_job in *. cbn [filter] in *.
    destruct (job_eqb j j0) eqn:Hj; cbn [List.length] in *.
    + split; [lia|]. intros _. lia.
    + split; [lia|]. intros Hb. specialize (Hidle Hb). lia.
  - destruct j; cbn; auto.
  - destruct j; cbn; auto.
Qed.

Lemma reachable_at_most_one (s : System) :
  reachable s -> at_most_one_in_flight s.
Proof.
  induction 1 as [|s s' _ IH Hstep].
  - intros j. destruct j; cbn; auto.
  - eapply step_preserves_at_most_one; eauto.
Qed.

(** C5: an [Active] event that finds the busy flag of a debounced
    sub-acquisition set hands no cycle of it to the worker pool and leaves
    its flag and cached configuration as they were (nothing is queued); in
    every reachable state each sub-acquisition has at most one cycle in
    flight, and none when its flag is clear; so a cycle is only handed over
    in a state where the flag is clear and the former cycle has finished. *)
Theorem debounce_single_in_flight :
  (forall self event_id j,
      busy_flag j self = true ->
      count_job j (submitted (snd (event_received self TGActive event_id))) = 0%nat
      /\ busy_flag j (fst (event_received self TGActive event_id)) = true
      /\ job_config j (fst (event_received self TGActive event_id))
         = job_config j self)
  /\ (forall s, reachable s -> at_most_one_in_flight s)
  /\ (forall s event_type event_id j,
         reachable s ->
         In j (submitted (snd (event_received (coord s) event_type event_id))) ->
         busy_flag j (coord s) = false
         /\ count_job j (in_flight s) = 0%nat).
Proof.
  split; [|split].
  - intros self event_id j Hb.
    destruct (event_received_flag self TGActive event_id j) as (_ & H0 & _).
    destruct (event_received_dropped self event_id j Hb). auto.
  - exact reachable_at_most_one.
  - intros s ty id j Hr Hin.
    destruct (event_received_flag (coord s) ty id j) as (_ & H0 & _).
    apply count_job_In in Hin.
    destruct (busy_flag j (coord s)) eqn:Hb.
    + cbv zeta in H0. rewrite (H0 eq_refl) in Hin. lia.
    + split; [reflexivity|]. apply (reachable_at_most_one Hr j). exact Hb.
Qed.

Lemma debounce_single_in_flight_witness :
  count_job RunCtContinuous
    (submitted (snd (event_received sw_busy_zerod_idle TGActive 8))) = 0%nat
  /\ at_most_one_in_flight
       {| coord := fst (event_received (coord initial) TGActive 7);
          in_flight := in_flight initial ++
            submitted (snd (event_received (coord initial) TGActive 7)) |}.
Proof.
  split.
  - apply (proj1 debounce_single_in_flight sw_busy_zerod_idle 8 RunCtContinuous).
    reflexivity.
  - apply (proj1 (proj2 debounce_single_in_flight)).
    apply (reach_step reach_init). apply step_event.
Defined.

(** ** The convergence of the software loop *)

Lemma converge_acquirable_sound (respond : list event -> call -> result PyVal)
    (index : PyVal) (values : dict Element (option SardanaValue))
    (e : Element) (si : PyVal) :
  act_all (put_as_wrapped index values e)
    (converge_acquirable respond index values (e, si)).
Proof.
  unfold converge_acquirable.
  apply act_all_abind;
    [apply act_all_invoke; intros r e' v p Hc; discriminate Hc|intros _].
  apply act_all_abind.
  - destruct (dict_get element_eqb e values) as [[v0|]|] eqn:Hv.
    + apply act_all_abind; [|intros _; apply act_all_aret].
      apply act_all_invoke. intros r e' v p Hc. cbn in Hc.
      inversion Hc; subst. split; [reflexivity|]. split; [reflexivity|].
      exists v0. split; [exact Hv|reflexivity].
    + apply act_all_araise.
    + apply act_all_aret.
  - intros _.
    repeat (apply act_all_abind;
            [apply act_all_invoke; intros r e' v p Hc; discriminate Hc|intros ?]).
    apply act_all_aret.
Qed.

Lemma converge_acquirable_complete
    (respond : list event -> call -> result PyVal)
    (index : PyVal) (values : dict Element (option SardanaValue))
    (e : Element) (si : PyVal) (h d : list event) (v0 : SardanaValue) :
  converge_acquirable respond index values (e, si) h = (d, Return tt) ->
  dict_get element_eqb e values = Some (Some v0) ->
  exists ans, In (PutValue e (wrapped index v0) 2, ans) d.
Proof.
  unfold converge_acquirable. intros H Hv. rewrite Hv in H.
  apply abind_inv in H.
  destruct H as [(ex & _ & Habs)|(d1 & a1 & d2 & _ & H2 & ->)]; [discriminate|].
  apply abind_inv in H2.
  destruct H2 as [(ex & _ & Habs)|(d3 & a3 & d4 & H3 & _ & ->)]; [discriminate|].
  apply abind_inv in H3.
  destruct H3 as [(ex & _ & Habs)|(d5 & a5 & d6 & H5 & _ & ->)]; [discriminate|].
  apply invoke_inv in H5. destruct H5 as [-> _].
  exists (inr a5). apply in_or_app. right. apply in_or_app. left.
  apply in_or_app. left. left. reflexivity.
Qed.

(** C7: in the final loop of the software action every value that is
    published was read for that acquirable and goes out as
    [put_value(value, propagate=2)] with [value.value] wrapped in a
    one-element list and [value.idx] the one-element list of the trigger
    index; and when the loop runs to its end, every acquirable of [states]
    whose value was read has been published so. *)
Theorem software_converge_wraps (respond : list event -> call -> result PyVal)
    (index : PyVal) (states : dict Element PyVal)
    (values : dict Element (option SardanaValue))
    (h d : list event) (r : result unit) :
  PoolAcquisitionSoftware_converge respond index states values h = (d, r) ->
  (forall e v p ans,
      In (PutValue e v p, ans) d ->
      p = 2 /\ In e (dict_keys states) /\
      exists v0, dict_get element_eqb e values = Some (Some v0)
                 /\ v = wrapped index v0)
  /\ (r = Return tt ->
      forall e si v0,
        In (e, si) states ->
        dict_get element_eqb e values = Some (Some v0) ->
        exists ans, In (PutValue e (wrapped index v0) 2, ans) d).
Proof.
  unfold PoolAcquisitionSoftware_converge. intros H. split.
  - assert (Hall : act_all
      (fun ev => exists e, In e (dict_keys states)
                           /\ put_as_wrapped index values e ev)
      (for_each states (converge_acquirable respond index values))).
    { apply act_all_for_each. intros [e si] Hin.
      eapply act_all_impl; [|apply converge_acquirable_sound].
      intros ev Hev. exists e. split; [|exact Hev].
      apply in_map_iff. exists (e, si). auto. }
    specialize (Hall h). rewrite H in Hall. cbn in Hall.
    rewrite Forall_forall in Hall.
    intros e v p ans Hin. destruct (Hall _ Hin) as (e0 & He0 & Hput).
    destruct (Hput e v p eq_refl) as (-> & -> & Hv). auto.
  - intros ->. revert h d H.
    induction states as [|[e0 si0] rest IH]; intros h d H e si v0 Hin Hv.
    + destruct Hin.
    + rewrite for_each_cons in H. apply abind_inv in H.
      destruct H as [(ex & _ & Habs)|(d1 & [] & d2 & Hm & Hk & ->)];
        [discriminate|].
      destruct Hin as [Heq|Hin].
      * inversion Heq; subst.
        destruct (converge_acquirable_complete _ _ _ _ _ _ Hm Hv) as [ans Ha].
        exists ans. apply in_or_app. left. exact Ha.
      * destruct (IH _ _ Hk e si v0 Hin Hv) as [ans Ha].
        exists ans. apply in_or_app. right. exact Ha.
Qed.

Lemma software_converge_wraps_witness :
  exists ans,
    In (PutValue ch_b1
          (wrapped (PyInt 7) {| sv_value := PyFloat 3.5%float; sv_idx := PyNone |})
          2, ans)
       (fst (PoolAcquisitionSoftware_converge obliging (PyInt 7)
               [(ch_b1, PyNone); (ch_b2, PyNone)]
               [(ch_b1, Some {| sv_value := PyFloat 3.5%float; sv_idx := PyNone |});
                (ch_b2, Some {| sv_value := PyFloat 0.5%float; sv_idx := PyNone |})]
               [])).
Proof.
  eapply (proj2 (@software_converge_wraps obliging (PyInt 7)
                   [(ch_b1, PyNone); (ch_b2, PyNone)] _ [] _ _
                   (surjective_pairing _))).
  - reflexivity.
  - left. reflexivity.
  - reflexivity.
Defined.

(** The trigger id reaches the published index: an [Active] event with id 7
    hands the software cycle over with ['idx'] 7, [start_action] on these
    arguments leaves [self.index] at 7, and the convergence publishes the
    value read for the timer channel as [[3.5]] with index [[7]]. *)
Lemma active_event_7_publishes_index_7 :
  exists kwargs trace chs,
    sw_cycle_kwargs (snd (event_received sw_idle TGActive 7)) = Some kwargs
    /\ PoolAcquisitionSoftware_start_action obliging kwargs []
       = (trace, Return (chs, PyInt 7))
    /\ In (PutValue ch_b1
             {| sv_value := PyList [PyFloat 3.5%float];
                sv_idx := PyList [PyInt 7] |} 2, Return (PyBool true))
          (fst (PoolAcquisitionSoftware_converge obliging (PyInt 7)
                  [(ch_b1, PyNone)]
                  [(ch_b1, Some {| sv_value := PyFloat 3.5%float;
                                   sv_idx := PyNone |})]
                  trace)).
Proof.
  eexists. eexists. eexists. split; [reflexivity|]. split.
  - vm_compute. reflexivity.
  - vm_compute. tauto.
Qed.

(** ** [split_MGConfigurations] *)

Lemma ctrl_eqb_eq (a b : PoolController) : ctrl_eqb a b = true <-> a = b.
Proof.
  unfold ctrl_eqb. destruct (PoolController_eq_dec a b); split; congruence.
Qed.

Lemma element_eqb_eq (a b : Element) : element_eqb a b = true <-> a = b.
Proof.
  unfold element_eqb. destruct (Element_eq_dec a b); split; congruence.
Qed.

Lemma ckey_eqb_eq (a b : CtrlKey) : ckey_eqb a b = true <-> a = b.
Proof.
  destruct a as [|x], b as [|y]; cbn; try (split; congruence).
  rewrite ctrl_eqb_eq. split; congruence.
Qed.

Lemma dict_set_fresh {V} (k : CtrlKey) (v : V) (d : dict CtrlKey V) :
  ~ In k (dict_keys d) -> dict_set ckey_eqb k v d = d ++ [(k, v)].
Proof.
  induction d as [|[k' v'] d IH]; cbn; intros Hk; [reflexivity|].
  destruct (ckey_eqb k k') eqn:E.
  - apply ckey_eqb_eq in E. subst. tauto.
  - rewrite IH; [reflexivity|tauto].
Qed.

Lemma NoDup_keys_unique {K V} (d : dict K V) (k : K) (v v' : V) :
  NoDup (dict_keys d) -> In (k, v) d -> In (k, v') d -> v = v'.
Proof.
  induction d as [|[k0 v0] d IH]; cbn; intros Hnd H1 H2; [tauto|].
  inversion Hnd as [|? ? Hnotin Hnd']; subst.
  assert (Hkey : forall w, In (k0, w) d -> False).
  { intros w Hw. apply Hnotin. apply in_map_iff. exists (k0, w). auto. }
  destruct H1 as [H1|H1], H2 as [H2|H2].
  - congruence.
  - inversion H1; subst. destruct (Hkey _ H2).
  - inversion H2; subst. destruct (Hkey _ H1).
  - auto.
Qed.

Section SplitFacts.
Variable is_software_tg : Element -> bool.

Lemma bucket_routed (ctrl : CtrlKey) (info : CtrlInfo) (s : Subset) :
  bucket is_software_tg (ctrl, info) = Some s <-> routed is_software_tg ctrl info s.
Proof.
  unfold bucket, routed. cbn [fst snd].
  destruct (first_ctrl_type ctrl) as [e|t].
  - split; [discriminate|]. intros (t & Ht & _). discriminate.
  - destruct (ElementType_eq_dec t ZeroDExpChannel) as [Hz|Hz].
    + split.
      * intros H. inversion H; subst. eauto.
      * intros (t' & Ht & Hs). inversion Ht; subst.
        destruct s; [destruct Hs as [Hs _]; congruence
                    |destruct Hs as [Hs _]; congruence|reflexivity].
    + destruct (trigger_element info) as [tg|] eqn:Htg.
      * destruct (is_software_tg tg) eqn:Hsw; split.
        -- intros H. inversion H; subst. exists t. eauto 8.
        -- intros (t' & Ht & Hs). inversion Ht; subst.
           destruct s; [|reflexivity|congruence].
           destruct Hs as (_ & tg' & Htg' & Hf). congruence.
        -- intros H. inversion H; subst. exists t. eauto 8.
        -- intros (t' & Ht & Hs). inversion Ht; subst.
           destruct s; [reflexivity| |congruence].
           destruct Hs as (_ & [Hn|(tg' & Htg' & Hf)]); congruence.
      * split.
        -- intros H. inversion H; subst. exists t. eauto.
        -- intros (t' & Ht & Hs). inversion Ht; subst.
           destruct s; [|reflexivity|congruence].
           destruct Hs as (_ & tg' & Htg' & _). congruence.
Qed.

Lemma split_one_spec (k : CtrlKey) (info : CtrlInfo) (o o' : SplitOut) :
  split_one is_software_tg k info o = Return o' ->
  (forall s, ~ In k (dict_keys (out_of s o))) ->
  exists s0, bucket is_software_tg (k, info) = Some s0 /\
    forall s, out_of s o'
              = out_of s o ++ (if subset_eqb s s0 then [(k, info)] else []).
Proof.
  unfold split_one, bucket. cbn [fst snd]. intros H Hfresh.
  destruct (first_ctrl_type k) as [e|t]; [discriminate H|]. cbn [rbind] in H.
  destruct (ElementType_eq_dec t ZeroDExpChannel) as [Hz|Hz].
  - inversion H; subst. exists ZeroD. split; [reflexivity|].
    intros [| |]; cbn; rewrite ?app_nil_r; try reflexivity.
    apply dict_set_fresh. apply (Hfresh ZeroD).
  - destruct (match trigger_element info with
              | Some tg_element => is_software_tg tg_element
              | None => true
              end) eqn:Hsw.
    + inversion H; subst. exists Software. split.
      * destruct (trigger_element info); [rewrite Hsw|]; reflexivity.
      * intros [| |]; cbn; rewrite ?app_nil_r; try reflexivity.
        apply dict_set_fresh. apply (Hfresh Software).
    + inversion H; subst. exists Hardware. split.
      * destruct (trigger_element info); [rewrite Hsw; reflexivity|discriminate].
      * intros [| |]; cbn; rewrite ?app_nil_r; try reflexivity.
        apply dict_set_fresh. apply (Hfresh Hardware).
Qed.

(** The loop files every item under its bucket, at the end of that dict. *)
Lemma split_loop_filter (items : dict CtrlKey CtrlInfo) :
  forall o o',
    NoDup (dict_keys items) -> fresh_for items o ->
    split_loop is_software_tg items o = Return o' ->
    (forall s, out_of s o'
               = out_of s o ++ filter (in_bucket is_software_tg s) items)
    /\ forall item, In item items -> bucket is_software_tg item <> None.
Proof.
  induction items as [|[k info] rest IH]; intros o o' Hnd Hfresh H.
  - cbn in H. inversion H; subst. split; [|intros item []].
    intros s. cbn. rewrite app_nil_r. reflexivity.
  - cbn [split_loop] in H.
    inversion Hnd as [|? ? Hnotin Hnd']; subst.
    destruct (split_one is_software_tg k info o) as [e|o1] eqn:H1;
      [discriminate H|]. cbn [rbind] in H.
    destruct (split_one_spec _ _ _ H1) as (s0 & Hb & Hout).
    { intros s. apply Hfresh. left. reflexivity. }
    apply IH in H; [|exact Hnd'|].
    + destruct H as [Hfil Hall]. split.
      * intros s. rewrite Hfil, Hout, <- app_assoc. f_equal.
        cbn [filter]. unfold in_bucket at 2. rewrite Hb.
        destruct (subset_eqb s s0); reflexivity.
      * intros item [<-|Hin]; [congruence|auto].
    + intros k' s Hk' Hin. rewrite Hout in Hin.
      unfold dict_keys in Hin. rewrite map_app in Hin.
      apply in_app_or in Hin. destruct Hin as [Hin|Hin].
      * exact (Hfresh k' s (or_intror Hk') Hin).
      * destruct (subset_eqb s s0); cbn in Hin; [|tauto].
        destruct Hin as [<-|[]]. exact (Hnotin Hk').
Qed.

Lemma split_loop_total (items : dict CtrlKey CtrlInfo) :
  (forall item, In item items -> bucket is_software_tg item <> None) ->
  forall o, exists o', split_loop is_software_tg items o = Return o'.
Proof.
  induction items as [|[k info] rest IH]; intros Hb o.
  - cbn. eauto.
  - cbn [split_loop].
    assert (H1 : exists o1, split_one is_software_tg k info o = Return o1).
    { specialize (Hb (k, info) (or_introl eq_refl)).
      unfold bucket in Hb. unfold split_one. cbn [fst snd] in Hb.
      destruct (first_ctrl_type k) as [e|t]; [congruence|]. cbn [rbind].
      destruct (ElementType_eq_dec t ZeroDExpChannel); [eauto|].
      destruct (match trigger_element info with
                | Some tg_element => is_software_tg tg_element
                | None => true
                end); eauto. }
    destruct H1 as [o1 H1]. rewrite H1. cbn [rbind].
    apply IH. intros item Hin. apply Hb. right. exact Hin.
Qed.

Lemma with_first_master_ctrls (ctrls : dict CtrlKey CtrlInfo) (cfg : MGcfg) :
  with_first_master ctrls = Return cfg -> controllers cfg = ctrls.
Proof.
  unfold with_first_master. destruct (dict_values ctrls) as [|first rest].
  - intros H. inversion H. reflexivity.
  - destruct (timer first); [|discriminate].
    destruct (monitor first); [|discriminate].
    intros H. inversion H. reflexivity.
Qed.

Lemma with_first_master_total (ctrls : dict CtrlKey CtrlInfo) :
  (forall k info, In (k, info) ctrls -> timer info <> None /\ monitor info <> None) ->
  exists cfg, with_first_master ctrls = Return cfg.
Proof.
  intros H. unfold with_first_master.
  destruct ctrls as [|[k first] rest]; cbn; [eauto|].
  destruct (H k first (or_introl eq_refl)) as [Ht Hm].
  destruct (timer first); [|congruence].
  destruct (monitor first); [|congruence]. cbn. eauto.
Qed.

Lemma split_outputs (cfg : MGcfg) (outs : MGcfg * MGcfg * MGcfg) :
  NoDup (dict_keys (controllers cfg)) ->
  split_MGConfigurations is_software_tg cfg = Return outs ->
  (forall s, subset_ctrls s outs
             = filter (in_bucket is_software_tg s) (controllers cfg))
  /\ forall item, In item (controllers cfg) -> bucket is_software_tg item <> None.
Proof.
  intros Hnd. unfold split_MGConfigurations.
  destruct (split_loop _ _ _) as [e|o] eqn:Hloop; [discriminate|]. cbn [rbind].
  apply split_loop_filter in Hloop; [|exact Hnd|intros k s _; destruct s; cbn; tauto].
  destruct Hloop as [Hfil Hall].
  destruct (with_first_master (ctrls_sw_out o)) as [e|sw] eqn:Hsw; [discriminate|].
  cbn [rbind].
  destruct (with_first_master (ctrls_hw_out o)) as [e|hw] eqn:Hhw; [discriminate|].
  cbn [rbind]. intros H. inversion H; subst. split; [|exact Hall].
  apply with_first_master_ctrls in Hsw, Hhw.
  intros [| |]; cbn [subset_ctrls controllers].
  - rewrite Hhw. apply (Hfil Hardware).
  - rewrite Hsw. apply (Hfil Software).
  - apply (Hfil ZeroD).
Qed.

Lemma splittable_bucket (cfg : MGcfg) (k : CtrlKey) (info : CtrlInfo) :
  splittable cfg -> In (k, info) (controllers cfg) ->
  bucket is_software_tg (k, info) <> None
  /\ (bucket is_software_tg (k, info) <> Some ZeroD ->
      timer info <> None /\ monitor info <> None).
Proof.
  intros Hs Hin. destruct (Hs k info Hin) as (c & t & ts & -> & Hty & Htm).
  unfold bucket. cbn. rewrite Hty. unfold Return.
  destruct (ElementType_eq_dec t ZeroDExpChannel) as [Hz|Hz].
  - split; [discriminate|]. intros H. destruct H. reflexivity.
  - split; [|auto].
    destruct (trigger_element info); [destruct (is_software_tg _)|]; discriminate.
Qed.

Lemma split_returns (cfg : MGcfg) :
  NoDup (dict_keys (controllers cfg)) -> splittable cfg ->
  exists outs, split_MGConfigurations is_software_tg cfg = Return outs.
Proof.
  intros Hnd Hs. unfold split_MGConfigurations.
  destruct (split_loop_total (controllers cfg)) with
    (o := {| ctrls_sw_out := []; ctrls_0d_out := []; ctrls_hw_out := [] |})
    as [o Hloop].
  { intros [k info] Hin. apply (splittable_bucket _ _ Hs Hin). }
  rewrite Hloop. cbv beta iota delta [rbind Return].
  apply split_loop_filter in Hloop; [|exact Hnd|intros k s _; destruct s; cbn; tauto].
  destruct Hloop as [Hfil _].
  assert (Hmaster : forall s, s <> ZeroD ->
            exists c, with_first_master (out_of s o) = Return c).
  { intros s Hnz. apply with_first_master_total. intros k info Hin.
    rewrite Hfil in Hin.
    replace (out_of s _) with (@nil (CtrlKey * CtrlInfo)) in Hin
      by (destruct s; reflexivity).
    cbn [app] in Hin. apply filter_In in Hin.
    destruct Hin as [Hin Hb]. apply (splittable_bucket _ _ Hs Hin).
    unfold in_bucket in Hb.
    destruct (bucket is_software_tg (k, info)) as [s'|]; [|discriminate].
    destruct s, s'; cbn in Hb; congruence. }
  destruct (Hmaster Software) as [sw Hsw]; [discriminate|].
  destruct (Hmaster Hardware) as [hw Hhw]; [discriminate|].
  cbn [out_of] in Hsw, Hhw. cbv delta [Return] in Hsw, Hhw.
  rewrite Hsw, Hhw. eauto.
Qed.

Lemma subset_eqb_eq (a b : Subset) : subset_eqb a b = true <-> a = b.
Proof. destruct a, b; cbn; split; congruence. Qed.
End SplitFacts.

(** C8: on a configuration whose controllers dict is well formed, the split
    returns whenever every controller has a type and the timer and monitor
    the function reads; and whenever it returns, every controller of the
    input sits, with its info, in the subset the routing rule names and in
    no other, and the subsets hold nothing but controllers of the input. *)
Theorem split_MGConfigurations_partitions (is_software_tg : Element -> bool)
    (mg_cfg_in : MGcfg) :
  NoDup (dict_keys (controllers mg_cfg_in)) ->
  (splittable mg_cfg_in ->
   exists outs, split_MGConfigurations is_software_tg mg_cfg_in = Return outs)
  /\ forall outs,
       split_MGConfigurations is_software_tg mg_cfg_in = Return outs ->
       (forall ctrl info,
           In (ctrl, info) (controllers mg_cfg_in) ->
           exists s, routed is_software_tg ctrl info s
                     /\ In (ctrl, info) (subset_ctrls s outs)
                     /\ forall s', In ctrl (dict_keys (subset_ctrls s' outs)) ->
                                   s' = s)
       /\ (forall s ctrl info,
              In (ctrl, info) (subset_ctrls s outs) ->
              In (ctrl, info) (controllers mg_cfg_in)).
Proof.
  intros Hnd. split; [apply split_returns; exact Hnd|].
  intros outs Hsplit.
  destruct (split_outputs is_software_tg _ Hnd Hsplit) as [Hfil Hall]. split.
  - intros ctrl info Hin.
    destruct (bucket is_software_tg (ctrl, info)) as [s|] eqn:Hb;
      [|destruct (Hall _ Hin Hb)].
    exists s. split; [apply bucket_routed; exact Hb|]. split.
    + rewrite Hfil. apply filter_In. split; [exact Hin|].
      unfold in_bucket. rewrite Hb. apply subset_eqb_eq. reflexivity.
    + intros s' Hin'. rewrite Hfil in Hin'. apply in_map_iff in Hin'.
      destruct Hin' as ([k info'] & Hk & Hin'). cbn in Hk. subst k.
      apply filter_In in Hin'. destruct Hin' as [Hin' Hb'].
      assert (info' = info) by (eapply NoDup_keys_unique; eauto). subst info'.
      unfold in_bucket in Hb'. rewrite Hb in Hb'.
      apply subset_eqb_eq. exact Hb'.
  - intros s ctrl info Hin. rewrite Hfil in Hin.
    apply filter_In in Hin. tauto.
Qed.

Lemma mixed_cfg_NoDup : NoDup (dict_keys (controllers mixed_cfg)).
Proof.
  cbn. repeat constructor; cbn; intros H;
    repeat (destruct H as [H|H]; [discriminate H|]); exact H.
Defined.

Lemma mixed_cfg_splittable : splittable mixed_cfg.
Proof.
  intros ctrl info H. cbn in H.
  destruct H as [H|[H|[H|[]]]]; inversion H; subst;
    eexists; eexists; eexists;
    (split; [reflexivity|]); (split; [reflexivity|]);
    cbn; intros Hne; try congruence; split; discriminate.
Defined.

Lemma split_MGConfigurations_partitions_witness :
  exists outs,
    split_MGConfigurations (fun _ => false) mixed_cfg = Return outs.
Proof.
  apply (proj1 (@split_MGConfigurations_partitions (fun _ => false) mixed_cfg
                  mixed_cfg_NoDup)).
  exact mixed_cfg_splittable.
Defined.

Lemma split_mixed_cfg_example :
  exists hw sw zd,
    split_MGConfigurations (fun _ => false) mixed_cfg = Return (hw, sw, zd)
    /\ dict_keys (controllers hw) = [KCtrl ctrl_b]
    /\ dict_keys (controllers sw) = [KCtrl ctrl_a]
    /\ dict_keys (controllers zd) = [KCtrl ctrl_z].
Proof. eexists. eexists. eexists. split; [reflexivity|]. cbn. auto. Qed.

(** ** A refused [PreStartOne] *)

Ltac act_all_step :=
  first [ apply act_all_aret | apply act_all_araise | apply act_all_alift
        | apply act_all_invoke
        | apply act_all_try
        | apply act_all_for_each; intros ? _
        | apply act_all_abind; [|intros ?]
        | match goal with
          | |- act_all _ (if ?b then _ else _) => destruct b
          | |- act_all _ (match ?x with _ => _ end) => destruct x
          end ].

Lemma stops_without_PreStartOne {A} (m : Act A) :
  act_all not_PreStartOne m -> stops_at_refusal m.
Proof.
  intros Hall h d r Hm pre c axis v ans post -> _.
  specialize (Hall h). rewrite Hm in Hall. cbn in Hall.
  rewrite Forall_forall in Hall.
  destruct (Hall (PreStartOne c axis v, Return ans)
              (in_elt _ _ _) c axis v eq_refl).
Qed.

Lemma stops_abind {A B} (m : Act A) (k : A -> Act B) :
  stops_at_refusal m -> (forall a, stops_at_refusal (k a)) ->
  stops_at_refusal (abind m k).
Proof.
  intros Hm Hk h d r H pre c axis v ans post Hd Hans.
  apply abind_inv in H.
  destruct H as [(e & H1 & ->)|(d1 & a & d2 & H1 & H2 & ->)].
  - destruct (Hm _ _ _ H1 _ _ _ _ _ _ Hd Hans) as [Hp He].
    split; [exact Hp|]. unfold Raise in *. congruence.
  - apply app_eq_app in Hd. destruct Hd as (l & [[-> Hp]|[-> Hp]]).
    + destruct l as [|x l]; cbn in Hp.
      * subst d2. rewrite app_nil_r in *.
        apply (Hk a _ _ _ H2 [] c axis v ans post eq_refl Hans).
      * inversion Hp; subst.
        destruct (Hm _ _ _ H1 _ _ _ _ _ _ eq_refl Hans) as [_ Habs].
        discriminate Habs.
    + subst d2.
      apply (Hk a _ _ _ H2 l c axis v ans post eq_refl Hans).
Qed.

Lemma stops_for_each {X} (l : list X) (body : X -> Act unit) :
  (forall x, stops_at_refusal (body x)) -> stops_at_refusal (for_each l body).
Proof.
  intros Hb. induction l as [|x l IH].
  - apply stops_without_PreStartOne, act_all_aret.
  - rewrite for_each_cons. apply stops_abind; auto.
Qed.

Section Refusal.
Variable respond : list event -> call -> result PyVal.

Lemma stops_start_element (p : Plan) (pool_ctrl : PoolController)
    (element : Element) :
  stops_at_refusal (start_element respond p pool_ctrl element).
Proof.
  unfold start_element.
  apply stops_abind;
    [apply stops_without_PreStartOne, act_all_alift|intros channel].
  apply stops_abind;
    [apply stops_without_PreStartOne, act_all_alift|intros enabled].
  destruct enabled; [|apply stops_without_PreStartOne, act_all_aret].
  intros h d r H pre c axis v ans post Hd Hans.
  apply abind_inv in H.
  destruct H as [(e & H1 & ->)|(d1 & ret & d2 & H1 & H2 & ->)];
    apply invoke_inv in H1; destruct H1 as [-> H1].
  - destruct pre as [|x pre]; cbn in Hd; inversion Hd.
    destruct pre; discriminate.
  - destruct pre as [|x pre]; cbn in Hd.
    + inversion Hd; subst. rewrite Hans in H2.
      unfold araise in H2. inversion H2; subst. auto.
    + inversion Hd as [[Hx Hrest]]. clear Hd.
      destruct (truthy ret).
      * apply abind_inv in H2.
        destruct H2 as [(e & H3 & ->)|(d3 & ? & d4 & H3 & H4 & ->)];
          apply invoke_inv in H3; destruct H3 as [-> H3].
        -- destruct pre as [|y pre]; cbn in Hrest; inversion Hrest.
           destruct pre; discriminate.
        -- unfold aret in H4. inversion H4; subst.
           destruct pre as [|y pre]; cbn in Hrest; inversion Hrest.
           destruct pre; discriminate.
      * unfold araise in H2. inversion H2; subst.
        destruct pre; discriminate.
Qed.

Lemma no_PreStartOne_load_base (p : Plan) (c : PoolController) :
  act_all not_PreStartOne (load_ctrl_base respond p c).
Proof.
  unfold load_ctrl_base. repeat act_all_step; intros ? ? ? ? Hcall; discriminate Hcall.
Qed.

Lemma no_PreStartOne_call_each (ctrls : list PoolController)
    (method : PoolController -> call) :
  (forall c c' a v, method c <> PreStartOne c' a v) ->
  act_all not_PreStartOne (call_each respond ctrls method).
Proof.
  intros Hm. unfold call_each. repeat act_all_step. intros ? ? ? ?. apply Hm.
Qed.

Lemma no_PreStartOne_set_states (p : Plan) :
  act_all not_PreStartOne (set_states_moving respond p).
Proof.
  unfold set_states_moving. repeat act_all_step.
  intros ? ? ? ? Hcall. discriminate Hcall.
Qed.

Lemma stops_start_ctrl_master_last (p : Plan) (c : PoolController) :
  stops_at_refusal (start_ctrl_master_last respond p c).
Proof.
  unfold start_ctrl_master_last.
  repeat (apply stops_abind;
          [apply stops_without_PreStartOne, act_all_alift|intros ?]).
  apply stops_for_each. intros x. apply stops_start_element.
Qed.

Lemma stops_sequence_base (p : Plan) :
  stops_at_refusal (sequence_base respond p).
Proof.
  unfold sequence_base.
  apply stops_abind; [|intros _].
  { apply stops_without_PreStartOne, act_all_for_each.
    intros c _. apply no_PreStartOne_load_base. }
  apply stops_abind; [|intros _].
  { apply stops_without_PreStartOne, no_PreStartOne_call_each. discriminate. }
  apply stops_abind; [|intros _].
  { apply stops_for_each. intros c. apply stops_start_ctrl_master_last. }
  apply stops_abind; [|intros _].
  { apply stops_without_PreStartOne, no_PreStartOne_set_states. }
  apply stops_without_PreStartOne, no_PreStartOne_call_each. discriminate.
Qed.
End Refusal.

(** C9: in [start_action], a [PreStartOne] call that answers a falsy value
    is the last call made: the [StartOne] that would follow it (and every
    later call) is not made, and [start_action] ends by raising the
    "PreStartOne(axis) returns False" exception of that controller. *)
Theorem prestart_refusal_aborts (respond : list event -> call -> result PyVal)
    (kwargs : Kwargs) (h d : list event) (r : result (dict Element Channel)) :
  PoolAcquisitionBase_start_action respond kwargs h = (d, r) ->
  forall pre c axis v ans post,
    d = pre ++ (PreStartOne c axis v, Return ans) :: post ->
    truthy ans = false ->
    post = [] /\ r = Raise (returned_False c "PreStartOne" axis "returns").
Proof.
  revert h d r.
  change (stops_at_refusal (PoolAcquisitionBase_start_action respond kwargs)).
  unfold PoolAcquisitionBase_start_action.
  apply stops_abind;
    [apply stops_without_PreStartOne, act_all_alift|intros p].
  apply stops_abind; [apply stops_sequence_base|intros _].
  apply stops_without_PreStartOne, act_all_aret.
Qed.

Lemma prestart_refusal_aborts_witness :
  snd (PoolAcquisitionBase_start_action refusing_axis_2 sample_kwargs [])
  = Raise (returned_False ctrl_a "PreStartOne" 2 "returns").
Proof.
  refine (proj2 (@prestart_refusal_aborts refusing_axis_2 sample_kwargs [] _ _
                   (surjective_pairing _)
                   (firstn 10 (fst (PoolAcquisitionBase_start_action
                                      refusing_axis_2 sample_kwargs [])))
                   ctrl_a 2 (PyFloat 1.0%float) (PyBool false) [] _ _)).
  - vm_compute. reflexivity.
  - reflexivity.
Defined.

(** ** Calls in rank order *)

Lemma StronglySorted_app {A} (R : A -> A -> Prop) (l1 l2 : list A) :
  StronglySorted R l1 -> StronglySorted R l2 ->
  (forall x y, In x l1 -> In y l2 -> R x y) ->
  StronglySorted R (l1 ++ l2).
Proof.
  induction l1 as [|a l1 IH]; cbn; intros H1 H2 H12; [exact H2|].
  inversion H1 as [|? ? Hs Hf]; subst. constructor.
  - apply IH; auto.
  - apply Forall_app. split; [exact Hf|].
    apply Forall_forall. intros y Hy. apply H12; auto.
Qed.

Lemma StronglySorted_nth {A} (R : A -> A -> Prop) (l : list A) :
  StronglySorted R l ->
  forall i j x y, (i < j)%nat ->
    nth_error l i = Some x -> nth_error l j = Some y -> R x y.
Proof.
  induction 1 as [|a l Hs IH Hf]; intros i j x y Hij Hi Hj.
  - destruct i; discriminate.
  - destruct j as [|j]; [lia|]. cbn in Hj. destruct i as [|i]; cbn in Hi.
    + inversion Hi; subst. rewrite Forall_forall in Hf.
      apply Hf. eapply nth_error_In; eauto.
    + apply (IH i j); auto. lia.
Qed.

Section Ranked.
Variable rank : call -> nat.

Lemma ranked_nil (lo hi : nat) : ranked rank lo hi [].
Proof. split; constructor. Qed.

Lemma ranked_app (lo mid hi : nat) (d1 d2 : list event) :
  (lo <= mid)%nat -> (mid <= hi)%nat ->
  ranked rank lo mid d1 -> ranked rank mid hi d2 ->
  ranked rank lo hi (d1 ++ d2).
Proof.
  intros Hlo Hhi [S1 F1] [S2 F2]. rewrite Forall_forall in F1, F2. split.
  - apply StronglySorted_app; auto.
    intros x y Hx Hy. unfold rank_le.
    specialize (F1 x Hx). specialize (F2 y Hy). lia.
  - apply Forall_app. split; apply Forall_forall; intros x Hx;
      [specialize (F1 x Hx)|specialize (F2 x Hx)]; lia.
Qed.

Lemma emits_weaken {A} (lo hi lo' hi' : nat) (m : Act A) :
  (lo' <= lo)%nat -> (hi <= hi')%nat ->
  emits rank lo hi m -> emits rank lo' hi' m.
Proof.
  intros Hlo Hhi Hm h. destruct (Hm h) as [S F]. split; [exact S|].
  eapply Forall_impl; [|exact F]. cbn. intros x Hx. lia.
Qed.

Lemma emits_aret {A} (lo hi : nat) (a : A) : emits rank lo hi (aret a).
Proof. intros h. apply ranked_nil. Qed.

Lemma emits_araise {A} (lo hi : nat) (e : exn) : emits rank lo hi (@araise A e).
Proof. intros h. apply ranked_nil. Qed.

Lemma emits_alift {A} (lo hi : nat) (r : result A) : emits rank lo hi (alift r).
Proof. intros h. apply ranked_nil. Qed.

Lemma emits_abind {A B} (lo mid hi : nat) (m : Act A) (k : A -> Act B) :
  (lo <= mid)%nat -> (mid <= hi)%nat ->
  emits rank lo mid m -> (forall a, emits rank mid hi (k a)) ->
  emits rank lo hi (abind m k).
Proof.
  intros Hlo Hhi Hm Hk h. unfold abind. specialize (Hm h).
  destruct (m h) as [d1 [e|a]]; cbn in *.
  - destruct Hm as [S F]. split; [exact S|].
    eapply Forall_impl; [|exact F]. cbn. intros x Hx. lia.
  - specialize (Hk a (h ++ d1)). destruct (k a (h ++ d1)) as [d2 r].
    cbn in *. eapply ranked_app; eauto.
Qed.

Lemma emits_try {A} (n : nat) (m handler : Act A) :
  emits rank n n m -> emits rank n n handler ->
  emits rank n n (try_except_TypeError m handler).
Proof.
  intros Hm Hh h. unfold try_except_TypeError. specialize (Hm h).
  destruct (m h) as [d1 [e|a]]; [|exact Hm].
  destruct e; try exact Hm.
  specialize (Hh (h ++ d1)). destruct (handler (h ++ d1)) as [d2 r].
  cbn in *. eapply ranked_app; eauto.
Qed.

Lemma emits_invoke respond (n : nat) (c : call) :
  rank c = n -> emits rank n n (invoke respond c).
Proof.
  intros Hc h. unfold invoke. cbn. split.
  - repeat constructor.
  - constructor; [cbn; lia|constructor].
Qed.

(** A loop whose turns emit within bands that follow one another. *)
Lemma emits_for_each {X} (lo hi : X -> nat) (body : X -> Act unit)
    (l : list X) :
  forall a b,
    (a <= b)%nat ->
    (forall x, In x l -> emits rank (lo x) (hi x) (body x)) ->
    (forall x, In x l -> (a <= lo x)%nat /\ (lo x <= hi x)%nat /\ (hi x <= b)%nat) ->
    ForallOrdPairs (fun x y => (hi x <= lo y)%nat) l ->
    emits rank a b (for_each l body).
Proof.
  induction l as [|x l IH]; intros a b Hab Hbody Hband Hord.
  - apply emits_aret.
  - rewrite for_each_cons.
    inversion Hord as [|? ? Hx Hl]; subst.
    destruct (Hband x (or_introl eq_refl)) as (H1 & H2 & H3).
    apply emits_abind with (mid := hi x); [lia|lia| |intros _].
    + eapply emits_weaken; [| |apply Hbody; left; reflexivity]; lia.
    + apply IH; [lia| | |exact Hl].
      * intros y Hy. apply Hbody. right. exact Hy.
      * intros y Hy. destruct (Hband y (or_intror Hy)) as (G1 & G2 & G3).
        rewrite Forall_forall in Hx. specialize (Hx y Hy). lia.
Qed.

Lemma emits_for_each_const {X} (n : nat) (body : X -> Act unit) (l : list X) :
  (forall x, In x l -> emits rank n n (body x)) ->
  emits rank n n (for_each l body).
Proof.
  intros Hbody.
  apply emits_for_each with (lo := fun _ => n) (hi := fun _ => n); auto.
  induction l as [|x l IH]; constructor.
  - apply Forall_forall. intros y _. lia.
  - apply IH. intros y Hy. apply Hbody. right. exact Hy.
Qed.
End Ranked.

Lemma emits_abind_const {A B} (rank : call -> nat) (n : nat) (m : Act A)
    (k : A -> Act B) :
  emits rank n n m -> (forall a, emits rank n n (k a)) ->
  emits rank n n (abind m k).
Proof. intros. apply emits_abind with (mid := n); auto. Qed.

Ltac emits_step :=
  first [ apply emits_aret | apply emits_araise | apply emits_alift
        | apply emits_invoke; reflexivity
        | apply emits_try
        | apply emits_for_each_const; intros ? _
        | apply emits_abind_const; [|intros ?]
        | match goal with
          | |- emits _ _ _ (if ?b then _ else _) => destruct b
          | |- emits _ _ _ (match ?x with _ => _ end) => destruct x
          end ].

(** ** The master controller comes last *)

Lemma dict_pop_keys_NoDup {V} (k : CtrlKey) (d : dict CtrlKey V) :
  NoDup (dict_keys d) -> NoDup (dict_keys (dict_pop ckey_eqb k d)).
Proof.
  induction d as [|[k' v] d IH]; cbn; intros Hnd; [constructor|].
  inversion Hnd as [|? ? Hnotin Hnd']; subst.
  destruct (negb (ckey_eqb k k')); cbn; [|auto].
  constructor; [|auto].
  intros Hin. apply Hnotin. unfold dict_keys, dict_pop in *.
  apply in_map_iff in Hin. destruct Hin as (kv & <- & Hkv).
  apply filter_In in Hkv. apply in_map. tauto.
Qed.

Lemma timerable_ctrls_NoDup (d : dict CtrlKey CtrlInfo) :
  forall l, timerable_ctrls d = Return l -> NoDup (dict_keys d) ->
            NoDup l /\ forall c, In c l -> In (KCtrl c) (dict_keys d).
Proof.
  induction d as [|[k info] d IH]; cbn; intros l H Hnd.
  - inversion H; subst. split; [constructor|intros c []].
  - destruct k as [|c0]; [discriminate H|].
    inversion Hnd as [|? ? Hnotin Hnd']; subst.
    destruct (timerable_ctrls d) as [e|l0]; [discriminate H|].
    destruct (IH l0 eq_refl Hnd') as [Hl0 Hin0].
    cbn in H. inversion H; subst; clear H.
    destruct (pc_timerable c0).
    + split.
      * constructor; [|exact Hl0]. intros Hin. apply Hnotin, Hin0, Hin.
      * intros c [->|Hc]; [left; reflexivity|right; auto].
    + split; [exact Hl0|]. intros c Hc. right. auto.
Qed.

Lemma list_remove_NoDup {K} (eqb : K -> K -> bool) (x : K) (l : list K) :
  (forall a b, eqb a b = true <-> a = b) ->
  forall l', list_remove eqb x l = Return l' -> NoDup l ->
             ~ In x l' /\ NoDup l' /\ forall y, In y l' -> In y l.
Proof.
  intros Heqb.
  induction l as [|y l IH]; cbn; intros l' H Hnd; [discriminate H|].
  inversion Hnd as [|? ? Hnotin Hnd']; subst.
  destruct (eqb x y) eqn:E.
  - apply Heqb in E. subst y. inversion H; subst. auto.
  - destruct (list_remove eqb x l) as [e|l0]; [discriminate H|].
    cbn in H. inversion H; subst; clear H.
    destruct (IH l0 eq_refl Hnd') as (H1 & H2 & H3).
    assert (x <> y) by (intros ->; rewrite (proj2 (Heqb y y) eq_refl) in E;
                        discriminate).
    split; [|split].
    + intros [Hy|Hin]; [congruence|tauto].
    + constructor; [|exact H2]. intros Hin. apply Hnotin, H3, Hin.
    + intros z [->|Hz]; [left; reflexivity|right; auto].
Qed.

(** The controller list of the plan: the master's controller once, last. *)
Lemma plan_of_ctrls (kwargs : Kwargs) (cfg : MGcfg) (p : Plan)
    (mc : PoolController) :
  kw_config kwargs = Some cfg ->
  NoDup (dict_keys (controllers cfg)) ->
  master_controller kwargs = Return mc ->
  plan_of kwargs = Return p ->
  exists others,
    pool_ctrls p = others ++ [mc] /\ ~ In mc others /\ NoDup others.
Proof.
  unfold master_controller, plan_of. intros -> Hnd. cbn [getitem rbind Return].
  destruct (select_master _ _) as [e|km]; cbn [rbind]; [discriminate|].
  destruct (cfg_master (fst km) cfg) as [e|master]; cbn [rbind]; [discriminate|].
  intros Hmc. inversion Hmc; subst; clear Hmc.
  destruct (timerable_ctrls _) as [e|timerable] eqn:Ht; cbn [rbind]; [discriminate|].
  destruct (list_remove _ _ _) as [e|others] eqn:Hr; cbn [rbind]; [discriminate|].
  destruct (build_channels _ _ _) as [e|chs]; cbn [rbind]; [discriminate|].
  intros H. inversion H; subst; clear H. cbn [pool_ctrls].
  exists others. split; [reflexivity|].
  apply timerable_ctrls_NoDup in Ht; [|apply dict_pop_keys_NoDup, Hnd].
  destruct Ht as [Hnd' _].
  pose proof (@list_remove_NoDup _ _ _ _ ctrl_eqb_eq _ Hr Hnd') as (G1 & G2 & _).
  auto.
Qed.

(** What else the plan keeps of the arguments. *)
Lemma plan_of_fields (kwargs : Kwargs) (cfg : MGcfg) (p : Plan) :
  kw_config kwargs = Some cfg ->
  plan_of kwargs = Return p ->
  exists km mc,
    select_master (kw_integ_time kwargs) (kw_monitor_count kwargs) = Return km
    /\ master_controller kwargs = Return mc
    /\ master_key p = fst km /\ master_value p = snd km
    /\ pool_ctrls_dict p = dict_pop ckey_eqb KTango (controllers cfg).
Proof.
  unfold master_controller, plan_of. intros ->. cbn [getitem rbind Return].
  destruct (select_master _ _) as [e|km]; cbn [rbind]; [discriminate|].
  destruct (cfg_master (fst km) cfg) as [e|master]; cbn [rbind]; [discriminate|].
  destruct (timerable_ctrls _) as [e|timerable]; cbn [rbind]; [discriminate|].
  destruct (list_remove _ _ _) as [e|others]; cbn [rbind]; [discriminate|].
  destruct (build_channels _ _ _) as [e|chs]; cbn [rbind]; [discriminate|].
  intros H. inversion H; subst; clear H. cbn.
  exists km, (el_controller master). auto.
Qed.

Lemma dict_get_pop_Tango {V} (c : PoolController) (d : dict CtrlKey V) :
  dict_get ckey_eqb (KCtrl c) (dict_pop ckey_eqb KTango d)
  = dict_get ckey_eqb (KCtrl c) d.
Proof.
  induction d as [|[k v] d IH]; cbn; [reflexivity|].
  destruct k as [|c']; cbn; [exact IH|].
  destruct (ctrl_eqb c c'); [reflexivity|exact IH].
Qed.

Lemma master_bit_ordered (mc : PoolController) (base : nat)
    (others : list PoolController) :
  ~ In mc others ->
  ForallOrdPairs
    (fun x y => (base + master_bit mc x <= base + master_bit mc y)%nat)
    (others ++ [mc]).
Proof.
  induction others as [|c others IH]; cbn; intros Hnotin.
  - constructor; constructor.
  - constructor; [|apply IH; tauto].
    assert (Hc : master_bit mc c = 0%nat).
    { unfold master_bit. destruct (ctrl_eqb c mc) eqn:E; [|reflexivity].
      apply ctrl_eqb_eq in E. subst. tauto. }
    apply Forall_forall. intros y _. rewrite Hc. lia.
Qed.

Section MasterLast.
Variable respond : list event -> call -> result PyVal.
Variable mc : PoolController.

Lemma master_bit_le_1 (c : PoolController) : (master_bit mc c <= 1)%nat.
Proof. unfold master_bit. destruct (ctrl_eqb c mc); lia. Qed.

(** A loop over the controllers whose turn for [c] emits at rank
    [base + master_bit mc c]. *)
Lemma emits_ctrl_loop (base : nat) (body : PoolController -> Act unit)
    (others : list PoolController) :
  ~ In mc others ->
  (forall c, emits (seq_rank mc) (base + master_bit mc c) (base + master_bit mc c)
               (body c)) ->
  emits (seq_rank mc) base (base + 1) (for_each (others ++ [mc]) body).
Proof.
  intros Hnotin Hbody.
  apply emits_for_each with (lo := fun c => (base + master_bit mc c)%nat)
                            (hi := fun c => (base + master_bit mc c)%nat).
  - lia.
  - intros c _. apply Hbody.
  - intros c _. pose proof (master_bit_le_1 c). lia.
  - apply master_bit_ordered. exact Hnotin.
Qed.

Lemma emits_load_ctrl_base (p : Plan) (c : PoolController) :
  emits (seq_rank mc) (2 + master_bit mc c) (2 + master_bit mc c)
    (load_ctrl_base respond p c).
Proof. unfold load_ctrl_base. repeat emits_step. Qed.

Lemma emits_load_ctrl_ct (p : Plan) (c : PoolController) :
  emits (seq_rank mc) (2 + master_bit mc c) (2 + master_bit mc c)
    (load_ctrl_ct respond p c).
Proof. unfold load_ctrl_ct. repeat emits_step. Qed.

Lemma emits_start_element (p : Plan) (c : PoolController) (e : Element) :
  emits (seq_rank mc) (6 + master_bit mc c) (6 + master_bit mc c)
    (start_element respond p c e).
Proof. unfold start_element. repeat emits_step. Qed.

Lemma emits_start_ctrl_master_last (p : Plan) (c : PoolController) :
  emits (seq_rank mc) (6 + master_bit mc c) (6 + master_bit mc c)
    (start_ctrl_master_last respond p c).
Proof.
  unfold start_ctrl_master_last. repeat emits_step.
Qed.

Lemma emits_start_ctrl_dict_order (p : Plan) (c : PoolController) :
  emits (seq_rank mc) (6 + master_bit mc c) (6 + master_bit mc c)
    (start_ctrl_dict_order respond p c).
Proof.
  unfold start_ctrl_dict_order. repeat emits_step.
Qed.

Lemma emits_set_states (p : Plan) :
  emits (seq_rank mc) 8 8 (set_states_moving respond p).
Proof. unfold set_states_moving. repeat emits_step. Qed.

Lemma emits_sequence_base (p : Plan) (others : list PoolController) :
  pool_ctrls p = others ++ [mc] -> ~ In mc others ->
  emits (seq_rank mc) 2 10 (sequence_base respond p).
Proof.
  intros Hp Hnotin. unfold sequence_base, call_each. rewrite Hp.
  apply emits_abind with (mid := 4%nat); [lia|lia| |intros _].
  { eapply emits_weaken; [| |apply (emits_ctrl_loop 2)]; auto; try lia.
    intros c. apply emits_load_ctrl_base. }
  apply emits_abind with (mid := 6%nat); [lia|lia| |intros _].
  { eapply emits_weaken; [| |apply (emits_ctrl_loop 4)]; auto; try lia.
    intros c. repeat emits_step. }
  apply emits_abind with (mid := 8%nat); [lia|lia| |intros _].
  { eapply emits_weaken; [| |apply (emits_ctrl_loop 6)]; auto; try lia.
    intros c. apply emits_start_ctrl_master_last. }
  apply emits_abind with (mid := 9%nat); [lia|lia| |intros _].
  { eapply emits_weaken; [| |apply emits_set_states]; lia. }
  apply (emits_ctrl_loop 9); auto. intros c. repeat emits_step.
Qed.

Lemma seq_rank_one_call (c : call) (k : OneKind) (x : PoolController) :
  one_call_kind c = Some k -> call_ctrl c = Some x ->
  seq_rank mc c
  = ((match k with KPreLoadOne | KLoadOne => 2 | _ => 6 end)
     + master_bit mc x)%nat.
Proof.
  destruct c; cbn; intros Hk Hx; inversion Hk; inversion Hx; subst; reflexivity.
Qed.
End MasterLast.

(** C4: in a [start_action] over a well-formed controllers dict, every
    [PreLoadOne] (and likewise [LoadOne], [PreStartOne], [StartOne]) call
    addressed to the controller of the master channel is made strictly
    after every call of the same kind addressed to another controller. *)
Theorem master_controller_calls_last
    (respond : list event -> call -> result PyVal) (kwargs : Kwargs)
    (cfg : MGcfg) (mc : PoolController) (h d : list event)
    (chs : dict Element Channel) :
  kw_config kwargs = Some cfg ->
  NoDup (dict_keys (controllers cfg)) ->
  master_controller kwargs = Return mc ->
  PoolAcquisitionBase_start_action respond kwargs h = (d, Return chs) ->
  forall i j ci cj k c,
    nth_error d i = Some ci -> nth_error d j = Some cj ->
    one_call_kind (fst ci) = Some k -> one_call_kind (fst cj) = Some k ->
    call_ctrl (fst ci) = Some mc ->
    call_ctrl (fst cj) = Some c -> c <> mc ->
    (j < i)%nat.
Proof.
  intros Hcfg Hnd Hmc Hrun i j ci cj k c Hi Hj Hki Hkj Hci Hcj Hne.
  unfold PoolAcquisitionBase_start_action in Hrun.
  apply abind_inv in Hrun.
  destruct Hrun as [(e & _ & Habs)|(d0 & p & d1 & Hprep & Hseq & ->)];
    [discriminate Habs|].
  unfold alift in Hprep. inversion Hprep; subst d0; clear Hprep.
  assert (Hplan : plan_of kwargs = Return p).
  { unfold prepare in H1.
    destruct (check_integ_or_monitor _ _) as [e|[]]; [discriminate H1|exact H1]. }
  destruct (plan_of_ctrls _ Hcfg Hnd Hmc Hplan) as (others & Hp & Hnotin & _).
  apply abind_inv in Hseq.
  destruct Hseq as [(e & _ & Habs)|(d2 & [] & d3 & Hseq & Hret & ->)];
    [discriminate Habs|].
  unfold aret in Hret. inversion Hret; subst d3; clear Hret.
  cbn [app] in Hi, Hj. rewrite app_nil_r in Hi, Hj.
  pose proof (@emits_sequence_base respond mc p others Hp Hnotin (h ++ []))
    as [Hsorted _].
  rewrite Hseq in Hsorted. cbn [fst] in Hsorted.
  pose proof (@seq_rank_one_call mc _ _ _ Hki Hci) as Ri.
  pose proof (@seq_rank_one_call mc _ _ _ Hkj Hcj) as Rj.
  assert (Bi : master_bit mc mc = 1%nat).
  { unfold master_bit. rewrite (proj2 (ctrl_eqb_eq mc mc) eq_refl). reflexivity. }
  assert (Bj : master_bit mc c = 0%nat).
  { unfold master_bit. destruct (ctrl_eqb c mc) eqn:E; [|reflexivity].
    apply ctrl_eqb_eq in E. congruence. }
  destruct (Nat.lt_trichotomy i j) as [Hlt|[Heq|Hgt]]; [|subst j|exact Hgt].
  - pose proof (@StronglySorted_nth _ _ _ Hsorted _ _ _ _ Hlt Hi Hj) as Hle.
    unfold rank_le in Hle. lia.
  - rewrite Hi in Hj. inversion Hj; subst. rewrite Hci in Hcj. congruence.
Qed.

Lemma sample_cfg_NoDup : NoDup (dict_keys (controllers sample_cfg)).
Proof.
  cbn. repeat constructor; cbn; intros H;
    repeat (destruct H as [H|H]; [discriminate H|]); exact H.
Defined.

Lemma master_controller_calls_last_witness :
  master_controller sample_kwargs = Return ctrl_b
  /\ option_map fst
       (nth_error (fst (PoolAcquisitionBase_start_action obliging sample_kwargs [])) 1)
     = Some (PreLoadOne ctrl_a 1 (PyFloat 1.0%float) (Some (PyInt 1)))
  /\ option_map fst
       (nth_error (fst (PoolAcquisitionBase_start_action obliging sample_kwargs [])) 5)
     = Some (PreLoadOne ctrl_b 1 (PyFloat 1.0%float) (Some (PyInt 1)))
  /\ (1 < 5)%nat.
Proof.
  split; [reflexivity|]. split; [vm_compute; reflexivity|].
  split; [vm_compute; reflexivity|].
  refine (@master_controller_calls_last obliging sample_kwargs sample_cfg ctrl_b
            [] (fst (PoolAcquisitionBase_start_action obliging sample_kwargs []))
            [(ch_a1, {| ch_element := ch_a1; ch_info := on |});
             (ch_a2, {| ch_element := ch_a2; ch_info := on |});
             (ch_b1, {| ch_element := ch_b1; ch_info := on |});
             (ch_b2, {| ch_element := ch_b2; ch_info := on |})]
            eq_refl sample_cfg_NoDup eq_refl _ 5%nat 1%nat
            (PreLoadOne ctrl_b 1 (PyFloat 1.0%float) (Some (PyInt 1)),
             Return (PyBool true))
            (PreLoadOne ctrl_a 1 (PyFloat 1.0%float) (Some (PyInt 1)),
             Return (PyBool true))
            KPreLoadOne ctrl_a _ _ eq_refl eq_refl eq_refl eq_refl _).
  - vm_compute. reflexivity.
  - vm_compute. reflexivity.
  - vm_compute. reflexivity.
  - discriminate.
Defined.

(** ** The master channel within its controller *)

(** C2, at a configuration the hardware-continuous action can be given:
    controller [ctrl_a] has its timer [ch_a1] (axis 1) and the enabled
    channel [ch_a2] (axis 2), and its channels dict lists the timer first.
    [PoolContHWAcquisition.start_action] runs to its end and has made
    [StartOne] on the timer (call 13) before [PreStartOne] on the other
    channel (call 14); [PoolAcquisitionBase.start_action] on the same
    arguments starts the timer after the other channel. *)
Theorem conthw_starts_master_channel_first :
  let conthw := PoolContHWAcquisition_start_action obliging sample_kwargs [] in
  let base := PoolAcquisitionBase_start_action obliging sample_kwargs [] in
  ctrl_master KeyTimer info_a = Return ch_a1
  /\ channel_enabled {| ch_element := ch_a2; ch_info := on |} = Return true
  /\ (exists chs, snd conthw = Return chs)
  /\ option_map fst (nth_error (fst conthw) 13)
     = Some (StartOne ctrl_a 1 (PyFloat 1.0%float))
  /\ option_map fst (nth_error (fst conthw) 14)
     = Some (PreStartOne ctrl_a 2 (PyFloat 1.0%float))
  /\ option_map fst (nth_error (fst base) 11)
     = Some (StartOne ctrl_a 2 (PyFloat 1.0%float))
  /\ option_map fst (nth_error (fst base) 12)
     = Some (PreStartOne ctrl_a 1 (PyFloat 1.0%float)).
Proof.
  cbv zeta. split; [reflexivity|]. split; [reflexivity|].
  split; [eexists; vm_compute; reflexivity|].
  repeat split; vm_compute; reflexivity.
Qed.

Lemma emits_abind_alift {A B} (rank : call -> nat) (lo hi : nat)
    (r : result A) (k : A -> Act B) :
  (forall a, r = Return a -> emits rank lo hi (k a)) ->
  emits rank lo hi (abind (alift r) k).
Proof.
  intros Hk h. destruct r as [e|a].
  - cbn. apply ranked_nil.
  - pose proof (abind_alift_Return a k h) as E. unfold Return in E.
    rewrite E. apply Hk. reflexivity.
Qed.

Lemma FOP_app {X} (R : X -> X -> Prop) (l1 l2 : list X) :
  ForallOrdPairs R l1 -> ForallOrdPairs R l2 ->
  (forall x y, In x l1 -> In y l2 -> R x y) ->
  ForallOrdPairs R (l1 ++ l2).
Proof.
  induction l1 as [|a l1 IH]; cbn; intros H1 H2 H12; [exact H2|].
  inversion H1 as [|? ? Hf Hs]; subst. constructor.
  - apply Forall_app. split; [exact Hf|].
    apply Forall_forall. intros y Hy. apply H12; auto.
  - apply IH; auto.
Qed.

Lemma last_bit_ordered {X} (bit : X -> nat) (base : nat) (l : list X) (x : X) :
  Forall (fun y => bit y = 0%nat) l ->
  ForallOrdPairs (fun u v => (base + bit u <= base + bit v)%nat) (l ++ [x]).
Proof.
  intros Hl. apply FOP_app.
  - apply ForallPairs_ForallOrdPairs. intros u v Hu Hv.
    rewrite Forall_forall in Hl. rewrite (Hl u Hu), (Hl v Hv). lia.
  - repeat constructor.
  - intros u v Hu _. rewrite Forall_forall in Hl. rewrite (Hl u Hu). lia.
Qed.

Lemma ctrl_eqb_refl (c : PoolController) : ctrl_eqb c c = true.
Proof. apply ctrl_eqb_eq. reflexivity. Qed.

Lemma ctrl_eqb_neq (x y : PoolController) : x <> y -> ctrl_eqb x y = false.
Proof.
  intros Hne. destruct (ctrl_eqb x y) eqn:E; [|reflexivity].
  apply ctrl_eqb_eq in E. congruence.
Qed.

Lemma existsb_ctrl_In (y : PoolController) (l : list PoolController) :
  existsb (ctrl_eqb y) l = true <-> In y l.
Proof.
  rewrite existsb_exists. split.
  - intros (x & Hx & E). apply ctrl_eqb_eq in E. congruence.
  - intros Hy. exists y. split; [exact Hy|apply ctrl_eqb_refl].
Qed.

Section ChannelLast.
Variable respond : list event -> call -> result PyVal.
Variable before : list PoolController.
Variable c : PoolController.
Variable a : Z.

Let rk := channel_rank before c a.

Ltac emits_steps tac :=
  repeat first [ apply emits_aret | apply emits_araise | apply emits_alift
               | apply emits_invoke; tac
               | apply emits_try
               | apply emits_for_each_const; intros ? _
               | apply emits_abind_const; [|intros ?]
               | match goal with
                 | |- emits _ _ _ (if ?b then _ else _) => destruct b
                 | |- emits _ _ _ (match ?x with _ => _ end) => destruct x
                 end ].

Lemma rk_load_base (p : Plan) (y : PoolController) :
  emits rk 0 0 (load_ctrl_base respond p y).
Proof. unfold load_ctrl_base. emits_steps reflexivity. Qed.

Lemma rk_load_ct (p : Plan) (y : PoolController) :
  emits rk 0 0 (load_ctrl_ct respond p y).
Proof. unfold load_ctrl_ct. emits_steps reflexivity. Qed.

Lemma rk_start_element_other (p : Plan) (y : PoolController) (e : Element) :
  y <> c ->
  emits rk (band_lo before c y) (band_hi before c y)
    (start_element respond p y e).
Proof.
  intros Hne. unfold band_lo, band_hi. pose proof (ctrl_eqb_neq Hne) as E.
  rewrite E. unfold start_element.
  emits_steps ltac:(unfold rk; cbn; rewrite E; reflexivity).
Qed.

Lemma rk_start_element_c (p : Plan) (e : Element) :
  emits rk (2 + axis_bit a e) (2 + axis_bit a e) (start_element respond p c e).
Proof.
  unfold start_element.
  emits_steps ltac:(unfold rk, axis_bit; cbn; rewrite ctrl_eqb_refl;
                    destruct (el_axis e =? a); reflexivity).
Qed.

Lemma rk_start_ctrl_other (p : Plan) (y : PoolController) :
  y <> c ->
  emits rk (band_lo before c y) (band_hi before c y)
    (start_ctrl_master_last respond p y).
Proof.
  intros Hne. pose proof (fun e => @rk_start_element_other p y e Hne) as Hel.
  unfold band_lo, band_hi in *. rewrite (ctrl_eqb_neq Hne) in *.
  unfold start_ctrl_master_last.
  repeat (apply emits_abind_alift; intros ? _).
  apply emits_for_each_const. intros e _. apply Hel.
Qed.

Lemma rk_start_ctrl_c (p : Plan) :
  master_alone_on_axis c a p ->
  emits rk 2 3 (start_ctrl_master_last respond p c).
Proof.
  intros Halone. unfold start_ctrl_master_last.
  apply emits_abind_alift. intros data Hdata.
  apply emits_abind_alift. intros tm Htm.
  apply emits_abind_alift. intros others Hrem.
  destruct (Halone data tm Hdata Htm) as (Ha & Hnd & Huniq).
  pose proof (@list_remove_NoDup _ _ _ _ element_eqb_eq _ Hrem Hnd)
    as (Hnotin & _ & Hsub).
  apply emits_for_each with (lo := fun e => (2 + axis_bit a e)%nat)
                            (hi := fun e => (2 + axis_bit a e)%nat).
  - lia.
  - intros e _. apply rk_start_element_c.
  - intros e _. unfold axis_bit. destruct (el_axis e =? a); lia.
  - apply last_bit_ordered. apply Forall_forall. intros e He.
    unfold axis_bit. destruct (Z.eqb_spec (el_axis e) a) as [Hax|]; [|reflexivity].
    rewrite (Huniq e (Hsub e He) Hax) in He. tauto.
Qed.

Lemma band_ordered (after : list PoolController) :
  ~ In c before -> ~ In c after ->
  (forall y, In y after -> ~ In y before) ->
  ForallOrdPairs (fun x y => (band_hi before c x <= band_lo before c y)%nat)
    (before ++ c :: after).
Proof.
  intros Hcb Hca Hdisj.
  assert (Hb : forall x, In x before ->
                         band_lo before c x = 1%nat /\ band_hi before c x = 1%nat).
  { intros x Hx. unfold band_lo, band_hi.
    rewrite ctrl_eqb_neq by (intros ->; tauto).
    rewrite (proj2 (existsb_ctrl_In x before) Hx). auto. }
  assert (Hc : band_lo before c c = 2%nat /\ band_hi before c c = 3%nat).
  { unfold band_lo, band_hi. rewrite ctrl_eqb_refl. auto. }
  assert (Hafter : forall y, In y after ->
                         band_lo before c y = 4%nat /\ band_hi before c y = 4%nat).
  { intros y Hy. unfold band_lo, band_hi.
    rewrite ctrl_eqb_neq by (intros ->; tauto).
    destruct (existsb (ctrl_eqb y) before) eqn:E; [|auto].
    apply existsb_ctrl_In in E. destruct (Hdisj y Hy E). }
  apply FOP_app.
  - apply ForallPairs_ForallOrdPairs. intros x y Hx Hy.
    destruct (Hb x Hx), (Hb y Hy). lia.
  - constructor.
    + apply Forall_forall. intros y Hy. destruct Hc, (Hafter y Hy). lia.
    + apply ForallPairs_ForallOrdPairs. intros x y Hx Hy.
      destruct (Hafter x Hx), (Hafter y Hy). lia.
  - intros x y Hx [<-|Hy]; destruct (Hb x Hx).
    + destruct Hc. lia.
    + destruct (Hafter y Hy). lia.
Qed.

Lemma band_ordered_absent :
  ~ In c before ->
  ForallOrdPairs (fun x y => (band_hi before c x <= band_lo before c y)%nat)
    before.
Proof.
  intros Hcb. apply ForallPairs_ForallOrdPairs. intros x y Hx Hy.
  unfold band_lo, band_hi.
  rewrite !ctrl_eqb_neq by (intros ->; tauto).
  rewrite (proj2 (existsb_ctrl_In x before) Hx).
  rewrite (proj2 (existsb_ctrl_In y before) Hy). lia.
Qed.

Lemma band_bounds (y : PoolController) :
  (1 <= band_lo before c y)%nat
  /\ (band_lo before c y <= band_hi before c y)%nat
  /\ (band_hi before c y <= 4)%nat.
Proof.
  unfold band_lo, band_hi.
  destruct (ctrl_eqb y c); [lia|].
  destruct (existsb (ctrl_eqb y) before); lia.
Qed.

(** The per-channel start phase of the base and counter/timer actions over
    a controller list cut at [c]. *)
Lemma rk_start_phase (p : Plan) (rest : list PoolController) :
  master_alone_on_axis c a p ->
  ForallOrdPairs (fun x y => (band_hi before c x <= band_lo before c y)%nat)
    (before ++ rest) ->
  emits rk 1 4 (for_each (before ++ rest) (start_ctrl_master_last respond p)).
Proof.
  intros Halone Hord.
  apply emits_for_each with (lo := band_lo before c) (hi := band_hi before c).
  - lia.
  - intros y _. destruct (PoolController_eq_dec y c) as [->|Hne].
    + unfold band_lo, band_hi. rewrite ctrl_eqb_refl.
      apply rk_start_ctrl_c. exact Halone.
    + apply rk_start_ctrl_other. exact Hne.
  - intros y _. apply band_bounds.
  - exact Hord.
Qed.

Lemma rk_sequence_base (p : Plan) (rest : list PoolController) :
  pool_ctrls p = before ++ rest ->
  master_alone_on_axis c a p ->
  ForallOrdPairs (fun x y => (band_hi before c x <= band_lo before c y)%nat)
    (before ++ rest) ->
  emits rk 0 5 (sequence_base respond p).
Proof.
  intros Hp Halone Hord. unfold sequence_base, call_each, set_states_moving.
  rewrite Hp.
  apply emits_abind with (mid := 0%nat); [lia|lia| |intros _].
  { apply emits_for_each_const. intros y _. apply rk_load_base. }
  apply emits_abind with (mid := 0%nat); [lia|lia| |intros _].
  { emits_steps reflexivity. }
  apply emits_abind with (mid := 4%nat); [lia|lia| |intros _].
  { eapply emits_weaken; [| |apply rk_start_phase]; auto; lia. }
  apply emits_weaken with (lo := 5%nat) (hi := 5%nat); [lia|lia|].
  emits_steps reflexivity.
Qed.

Lemma rk_start_call (x : call) (ax : Z) :
  start_call_on c x = Some ax ->
  rk x = if ax =? a then 3%nat else 2%nat.
Proof.
  unfold rk. destruct x; cbn; try discriminate;
    destruct (ctrl_eqb c0 c); try discriminate;
    intros H; inversion H; subst; reflexivity.
Qed.
End ChannelLast.

Lemma NoDup_split_at {X} (l1 l2 : list X) (c : X) :
  NoDup (l1 ++ c :: l2) ->
  ~ In c l1 /\ ~ In c l2 /\ forall y, In y l2 -> ~ In y l1.
Proof.
  intros Hnd. pose proof (NoDup_remove _ _ _ Hnd) as [Hnd' Hc].
  split; [|split].
  - intros H. apply Hc, in_or_app. auto.
  - intros H. apply Hc, in_or_app. auto.
  - intros y Hy2 Hy1. clear Hc Hnd.
    induction l1 as [|x l1 IH]; [destruct Hy1|].
    cbn in Hnd'. inversion Hnd' as [|? ? Hx Hrest]; subst.
    destruct Hy1 as [->|Hy1]; [|auto].
    apply Hx, in_or_app. auto.
Qed.

(** What [start_action] has called: nothing when the preparation raised,
    the calls of the sequence otherwise. *)
Lemma base_start_action_trace (respond : list event -> call -> result PyVal)
    (kwargs : Kwargs) (h d : list event) (r : result (dict Element Channel)) :
  PoolAcquisitionBase_start_action respond kwargs h = (d, r) ->
  d = [] \/
  exists p, plan_of kwargs = Return p /\ d = fst (sequence_base respond p h).
Proof.
  unfold PoolAcquisitionBase_start_action, prepare.
  destruct (check_integ_or_monitor _ _) as [e|[]]; cbn [rbind].
  - intros H. inversion H. auto.
  - destruct (plan_of kwargs) as [e|p].
    + intros H. inversion H. auto.
    + pose proof (abind_alift_Return p
        (fun p => abind (sequence_base respond p)
                    (fun _ => aret (plan_channels p))) h) as E.
      unfold Return in E. rewrite E. clear E. intros H. right. exists p.
      split; [reflexivity|]. apply abind_inv in H.
      destruct H as [(e & -> & _)|(d1 & [] & d2 & -> & Hret & ->)];
        [reflexivity|].
      unfold aret in Hret. inversion Hret. cbn. apply app_nil_r.
Qed.

(** X12: in [PoolAcquisitionBase.start_action], within a controller [c]
    whose timer or monitor [tm] is alone on its axis, the [PreStartOne] and
    [StartOne] calls on the axis of [tm] come after those on every other
    axis of [c], however the run ends. *)
Lemma base_master_channel_last
    (respond : list event -> call -> result PyVal) (kwargs : Kwargs)
    (cfg : MGcfg) (c : PoolController) (data : CtrlInfo)
    (km : MasterKey * PyVal) (tm : Element) (h d : list event)
    (r : result (dict Element Channel)) :
  kw_config kwargs = Some cfg ->
  NoDup (dict_keys (controllers cfg)) ->
  select_master (kw_integ_time kwargs) (kw_monitor_count kwargs) = Return km ->
  dict_get ckey_eqb (KCtrl c) (controllers cfg) = Some data ->
  ctrl_master (fst km) data = Return tm ->
  NoDup (dict_keys (channels data)) ->
  (forall e, In e (dict_keys (channels data)) ->
             el_axis e = el_axis tm -> e = tm) ->
  PoolAcquisitionBase_start_action respond kwargs h = (d, r) ->
  forall i j ei ej ax,
    nth_error d i = Some ei -> nth_error d j = Some ej ->
    start_call_on c (fst ei) = Some (el_axis tm) ->
    start_call_on c (fst ej) = Some ax -> ax <> el_axis tm ->
    (j < i)%nat.
Proof.
  intros Hcfg Hnd Hkm Hdata Htm Hchs Huniq Hrun i j ei ej ax Hi Hj Hci Hcj Hax.
  apply base_start_action_trace in Hrun.
  destruct Hrun as [->|(p & Hplan & ->)]; [destruct i; discriminate Hi|].
  destruct (plan_of_fields _ Hcfg Hplan) as (km' & mc & Hkm' & Hmc & Hkey & _ & Hdict).
  rewrite Hkm in Hkm'. inversion Hkm'; subst km'. clear Hkm'.
  destruct (plan_of_ctrls _ Hcfg Hnd Hmc Hplan) as (others & Hp & Hnotin & Hnd').
  assert (Hndp : NoDup (pool_ctrls p)).
  { rewrite Hp. apply NoDup_app; [exact Hnd'|repeat constructor; tauto|].
    intros x Hx [<-|[]]. tauto. }
  assert (Halone : master_alone_on_axis c (el_axis tm) p).
  { intros data' tm'. unfold ctrl_data. rewrite Hdict, dict_get_pop_Tango, Hdata.
    cbn. intros Hd'. inversion Hd'; subst data'. rewrite Hkey, Htm.
    intros Ht'. inversion Ht'; subst tm'. auto. }
  assert (Hsorted : exists before,
             StronglySorted (rank_le (channel_rank before c (el_axis tm)))
               (fst (sequence_base respond p h))).
  { destruct (in_dec PoolController_eq_dec c (pool_ctrls p)) as [Hin|Hout].
    - apply in_split in Hin. destruct Hin as (l1 & l2 & Hl).
      rewrite Hl in Hndp. destruct (NoDup_split_at _ _ _ Hndp) as (H1 & H2 & H3).
      exists l1.
      apply (@rk_sequence_base respond l1 c (el_axis tm) p (c :: l2) Hl Halone).
      apply band_ordered; assumption.
    - exists (pool_ctrls p).
      apply (@rk_sequence_base respond (pool_ctrls p) c (el_axis tm) p []);
        [symmetry; apply app_nil_r|exact Halone|].
      rewrite app_nil_r. apply band_ordered_absent. exact Hout. }
  destruct Hsorted as [before Hsorted].
  pose proof (@rk_start_call before c (el_axis tm) _ _ Hci) as Ri.
  pose proof (@rk_start_call before c (el_axis tm) _ _ Hcj) as Rj.
  rewrite Z.eqb_refl in Ri.
  rewrite (proj2 (Z.eqb_neq ax (el_axis tm)) Hax) in Rj.
  destruct (Nat.lt_trichotomy i j) as [Hlt|[Heq|Hgt]]; [|subst j|exact Hgt].
  - pose proof (@StronglySorted_nth _ _ _ Hsorted _ _ _ _ Hlt Hi Hj) as Hle.
    unfold rank_le in Hle. lia.
  - rewrite Hi in Hj. inversion Hj; subst. rewrite Hci in Hcj. congruence.
Qed.

(** ** The trigger id on its way to the published index *)

(** Whatever [event_received] hands to the worker pool carries the id of
    the event under ['idx'] and ['synch'] set. *)
Lemma event_received_tags_idx (self : PoolAcquisition)
    (event_type : TGEventType) (event_id : Z) (j : Job) (kwargs : Kwargs) :
  In (ThreadPoolAdd j kwargs) (snd (event_received self event_type event_id)) ->
  kw_idx kwargs = Some event_id /\ kw_synch kwargs = Some true.
Proof.
  destruct self as [swc zc sb zb].
  unfold event_received, dispatch_zerod, is_cont_ct_acq_busy,
    is_zerod_acq_busy, set_sw_config, set_0d_config, set_sw_acq_busy,
    set_0d_acq_busy.
  destruct event_type, swc as [ks|], zc as [kz|], sb, zb;
    cbn [sw_acq_config zerod_config sw_acq_busy zerod_acq_busy];
    case_configs; cbn; intros H;
    repeat (destruct H as [H|H]; [try discriminate H|]); try contradiction;
    inversion H; subst; cbn; auto.
Qed.

(** [PoolAcquisitionSoftware.start_action] leaves [self.index] at
    [kwargs.get("idx")]. *)
Lemma software_start_action_index
    (respond : list event -> call -> result PyVal) (kwargs : Kwargs)
    (h d : list event) (chs : dict Element Channel) (index : PyVal) :
  PoolAcquisitionSoftware_start_action respond kwargs h
  = (d, Return (chs, index)) ->
  index = match kw_idx kwargs with Some i => PyInt i | None => PyNone end.
Proof.
  unfold PoolAcquisitionSoftware_start_action. intros H.
  apply abind_inv in H.
  destruct H as [(e & _ & Habs)|(d1 & chs' & d2 & _ & Hret & _)];
    [discriminate Habs|].
  unfold aret in Hret. inversion Hret. reflexivity.
Qed.

(** ** The counter/timer and hardware-continuous actions

    The two older actions share the preparation and the controller order of
    the base action; what was shown for it about a refused [PreStartOne] and
    about the master's controller holds for them too. *)

Section OtherActions.
Variable respond : list event -> call -> result PyVal.

Lemma no_PreStartOne_load_ct (p : Plan) (c : PoolController) :
  act_all not_PreStartOne (load_ctrl_ct respond p c).
Proof.
  unfold load_ctrl_ct. repeat act_all_step; intros ? ? ? ? Hcall; discriminate Hcall.
Qed.

Lemma stops_start_ctrl_dict_order (p : Plan) (c : PoolController) :
  stops_at_refusal (start_ctrl_dict_order respond p c).
Proof.
  unfold start_ctrl_dict_order.
  apply stops_abind;
    [apply stops_without_PreStartOne, act_all_alift|intros data].
  apply stops_for_each. intros x. apply stops_start_element.
Qed.

Lemma stops_sequence_ct (p : Plan) : stops_at_refusal (sequence_ct respond p).
Proof.
  unfold sequence_ct.
  apply stops_abind; [|intros _].
  { apply stops_without_PreStartOne, act_all_for_each.
    intros c _. apply no_PreStartOne_load_ct. }
  apply stops_abind; [|intros _].
  { apply stops_without_PreStartOne, no_PreStartOne_call_each. discriminate. }
  apply stops_abind; [|intros _].
  { apply stops_for_each. intros c. apply stops_start_ctrl_master_last. }
  apply stops_abind; [|intros _].
  { apply stops_without_PreStartOne, no_PreStartOne_set_states. }
  apply stops_without_PreStartOne, no_PreStartOne_call_each. discriminate.
Qed.

Lemma stops_sequence_conthw (kwargs : Kwargs) (p : Plan) :
  stops_at_refusal (sequence_conthw respond kwargs p).
Proof.
  unfold sequence_conthw.
  apply stops_abind;
    [apply stops_without_PreStartOne, act_all_alift|intros reps].
  apply stops_abind; [|intros _].
  { apply stops_without_PreStartOne, no_PreStartOne_call_each. discriminate. }
  apply stops_abind; [|intros _].
  { apply stops_without_PreStartOne, act_all_for_each.
    intros c _. apply no_PreStartOne_load_ct. }
  apply stops_abind; [|intros _].
  { apply stops_without_PreStartOne, no_PreStartOne_call_each. discriminate. }
  apply stops_abind; [|intros _].
  { apply stops_for_each. intros c. apply stops_start_ctrl_dict_order. }
  apply stops_abind; [|intros _].
  { apply stops_without_PreStartOne, no_PreStartOne_set_states. }
  apply stops_without_PreStartOne, no_PreStartOne_call_each. discriminate.
Qed.

(** X14: a [PreStartOne] answered by a falsy value is the last call of
    [PoolCTAcquisition.start_action] and of
    [PoolContHWAcquisition.start_action], which raise the
    "PreStartOne(axis) returns False" exception of that controller. *)
Lemma prestart_refusal_aborts_ct (kwargs : Kwargs) :
  stops_at_refusal (PoolCTAcquisition_start_action respond kwargs)
  /\ stops_at_refusal (PoolContHWAcquisition_start_action respond kwargs).
Proof.
  split.
  - unfold PoolCTAcquisition_start_action.
    apply stops_abind;
      [apply stops_without_PreStartOne, act_all_alift|intros p].
    apply stops_abind; [apply stops_sequence_ct|intros _].
    apply stops_without_PreStartOne, act_all_aret.
  - unfold PoolContHWAcquisition_start_action.
    apply stops_abind;
      [apply stops_without_PreStartOne, act_all_alift|intros p].
    apply stops_abind; [apply stops_sequence_conthw|intros _].
    apply stops_without_PreStartOne, act_all_aret.
Qed.

Lemma emits_sequence_ct (mc : PoolController) (p : Plan)
    (others : list PoolController) :
  pool_ctrls p = others ++ [mc] -> ~ In mc others ->
  emits (seq_rank mc) 0 10 (sequence_ct respond p).
Proof.
  intros Hp Hnotin. unfold sequence_ct, call_each. rewrite Hp.
  apply emits_abind with (mid := 4%nat); [lia|lia| |intros _].
  { eapply emits_weaken; [| |apply (emits_ctrl_loop 2)]; auto; try lia.
    intros c. apply emits_load_ctrl_ct. }
  apply emits_abind with (mid := 6%nat); [lia|lia| |intros _].
  { eapply emits_weaken; [| |apply (emits_ctrl_loop 4)]; auto; try lia.
    intros c. repeat emits_step. }
  apply emits_abind with (mid := 8%nat); [lia|lia| |intros _].
  { eapply emits_weaken; [| |apply (emits_ctrl_loop 6)]; auto; try lia.
    intros c. apply emits_start_ctrl_master_last. }
  apply emits_abind with (mid := 9%nat); [lia|lia| |intros _].
  { eapply emits_weaken; [| |apply emits_set_states]; lia. }
  apply (emits_ctrl_loop 9); auto. intros c. repeat emits_step.
Qed.

Lemma emits_sequence_conthw (mc : PoolController) (kwargs : Kwargs) (p : Plan)
    (others : list PoolController) :
  pool_ctrls p = others ++ [mc] -> ~ In mc others ->
  emits (seq_rank mc) 0 10 (sequence_conthw respond kwargs p).
Proof.
  intros Hp Hnotin. unfold sequence_conthw, call_each. rewrite Hp.
  apply emits_abind_alift. intros reps _.
  apply emits_abind with (mid := 2%nat); [lia|lia| |intros _].
  { eapply emits_weaken; [| |apply (emits_ctrl_loop 0)]; auto; try lia.
    intros c. repeat emits_step. }
  apply emits_abind with (mid := 4%nat); [lia|lia| |intros _].
  { eapply emits_weaken; [| |apply (emits_ctrl_loop 2)]; auto; try lia.
    intros c. apply emits_load_ctrl_ct. }
  apply emits_abind with (mid := 6%nat); [lia|lia| |intros _].
  { eapply emits_weaken; [| |apply (emits_ctrl_loop 4)]; auto; try lia.
    intros c. repeat emits_step. }
  apply emits_abind with (mid := 8%nat); [lia|lia| |intros _].
  { eapply emits_weaken; [| |apply (emits_ctrl_loop 6)]; auto; try lia.
    intros c. apply emits_start_ctrl_dict_order. }
  apply emits_abind with (mid := 9%nat); [lia|lia| |intros _].
  { eapply emits_weaken; [| |apply emits_set_states]; lia. }
  apply (emits_ctrl_loop 9); auto. intros c. repeat emits_step.
Qed.
End OtherActions.

(** In a call log sorted by [seq_rank], the per-channel calls addressed to
    the master's controller come after those of the same kind addressed to
    any other controller. *)
Lemma sorted_master_calls_last (mc : PoolController) (d : list event) :
  StronglySorted (rank_le (seq_rank mc)) d ->
  forall i j ci cj k c,
    nth_error d i = Some ci -> nth_error d j = Some cj ->
    one_call_kind (fst ci) = Some k -> one_call_kind (fst cj) = Some k ->
    call_ctrl (fst ci) = Some mc ->
    call_ctrl (fst cj) = Some c -> c <> mc ->
    (j < i)%nat.
Proof.
  intros Hsorted i j ci cj k c Hi Hj Hki Hkj Hci Hcj Hne.
  pose proof (@seq_rank_one_call mc _ _ _ Hki Hci) as Ri.
  pose proof (@seq_rank_one_call mc _ _ _ Hkj Hcj) as Rj.
  assert (Bi : master_bit mc mc = 1%nat).
  { unfold master_bit. rewrite ctrl_eqb_refl. reflexivity. }
  assert (Bj : master_bit mc c = 0%nat).
  { unfold master_bit. rewrite (ctrl_eqb_neq Hne). reflexivity. }
  destruct (Nat.lt_trichotomy i j) as [Hlt|[Heq|Hgt]]; [|subst j|exact Hgt].
  - pose proof (@StronglySorted_nth _ _ _ Hsorted _ _ _ _ Hlt Hi Hj) as Hle.
    unfold rank_le in Hle. lia.
  - rewrite Hi in Hj. inversion Hj; subst. rewrite Hci in Hcj. congruence.
Qed.

(** X13: [PoolContHWAcquisition.start_action] keeps the controller order of
    the base action, however the run ends: a [PreLoadOne], [LoadOne],
    [PreStartOne] or [StartOne] addressed to the controller of the master
    channel comes after every call of the same kind addressed to another
    controller. *)
Lemma conthw_master_controller_calls_last
    (respond : list event -> call -> result PyVal) (kwargs : Kwargs)
    (cfg : MGcfg) (mc : PoolController) (h d : list event)
    (r : result (dict Element Channel)) :
  kw_config kwargs = Some cfg ->
  NoDup (dict_keys (controllers cfg)) ->
  master_controller kwargs = Return mc ->
  PoolContHWAcquisition_start_action respond kwargs h = (d, r) ->
  forall i j ci cj k c,
    nth_error d i = Some ci -> nth_error d j = Some cj ->
    one_call_kind (fst ci) = Some k -> one_call_kind (fst cj) = Some k ->
    call_ctrl (fst ci) = Some mc ->
    call_ctrl (fst cj) = Some c -> c <> mc ->
    (j < i)%nat.
Proof.
  intros Hcfg Hnd Hmc Hrun. apply sorted_master_calls_last.
  unfold PoolContHWAcquisition_start_action, prepare in Hrun.
  destruct (check_integ_or_monitor _ _) as [e|[]]; cbn [rbind] in Hrun.
  { inversion Hrun. constructor. }
  destruct (plan_of kwargs) as [e|p] eqn:Hplan.
  { inversion Hrun. constructor. }
  pose proof (abind_alift_Return p
    (fun p => abind (sequence_conthw respond kwargs p)
                (fun _ => aret (plan_channels p))) h) as E.
  unfold Return in E. rewrite E in Hrun. clear E.
  destruct (plan_of_ctrls _ Hcfg Hnd Hmc Hplan) as (others & Hp & Hnotin & _).
  pose proof (@emits_sequence_conthw respond mc kwargs p others Hp Hnotin h)
    as [Hsorted _].
  apply abind_inv in Hrun.
  destruct Hrun as [(e & Hseq & _)|(d1 & [] & d2 & Hseq & Hret & ->)];
    rewrite Hseq in Hsorted; cbn [fst] in Hsorted; [exact Hsorted|].
  unfold aret in Hret. inversion Hret. rewrite app_nil_r. exact Hsorted.
Qed.

(** * Further properties of the module *)

(** ** [extract_integ_time], one group and otherwise *)

Lemma extract_integ_time_single_witness :
  extract_integ_time [group_of 2.0%float None] = Return (PyFloat 2.0%float).
Proof. apply (@extract_integ_time_single (group_of 2.0%float None)). reflexivity. Defined.

Lemma extract_integ_time_not_single_witness :
  exists e,
    extract_integ_time
      [group_of 1.0%float (Some 1); group_of 2.0%float (Some 1);
       group_of 3.0%float (Some 1)] = Raise e.
Proof. apply extract_integ_time_not_single. cbn. lia. Defined.

(** ** [split_MGConfigurations]: keys it cannot read, and the masters it picks *)

Lemma split_loop_raises (is_software_tg : Element -> bool)
    (items : dict CtrlKey CtrlInfo) :
  (exists item, In item items /\ bucket is_software_tg item = None) ->
  forall o, exists e, split_loop is_software_tg items o = Raise e.
Proof.
  induction items as [|[k info] rest IH]; intros (item & Hin & Hb) o.
  - destruct Hin.
  - cbn [split_loop].
    destruct (split_one is_software_tg k info o) as [e|o1] eqn:H1;
      [cbn; eauto|]. cbn [rbind].
    destruct Hin as [<-|Hin]; [|apply IH; eauto].
    exfalso. unfold split_one, bucket in *. cbn [fst snd] in Hb.
    destruct (first_ctrl_type k) as [e|t]; [discriminate H1|].
    destruct (ElementType_eq_dec t ZeroDExpChannel); [discriminate Hb|].
    destruct (trigger_element info); [destruct (is_software_tg _)|];
      discriminate Hb.
Qed.

(** X3: a configuration whose controllers dict has the ['__tango__'] key
    (which [start_action] pops) cannot be split: [split_MGConfigurations]
    raises, whatever else the dict holds. *)
Theorem split_tango_key_raises (is_software_tg : Element -> bool)
    (cfg : MGcfg) :
  In KTango (dict_keys (controllers cfg)) ->
  exists e, split_MGConfigurations is_software_tg cfg = Raise e.
Proof.
  intros Hin. unfold split_MGConfigurations.
  destruct (@split_loop_raises is_software_tg (controllers cfg)) with
    (o := {| ctrls_sw_out := []; ctrls_0d_out := []; ctrls_hw_out := [] |})
    as [e He].
  - apply in_map_iff in Hin. destruct Hin as ([k info] & Hk & Hin).
    cbn in Hk. subst k. exists (KTango, info). split; [exact Hin|reflexivity].
  - rewrite He. cbn. eauto.
Qed.

Lemma split_tango_key_raises_witness :
  exists e,
    split_MGConfigurations (fun _ => false)
      {| controllers := [(KCtrl ctrl_a, info_a); (KTango, info_z)];
         mg_timer := Some ch_a1; mg_monitor := Some ch_a1 |} = Raise e.
Proof.
  apply split_tango_key_raises. cbn. right. left. reflexivity.
Defined.

Lemma with_first_master_member (ctrls : dict CtrlKey CtrlInfo) (cfg : MGcfg) :
  with_first_master ctrls = Return cfg ->
  (ctrls = [] -> mg_timer cfg = None /\ mg_monitor cfg = None)
  /\ (ctrls <> [] ->
      exists ctrl info t m,
        In (ctrl, info) ctrls /\ timer info = Some t /\ monitor info = Some m
        /\ mg_timer cfg = Some t /\ mg_monitor cfg = Some m).
Proof.
  unfold with_first_master. destruct ctrls as [|[k first] rest]; cbn.
  - intros H. inversion H; subst. cbn. split; [auto|congruence].
  - destruct (timer first) as [t|] eqn:Ht; [|discriminate]. cbn.
    destruct (monitor first) as [m|] eqn:Hm; [|discriminate]. cbn.
    intros H. inversion H; subst. cbn. split; [discriminate|].
    intros _. exists k, first, t, m. auto.
Qed.

(** X4: the timer and monitor of the hardware and of the software subset
    are both taken from one controller entry of that subset; an empty subset
    gets neither key, and the ZeroD subset never gets them. *)
Theorem split_masters_from_one_member (is_software_tg : Element -> bool)
    (cfg hw sw zd : MGcfg) :
  split_MGConfigurations is_software_tg cfg = Return (hw, sw, zd) ->
  (forall out, out = hw \/ out = sw ->
     (controllers out = [] -> mg_timer out = None /\ mg_monitor out = None)
     /\ (controllers out <> [] ->
         exists ctrl info t m,
           In (ctrl, info) (controllers out)
           /\ timer info = Some t /\ monitor info = Some m
           /\ mg_timer out = Some t /\ mg_monitor out = Some m))
  /\ mg_timer zd = None /\ mg_monitor zd = None.
Proof.
  unfold split_MGConfigurations.
  destruct (split_loop _ _ _) as [e|o]; [discriminate|]. cbn [rbind].
  destruct (with_first_master (ctrls_sw_out o)) as [e|sw'] eqn:Hsw; [discriminate|].
  cbn [rbind].
  destruct (with_first_master (ctrls_hw_out o)) as [e|hw'] eqn:Hhw; [discriminate|].
  cbn [rbind]. intros H. inversion H; subst; clear H. cbn. split; [|auto].
  intros out [->| ->].
  - pose proof (with_first_master_ctrls _ Hhw) as Hc. rewrite Hc.
    apply with_first_master_member. exact Hhw.
  - pose proof (with_first_master_ctrls _ Hsw) as Hc. rewrite Hc.
    apply with_first_master_member. exact Hsw.
Qed.

Lemma split_masters_from_one_member_witness :
  exists hw sw zd,
    split_MGConfigurations (fun _ => false) mixed_cfg = Return (hw, sw, zd)
    /\ mg_timer hw = Some ch_b1 /\ mg_timer sw = Some ch_a1
    /\ mg_timer zd = None.
Proof.
  eexists. eexists. eexists.
  assert (H : split_MGConfigurations (fun _ => false) mixed_cfg
              = Return (_, _, _)) by reflexivity.
  split; [exact H|].
  pose proof (split_masters_from_one_member _ _ H) as [_ [Hz _]].
  split; [reflexivity|]. split; [reflexivity|exact Hz].
Defined.

(** ** [start_action]: what the preparation lets through *)

(** Once ['__tango__'] is popped, [is_timerable] is only asked of
    controllers: the list of timerable controllers is always built, and
    holds the timerable controllers of the dict. *)
Lemma timerable_ctrls_popped (d : dict CtrlKey CtrlInfo) :
  exists l,
    timerable_ctrls (dict_pop ckey_eqb KTango d) = Return l
    /\ forall c, In c l <->
                 In (KCtrl c) (dict_keys d) /\ pc_timerable c = true.
Proof.
  unfold dict_pop.
  set (f := fun kv : CtrlKey * CtrlInfo => negb (ckey_eqb KTango (fst kv))).
  induction d as [|[k info] d (l & Hl & Hin)].
  - exists []. split; [reflexivity|]. intros c. cbn. tauto.
  - destruct k as [|c0]; cbn [filter].
    + change (f (KTango, info)) with false. cbv iota.
      exists l. split; [exact Hl|]. intros c. rewrite Hin. cbn.
      split; [tauto|]. intros [[H|H] Ht]; [discriminate H|tauto].
    + change (f (KCtrl c0, info)) with true. cbv iota.
      cbn [timerable_ctrls]. rewrite Hl. cbn [rbind Return].
      eexists. split; [reflexivity|]. intros c.
      destruct (pc_timerable c0) eqn:Ht0; cbn; rewrite Hin.
      * split.
        -- intros [->|[H1 H2]]; [auto|tauto].
        -- intros [[H|H] Ht]; [inversion H; auto|tauto].
      * split; [tauto|].
        intros [[H|H] Ht]; [inversion H; subst; congruence|tauto].
Qed.

Lemma list_remove_absent {K} (eqb : K -> K -> bool) (x : K) (l : list K) :
  (forall a b, eqb a b = true <-> a = b) ->
  ~ In x l ->
  list_remove eqb x l = Raise (ValueError "list.remove(x): x not in list").
Proof.
  intros Heqb. induction l as [|y l IH]; cbn; intros Hx; [reflexivity|].
  destruct (eqb x y) eqn:E.
  - apply Heqb in E. subst. tauto.
  - rewrite IH by tauto. reflexivity.
Qed.

Lemma list_remove_present {K} (eqb : K -> K -> bool) (x : K) (l l' : list K) :
  (forall a b, eqb a b = true <-> a = b) ->
  list_remove eqb x l = Return l' ->
  In x l /\ forall y, In y l' -> In y l.
Proof.
  intros Heqb. revert l'. induction l as [|y l IH]; cbn; intros l' H;
    [discriminate H|].
  destruct (eqb x y) eqn:E.
  - apply Heqb in E. subst. inversion H; subst. auto.
  - destruct (list_remove eqb x l) as [e|l0]; [discriminate H|].
    cbn in H. inversion H; subst. destruct (IH l0 eq_refl) as [H1 H2].
    split; [auto|]. intros z [->|Hz]; auto.
Qed.

(** The controllers of a plan are timerable controllers of the
    configuration. *)
Lemma plan_of_ctrls_timerable (kwargs : Kwargs) (cfg : MGcfg) (p : Plan) :
  kw_config kwargs = Some cfg ->
  plan_of kwargs = Return p ->
  forall c, In c (pool_ctrls p) ->
    pc_timerable c = true /\ In (KCtrl c) (dict_keys (controllers cfg)).
Proof.
  unfold plan_of. intros ->. cbn [getitem rbind Return].
  destruct (select_master _ _) as [e|km]; cbn [rbind]; [discriminate|].
  destruct (cfg_master (fst km) cfg) as [e|master]; cbn [rbind]; [discriminate|].
  destruct (timerable_ctrls_popped (controllers cfg)) as (l & Hl & Hin).
  unfold Return in Hl. rewrite Hl. cbn [rbind].
  destruct (list_remove _ _ _) as [e|others] eqn:Hr; cbn [rbind]; [discriminate|].
  destruct (build_channels _ _ _) as [e|chs]; cbn [rbind]; [discriminate|].
  intros H. inversion H; subst; clear H. cbn [pool_ctrls].
  destruct (@list_remove_present _ _ _ _ _ ctrl_eqb_eq Hr) as [Hmc Hsub].
  intros c Hc. apply in_app_or in Hc.
  assert (Hcl : In c l) by (destruct Hc as [Hc|[<-|[]]]; auto).
  apply Hin in Hcl. tauto.
Qed.

(** X5: when the controller of the master channel is not timerable, or is
    not a key of the controllers dict, each of the three actions raises the
    [ValueError] of [pool_ctrls.remove(master_ctrl)] and has called
    nothing. *)
Theorem untimerable_master_raises
    (respond : list event -> call -> result PyVal) (kwargs : Kwargs)
    (cfg : MGcfg) (km : MasterKey * PyVal) (master : Element)
    (h : list event) :
  kw_config kwargs = Some cfg ->
  exactly_one kwargs ->
  select_master (kw_integ_time kwargs) (kw_monitor_count kwargs) = Return km ->
  cfg_master (fst km) cfg = Return master ->
  pc_timerable (el_controller master) = false
  \/ ~ In (KCtrl (el_controller master)) (dict_keys (controllers cfg)) ->
  let err := Raise (ValueError "list.remove(x): x not in list") in
  PoolAcquisitionBase_start_action respond kwargs h = ([], err)
  /\ PoolCTAcquisition_start_action respond kwargs h = ([], err)
  /\ PoolContHWAcquisition_start_action respond kwargs h = ([], err).
Proof.
  intros Hcfg Hone Hkm Hmaster Hbad.
  assert (Hprep : prepare kwargs
                  = Raise (ValueError "list.remove(x): x not in list")).
  { unfold prepare. rewrite (exactly_one_check Hone). cbn [rbind].
    unfold plan_of. rewrite Hcfg. cbn [getitem rbind Return].
    unfold Return in Hkm, Hmaster. rewrite Hkm. cbn [rbind].
    rewrite Hmaster. cbn [rbind].
    destruct (timerable_ctrls_popped (controllers cfg)) as (l & Hl & Hin).
    unfold Return in Hl. rewrite Hl. cbn [rbind].
    rewrite (@list_remove_absent _ ctrl_eqb _ _ ctrl_eqb_eq); [reflexivity|].
    rewrite Hin. intros [H1 H2]. destruct Hbad; [congruence|tauto]. }
  cbv zeta.
  unfold PoolAcquisitionBase_start_action, PoolCTAcquisition_start_action,
    PoolContHWAcquisition_start_action.
  rewrite Hprep. repeat split; reflexivity.
Qed.

Lemma untimerable_master_raises_witness :
  fst (PoolAcquisitionBase_start_action obliging zerod_master_kwargs []) = [].
Proof.
  refine (f_equal fst (proj1 (@untimerable_master_raises obliging
            zerod_master_kwargs zerod_master_cfg
            (KeyTimer, PyFloat 1.0%float) ch_z1 [] eq_refl _ eq_refl eq_refl _))).
  - left. split; [discriminate|reflexivity].
  - left. reflexivity.
Defined.

(** The call log of an action: empty when the preparation raised, the log
    of the sequence otherwise. *)
Lemma start_action_log (a : Action)
    (respond : list event -> call -> result PyVal) (kwargs : Kwargs)
    (h d : list event) (r : result (dict Element Channel)) :
  start_action_of a respond kwargs h = (d, r) ->
  d = [] \/
  exists p, plan_of kwargs = Return p
            /\ d = fst (sequence_of a respond kwargs p h).
Proof.
  assert (Hshape : start_action_of a respond kwargs
                   = abind (alift (prepare kwargs))
                       (fun p => abind (sequence_of a respond kwargs p)
                                   (fun _ => aret (plan_channels p))))
    by (destruct a; reflexivity).
  rewrite Hshape. unfold prepare.
  destruct (check_integ_or_monitor _ _) as [e|[]]; cbn [rbind].
  - intros H. inversion H. auto.
  - destruct (plan_of kwargs) as [e|p].
    + intros H. inversion H. auto.
    + pose proof (abind_alift_Return p
        (fun p => abind (sequence_of a respond kwargs p)
                    (fun _ => aret (plan_channels p))) h) as E.
      unfold Return in E. rewrite E. clear E. intros H. right. exists p.
      split; [reflexivity|]. apply abind_inv in H.
      destruct H as [(e & -> & _)|(d1 & [] & d2 & -> & Hret & ->)];
        [reflexivity|].
      unfold aret in Hret. inversion Hret. cbn. apply app_nil_r.
Qed.

Section PlanCalls.
Variable respond : list event -> call -> result PyVal.
Variable p : Plan.

Ltac plan_call_steps :=
  repeat first [ apply act_all_aret | apply act_all_araise | apply act_all_alift
               | apply act_all_try
               | apply act_all_abind; [|intros ?]
               | match goal with
                 | |- act_all _ (if ?b then _ else _) => destruct b
                 | |- act_all _ (match ?x with _ => _ end) => destruct x
                 end ];
  try (apply act_all_invoke; intros ?; split; cbn;
       intros ? Hcall; inversion Hcall; subst; auto).

Lemma plan_call_load_base (c : PoolController) :
  In c (pool_ctrls p) -> act_all (plan_call p) (load_ctrl_base respond p c).
Proof. intros Hc. unfold load_ctrl_base. plan_call_steps. Qed.

Lemma plan_call_load_ct (c : PoolController) :
  In c (pool_ctrls p) -> act_all (plan_call p) (load_ctrl_ct respond p c).
Proof. intros Hc. unfold load_ctrl_ct. plan_call_steps. Qed.

Lemma plan_call_start_element (c : PoolController) (e : Element) :
  In c (pool_ctrls p) -> act_all (plan_call p) (start_element respond p c e).
Proof. intros Hc. unfold start_element. plan_call_steps. Qed.

Lemma plan_call_call_each (method : PoolController -> call) :
  (forall c, call_ctrl (method c) = Some c) ->
  (forall c, one_call_value (method c) = None) ->
  act_all (plan_call p) (call_each respond (pool_ctrls p) method).
Proof.
  intros Hm Hv. unfold call_each. apply act_all_for_each. intros c Hc.
  apply act_all_abind; [|intros _; apply act_all_aret].
  apply act_all_invoke. intros r. split; cbn.
  - intros c'. rewrite Hm. intros H. inversion H; subst. exact Hc.
  - intros v. rewrite Hv. discriminate.
Qed.

Lemma plan_call_sequence (a : Action) (kwargs : Kwargs) :
  act_all (plan_call p) (sequence_of a respond kwargs p).
Proof.
  assert (Hload_base : act_all (plan_call p)
            (for_each (pool_ctrls p) (load_ctrl_base respond p))).
  { apply act_all_for_each. intros c Hc. apply plan_call_load_base, Hc. }
  assert (Hload_ct : act_all (plan_call p)
            (for_each (pool_ctrls p) (load_ctrl_ct respond p))).
  { apply act_all_for_each. intros c Hc. apply plan_call_load_ct, Hc. }
  assert (Hlast : act_all (plan_call p)
            (for_each (pool_ctrls p) (start_ctrl_master_last respond p))).
  { apply act_all_for_each. intros c Hc. unfold start_ctrl_master_last.
    repeat (apply act_all_abind; [apply act_all_alift|intros ?]).
    apply act_all_for_each. intros e _. apply plan_call_start_element, Hc. }
  assert (Hdict : act_all (plan_call p)
            (for_each (pool_ctrls p) (start_ctrl_dict_order respond p))).
  { apply act_all_for_each. intros c Hc. unfold start_ctrl_dict_order.
    apply act_all_abind; [apply act_all_alift|intros ?].
    apply act_all_for_each. intros e _. apply plan_call_start_element, Hc. }
  assert (Hset : act_all (plan_call p) (set_states_moving respond p)).
  { unfold set_states_moving. apply act_all_for_each. intros e _.
    apply act_all_abind; [|intros _; apply act_all_aret].
    apply act_all_invoke. intros r. split; cbn; intros ? H; discriminate H. }
  assert (Hpre : act_all (plan_call p)
            (call_each respond (pool_ctrls p) PreStartAll))
    by (apply plan_call_call_each; reflexivity).
  assert (Hall : act_all (plan_call p)
            (call_each respond (pool_ctrls p) StartAll))
    by (apply plan_call_call_each; reflexivity).
  destruct a; cbn [sequence_of];
    unfold sequence_base, sequence_ct, sequence_conthw;
    repeat first [ assumption
                 | apply act_all_abind; [|intros ?]
                 | apply act_all_alift
                 | apply plan_call_call_each; reflexivity ].
Qed.
End PlanCalls.

(** X6: whichever of the three actions runs, and however it ends, every
    controller it has called is timerable and is a key of the controllers
    dict of the configuration. *)
Theorem only_timerable_controllers_called (a : Action)
    (respond : list event -> call -> result PyVal) (kwargs : Kwargs)
    (cfg : MGcfg) (h d : list event) (r : result (dict Element Channel)) :
  kw_config kwargs = Some cfg ->
  start_action_of a respond kwargs h = (d, r) ->
  forall ev c, In ev d -> call_ctrl (fst ev) = Some c ->
    pc_timerable c = true /\ In (KCtrl c) (dict_keys (controllers cfg)).
Proof.
  intros Hcfg Hrun ev c Hin Hc. apply start_action_log in Hrun.
  destruct Hrun as [->|(p & Hplan & ->)]; [destruct Hin|].
  pose proof (plan_call_sequence respond p a kwargs h) as Hall.
  rewrite Forall_forall in Hall. destruct (Hall ev Hin) as [Hctrl _].
  apply (plan_of_ctrls_timerable _ Hcfg Hplan). apply Hctrl, Hc.
Qed.

(** X7: every [PreLoadOne], [LoadOne], [PreStartOne] and [StartOne] of the
    three actions carries the same value: minus the monitor count when one
    is given, the integration time otherwise. *)
Theorem per_channel_calls_carry_master_value (a : Action)
    (respond : list event -> call -> result PyVal) (kwargs : Kwargs)
    (h d : list event) (r : result (dict Element Channel)) :
  start_action_of a respond kwargs h = (d, r) ->
  forall ev v, In ev d -> one_call_value (fst ev) = Some v ->
    match kw_monitor_count kwargs with
    | Some n => v = PyInt (- n)
    | None => kw_integ_time kwargs = Some v
    end.
Proof.
  intros Hrun ev v Hin Hv. apply start_action_log in Hrun.
  destruct Hrun as [->|(p & Hplan & ->)]; [destruct Hin|].
  pose proof (plan_call_sequence respond p a kwargs h) as Hall.
  rewrite Forall_forall in Hall. destruct (Hall ev Hin) as [_ Hval].
  rewrite (Hval v Hv). clear - Hplan. unfold plan_of in Hplan.
  destruct (getitem "config" (kw_config kwargs)) as [e|cfg];
    cbn [rbind] in Hplan; [discriminate|].
  unfold select_master in Hplan.
  destruct (kw_monitor_count kwargs) as [n|];
    [|destruct (kw_integ_time kwargs) as [t|]; [|discriminate Hplan]];
    cbn [rbind Return fst snd] in Hplan;
    (destruct (cfg_master _ cfg) as [e|master]; cbn [rbind] in Hplan;
       [discriminate|]);
    (destruct (timerable_ctrls _) as [e|tl]; cbn [rbind] in Hplan;
       [discriminate|]);
    (destruct (list_remove _ _ _) as [e|others]; cbn [rbind] in Hplan;
       [discriminate|]);
    (destruct (build_channels _ _ _) as [e|chs]; cbn [rbind] in Hplan;
       [discriminate|]);
    inversion Hplan; subst; reflexivity.
Qed.

Lemma only_timerable_controllers_called_witness :
  In (PreLoadAll ctrl_b, Return (PyBool true))
     (fst (PoolAcquisitionBase_start_action obliging sample_kwargs []))
  /\ pc_timerable ctrl_b = true
  /\ In (KCtrl ctrl_b) (dict_keys (controllers sample_cfg)).
Proof.
  assert (Hin : In (PreLoadAll ctrl_b, Return (PyBool true))
                  (fst (PoolAcquisitionBase_start_action obliging sample_kwargs [])))
    by (vm_compute; do 4 right; left; reflexivity).
  split; [exact Hin|].
  exact (@only_timerable_controllers_called BaseAction obliging sample_kwargs
           sample_cfg [] _ _ eq_refl (surjective_pairing _) _ ctrl_b Hin eq_refl).
Defined.

Lemma per_channel_calls_carry_master_value_witness :
  In (PreStartOne ctrl_a 2 (PyInt (-5)), Return (PyBool true))
     (fst (PoolCTAcquisition_start_action obliging monitor_kwargs []))
  /\ PyInt (-5) = PyInt (- 5).
Proof.
  assert (Hin : In (PreStartOne ctrl_a 2 (PyInt (-5)), Return (PyBool true))
                  (fst (PoolCTAcquisition_start_action obliging monitor_kwargs [])))
    by (vm_compute; do 10 right; left; reflexivity).
  split; [exact Hin|].
  exact (@per_channel_calls_carry_master_value CTAction obliging monitor_kwargs
           [] _ _ (surjective_pairing _) _ (PyInt (-5)) Hin eq_refl).
Defined.

(** ** [start_action]: the order of the steps *)

Section Phases.
Variable respond : list event -> call -> result PyVal.

Lemma phase_load_base (p : Plan) (c : PoolController) :
  emits phase 1 1 (load_ctrl_base respond p c).
Proof. unfold load_ctrl_base. repeat emits_step. Qed.

Lemma phase_load_ct (p : Plan) (c : PoolController) :
  emits phase 1 1 (load_ctrl_ct respond p c).
Proof. unfold load_ctrl_ct. repeat emits_step. Qed.

Lemma phase_start_master_last (p : Plan) (c : PoolController) :
  emits phase 3 3 (start_ctrl_master_last respond p c).
Proof. unfold start_ctrl_master_last, start_element. repeat emits_step. Qed.

Lemma phase_start_dict_order (p : Plan) (c : PoolController) :
  emits phase 3 3 (start_ctrl_dict_order respond p c).
Proof. unfold start_ctrl_dict_order, start_element. repeat emits_step. Qed.

Lemma phase_sequence (a : Action) (kwargs : Kwargs) (p : Plan) :
  emits phase 0 5 (sequence_of a respond kwargs p).
Proof.
  assert (Htail : emits phase 2 5
    (abind (call_each respond (pool_ctrls p) PreStartAll) (fun _ =>
     abind (for_each (pool_ctrls p)
              (match a with
               | ContHWAction => start_ctrl_dict_order respond p
               | _ => start_ctrl_master_last respond p
               end)) (fun _ =>
     abind (set_states_moving respond p) (fun _ =>
     call_each respond (pool_ctrls p) StartAll))))).
  { unfold call_each, set_states_moving.
    apply emits_abind with (mid := 3%nat); [lia|lia| |intros _].
    { apply emits_weaken with (lo := 2%nat) (hi := 2%nat); [lia|lia|].
      repeat emits_step. }
    apply emits_abind with (mid := 4%nat); [lia|lia| |intros _].
    { apply emits_weaken with (lo := 3%nat) (hi := 3%nat); [lia|lia|].
      apply emits_for_each_const. intros c _.
      destruct a; first [apply phase_start_master_last
                        |apply phase_start_dict_order]. }
    apply emits_abind with (mid := 5%nat); [lia|lia| |intros _].
    { apply emits_weaken with (lo := 4%nat) (hi := 4%nat); [lia|lia|].
      repeat emits_step. }
    repeat emits_step. }
  destruct a; cbn [sequence_of];
    unfold sequence_base, sequence_ct, sequence_conthw.
  - apply emits_abind with (mid := 2%nat); [lia|lia| |intros _; exact Htail].
    apply emits_weaken with (lo := 1%nat) (hi := 1%nat); [lia|lia|].
    apply emits_for_each_const. intros c _. apply phase_load_base.
  - apply emits_abind with (mid := 2%nat); [lia|lia| |intros _; exact Htail].
    apply emits_weaken with (lo := 1%nat) (hi := 1%nat); [lia|lia|].
    apply emits_for_each_const. intros c _. apply phase_load_ct.
  - apply emits_abind_alift. intros reps _.
    apply emits_abind with (mid := 1%nat); [lia|lia| |intros _].
    { apply emits_weaken with (lo := 0%nat) (hi := 0%nat); [lia|lia|].
      unfold call_each. repeat emits_step. }
    apply emits_weaken with (lo := 1%nat) (hi := 5%nat); [lia|lia|].
    apply emits_abind with (mid := 2%nat); [lia|lia| |intros _; exact Htail].
    apply emits_weaken with (lo := 1%nat) (hi := 1%nat); [lia|lia|].
    apply emits_for_each_const. intros c _. apply phase_load_ct.
Qed.
End Phases.

(** X8: the three actions keep the steps apart, however the run ends: a
    call of an earlier step (push of the repetitions, load, [PreStartAll],
    per-channel start, the channels set to Moving, [StartAll]) is made
    before every call of a later step.  So no channel is announced as
    Moving before all [StartOne] calls are through, and none is started by
    [StartAll] before it is announced. *)
Theorem steps_in_order (a : Action)
    (respond : list event -> call -> result PyVal) (kwargs : Kwargs)
    (h d : list event) (r : result (dict Element Channel)) :
  start_action_of a respond kwargs h = (d, r) ->
  forall i j ci cj,
    nth_error d i = Some ci -> nth_error d j = Some cj ->
    (phase (fst ci) < phase (fst cj))%nat ->
    (i < j)%nat.
Proof.
  intros Hrun i j ci cj Hi Hj Hlt. apply start_action_log in Hrun.
  destruct Hrun as [->|(p & _ & ->)]; [destruct i; discriminate Hi|].
  pose proof (phase_sequence respond a kwargs p h) as [Hsorted _].
  destruct (Nat.lt_trichotomy i j) as [Hij|[Heq|Hji]]; [exact Hij|subst j|].
  - rewrite Hi in Hj. inversion Hj; subst. lia.
  - pose proof (@StronglySorted_nth _ _ _ Hsorted _ _ _ _ Hji Hj Hi) as Hle.
    unfold rank_le in Hle. lia.
Qed.

Lemma steps_in_order_witness :
  option_map fst
    (nth_error (fst (PoolContHWAcquisition_start_action obliging sample_kwargs [])) 15)
  = Some (StartOne ctrl_a 2 (PyFloat 1.0%float))
  /\ option_map fst
       (nth_error (fst (PoolContHWAcquisition_start_action obliging sample_kwargs [])) 20)
     = Some (SetStateMoving ch_a1 2)
  /\ (15 < 20)%nat.
Proof.
  split; [vm_compute; reflexivity|]. split; [vm_compute; reflexivity|].
  refine (@steps_in_order ContHWAction obliging sample_kwargs [] _ _
            (surjective_pairing _) 15%nat 20%nat
            (StartOne ctrl_a 2 (PyFloat 1.0%float), Return (PyBool true))
            (SetStateMoving ch_a1 2, Return (PyBool true)) _ _ _).
  - vm_compute. reflexivity.
  - vm_compute. reflexivity.
  - cbn. lia.
Defined.

(** ** [start_action]: a fatal answer ends the run *)

Lemma elt_in_app {X} (pre post d1 d2 : list X) (x : X) :
  d1 ++ d2 = pre ++ x :: post ->
  (exists post1, d1 = pre ++ x :: post1 /\ post = post1 ++ d2)
  \/ (exists pre2, pre = d1 ++ pre2 /\ d2 = pre2 ++ x :: post).
Proof.
  intros H. symmetry in H. apply app_eq_app in H.
  destruct H as (l & [[-> Hp]|[-> Hp]]).
  - right. exists l. auto.
  - destruct l as [|y l]; cbn in Hp.
    + right. exists []. rewrite !app_nil_r. split; [reflexivity|].
      symmetry. exact Hp.
    + inversion Hp; subst. left. exists l. auto.
Qed.

Lemma elt_in_single {X} (pre post : list X) (x y : X) :
  [y] = pre ++ x :: post -> pre = [] /\ x = y /\ post = [].
Proof.
  destruct pre as [|z pre]; cbn; intros H; inversion H; subst; auto.
  destruct pre; discriminate.
Qed.

Section Aborts.
Variable fatal : event -> option exn.

Lemma aborts_none {A} (m : Act A) :
  act_all (fun ev => fatal ev = None) m -> aborts_at fatal m.
Proof.
  intros Hall h d r Hm pre ev post e -> Hf.
  specialize (Hall h). rewrite Hm in Hall. cbn in Hall.
  rewrite Forall_forall in Hall.
  rewrite (Hall ev (in_elt _ _ _)) in Hf. discriminate.
Qed.

Lemma aborts_abind {A B} (m : Act A) (k : A -> Act B) :
  aborts_at fatal m -> (forall a, aborts_at fatal (k a)) ->
  aborts_at fatal (abind m k).
Proof.
  intros Hm Hk h d r H pre ev post e Hd Hf.
  apply abind_inv in H.
  destruct H as [(e1 & H1 & ->)|(d1 & a & d2 & H1 & H2 & ->)].
  - destruct (Hm _ _ _ H1 _ _ _ _ Hd Hf) as [Hp He].
    split; [exact Hp|]. unfold Raise in *. congruence.
  - apply elt_in_app in Hd.
    destruct Hd as [(post1 & -> & ->)|(pre2 & -> & ->)].
    + destruct (Hm _ _ _ H1 _ _ _ _ eq_refl Hf) as [_ Habs].
      discriminate Habs.
    + apply (Hk a _ _ _ H2 pre2 ev post e eq_refl Hf).
Qed.

Lemma aborts_for_each {X} (l : list X) (body : X -> Act unit) :
  (forall x, aborts_at fatal (body x)) -> aborts_at fatal (for_each l body).
Proof.
  intros Hb. induction l as [|x l IH].
  - apply aborts_none, act_all_aret.
  - rewrite for_each_cons. apply aborts_abind; auto.
Qed.

Lemma aborts_alift_abind {A B} (r : result A) (k : A -> Act B) :
  (forall a, aborts_at fatal (k a)) -> aborts_at fatal (abind (alift r) k).
Proof.
  intros Hk. apply aborts_abind; [|exact Hk].
  apply aborts_none, act_all_alift.
Qed.

(** A call whose only fatal answers are its exceptions. *)
Lemma aborts_invoke respond (c : call) :
  (forall ans, fatal (c, inr ans) = None) ->
  (forall e' e, fatal (c, inl e') = Some e -> e = e') ->
  aborts_at fatal (invoke respond c).
Proof.
  intros Hans Hexn h d r H pre ev post e Hd Hf.
  apply invoke_inv in H. destruct H as [-> Hr].
  apply elt_in_single in Hd. destruct Hd as (-> & -> & ->).
  split; [reflexivity|].
  destruct r as [e'|ans].
  - rewrite (Hexn e' e Hf). reflexivity.
  - rewrite Hans in Hf. discriminate.
Qed.

Lemma answers_invoke respond (X : exn) (c : call) :
  (forall ans e, fatal (c, inr ans) = Some e -> truthy ans = false /\ e = X) ->
  (forall e' e, fatal (c, inl e') = Some e -> e = e') ->
  answers fatal X (invoke respond c).
Proof.
  intros Hans Hexn h d r H pre ev post e Hd Hf.
  apply invoke_inv in H. destruct H as [-> Hr].
  apply elt_in_single in Hd. destruct Hd as (-> & -> & ->).
  split; [reflexivity|].
  destruct r as [e'|ans].
  - left. rewrite (Hexn e' e Hf). reflexivity.
  - right. exists ans. destruct (Hans ans e Hf). auto.
Qed.

(** [try: c3  except TypeError: c2], where the [TypeError] of [c3] is not
    fatal. *)
Lemma answers_try respond (X : exn) (c3 c2 : call) :
  (forall msg, fatal (c3, inl (TypeError msg)) = None) ->
  answers fatal X (invoke respond c3) ->
  answers fatal X (invoke respond c2) ->
  answers fatal X
    (try_except_TypeError (invoke respond c3) (invoke respond c2)).
Proof.
  intros Hsw H3 H2 h d r H pre ev post e Hd Hf.
  apply try_except_TypeError_inv in H.
  destruct H as [[H _]|(d1 & msg & d2 & Hm & Hh & ->)].
  - exact (H3 _ _ _ H _ _ _ _ Hd Hf).
  - pose proof Hm as Hm'. apply invoke_inv in Hm'. destruct Hm' as [-> _].
    apply elt_in_app in Hd.
    destruct Hd as [(post1 & Hd1 & ->)|(pre2 & -> & ->)].
    + apply elt_in_single in Hd1.
      destruct Hd1 as (-> & -> & ->). rewrite Hsw in Hf. discriminate.
    + exact (H2 _ _ _ Hh _ _ _ _ eq_refl Hf).
Qed.

(** [res = m; if not res: raise X; K] *)
Lemma aborts_checked {B} (X : exn) (m : Act PyVal) (K : Act B) :
  answers fatal X m -> aborts_at fatal K ->
  aborts_at fatal (abind m (fun res => if truthy res then K else araise X)).
Proof.
  intros Hm HK h d r H pre ev post e Hd Hf.
  apply abind_inv in H.
  destruct H as [(e1 & H1 & ->)|(d1 & res & d2 & H1 & H2 & ->)].
  - destruct (Hm _ _ _ H1 _ _ _ _ Hd Hf) as [Hp [He|(ans & He & _)]].
    + split; [exact Hp|]. unfold Raise in *. congruence.
    + discriminate He.
  - apply elt_in_app in Hd.
    destruct Hd as [(post1 & -> & ->)|(pre2 & -> & ->)].
    + destruct (Hm _ _ _ H1 _ _ _ _ eq_refl Hf)
        as [-> [He|(ans & He & Hfalse & ->)]]; [discriminate He|].
      inversion He; subst ans. rewrite Hfalse in H2.
      unfold araise in H2. inversion H2; subst. auto.
    + destruct (truthy res).
      * exact (HK _ _ _ H2 _ _ _ _ eq_refl Hf).
      * unfold araise in H2. inversion H2. destruct pre2; discriminate.
Qed.
End Aborts.

Section FatalBase.
Variable respond : list event -> call -> result PyVal.

Ltac plain_call :=
  apply aborts_invoke;
  [ intros ?; reflexivity
  | intros ? ? Hf; cbn in Hf; inversion Hf; reflexivity ].

Lemma fatal_load_base (p : Plan) (c : PoolController) :
  aborts_at fatal_base (load_ctrl_base respond p c).
Proof.
  unfold load_ctrl_base.
  apply aborts_alift_abind. intros data.
  apply aborts_abind; [plain_call|intros _].
  apply aborts_alift_abind. intros master.
  apply aborts_checked.
  - apply answers_try; [reflexivity| |]; apply answers_invoke.
    + intros ans e Hf. cbn in Hf. destruct (truthy ans); [discriminate|].
      inversion Hf. auto.
    + intros e' e Hf. cbn in Hf. destruct e'; inversion Hf; reflexivity.
    + intros ans e Hf. cbn in Hf. destruct (truthy ans); [discriminate|].
      inversion Hf. auto.
    + intros e' e Hf. cbn in Hf. inversion Hf; reflexivity.
  - apply aborts_abind; [|intros _].
    + intros h d r H pre ev post e Hd Hf.
      apply try_except_TypeError_inv in H.
      destruct H as [[H _]|(d1 & msg & d2 & Hm & Hh & ->)].
      * apply invoke_inv in H. destruct H as [-> Hr].
        apply elt_in_single in Hd. destruct Hd as (-> & -> & ->).
        split; [reflexivity|]. destruct r as [e'|ans]; cbn in Hf.
        -- destruct e'; inversion Hf; reflexivity.
        -- discriminate.
      * apply invoke_inv in Hm. destruct Hm as [-> _].
        apply invoke_inv in Hh. destruct Hh as [-> Hr].
        apply (elt_in_app pre post [_] [_]) in Hd.
        destruct Hd as [(post1 & Hd1 & ->)|(pre2 & -> & Hd2)].
        -- apply elt_in_single in Hd1.
           destruct Hd1 as (-> & -> & ->). discriminate Hf.
        -- apply elt_in_single in Hd2.
           destruct Hd2 as (-> & -> & ->). split; [reflexivity|].
           destruct r as [e'|ans]; cbn in Hf; inversion Hf; reflexivity.
    + apply aborts_abind; [plain_call|intros _].
      apply aborts_none, act_all_aret.
Qed.

Lemma fatal_start_element (p : Plan) (c : PoolController) (e : Element) :
  aborts_at fatal_base (start_element respond p c e).
Proof.
  unfold start_element.
  apply aborts_alift_abind. intros channel.
  apply aborts_alift_abind. intros enabled.
  destruct enabled; [|apply aborts_none, act_all_aret].
  apply aborts_checked.
  - apply answers_invoke.
    + intros ans e0 Hf. cbn in Hf. destruct (truthy ans); [discriminate|].
      inversion Hf. auto.
    + intros e' e0 Hf. cbn in Hf. inversion Hf; reflexivity.
  - apply aborts_abind; [plain_call|intros _].
    apply aborts_none, act_all_aret.
Qed.

Lemma fatal_call_each (ctrls : list PoolController)
    (method : PoolController -> call) :
  (forall c ans, fatal_base (method c, inr ans) = None) ->
  (forall c e, fatal_base (method c, inl e) = Some e) ->
  aborts_at fatal_base (call_each respond ctrls method).
Proof.
  intros Hans Hexn. unfold call_each. apply aborts_for_each. intros c.
  apply aborts_abind; [|intros _; apply aborts_none, act_all_aret].
  apply aborts_invoke; [apply Hans|].
  intros e' e Hf. rewrite Hexn in Hf. inversion Hf. reflexivity.
Qed.

Lemma fatal_sequence_base (p : Plan) :
  aborts_at fatal_base (sequence_base respond p).
Proof.
  unfold sequence_base.
  apply aborts_abind; [|intros _].
  { apply aborts_for_each. intros c. apply fatal_load_base. }
  apply aborts_abind; [|intros _].
  { apply fatal_call_each; reflexivity. }
  apply aborts_abind; [|intros _].
  { apply aborts_for_each. intros c. unfold start_ctrl_master_last.
    repeat (apply aborts_alift_abind; intros ?).
    apply aborts_for_each. intros e. apply fatal_start_element. }
  apply aborts_abind; [|intros _].
  { unfold set_states_moving. apply aborts_for_each. intros e.
    apply aborts_abind; [plain_call|intros _].
    apply aborts_none, act_all_aret. }
  apply fatal_call_each; reflexivity.
Qed.
End FatalBase.

(** X9: in [PoolAcquisitionBase.start_action] a fatal answer (an exception
    of any call other than the [TypeError] of a three-argument [PreLoadOne]
    or [LoadOne], a falsy [PreLoadOne], a falsy [PreStartOne]) is the last
    entry of the call log, and [start_action] raises the exception that
    goes with it: nothing is called afterwards, neither to go on nor to
    undo what was started. *)
Theorem fatal_answer_is_last (respond : list event -> call -> result PyVal)
    (kwargs : Kwargs) (h d : list event) (r : result (dict Element Channel)) :
  PoolAcquisitionBase_start_action respond kwargs h = (d, r) ->
  forall pre ev post e,
    d = pre ++ ev :: post -> fatal_base ev = Some e ->
    post = [] /\ r = Raise e.
Proof.
  revert h d r.
  change (aborts_at fatal_base (PoolAcquisitionBase_start_action respond kwargs)).
  unfold PoolAcquisitionBase_start_action.
  apply aborts_alift_abind. intros p.
  apply aborts_abind; [apply fatal_sequence_base|intros _].
  apply aborts_none, act_all_aret.
Qed.

Lemma fatal_answer_is_last_witness :
  snd (PoolAcquisitionBase_start_action refusing_preload sample_kwargs [])
  = Raise (returned_False ctrl_a "PreLoadOne" 1 "returned").
Proof.
  refine (proj2 (@fatal_answer_is_last refusing_preload sample_kwargs [] _ _
                   (surjective_pairing _)
                   [(PreLoadAll ctrl_a, Return (PyBool true))]
                   (PreLoadOne ctrl_a 1 (PyFloat 1.0%float) (Some (PyInt 1)),
                    Return (PyBool false))
                   [] _ _ _)).
  - vm_compute. reflexivity.
  - reflexivity.
Defined.

(** ** Calls that only come directly after another *)

Section DirectlyAfter.
Variable T : event -> Prop.
Variable R : event -> event -> Prop.

Lemma after_none {A} (m : Act A) :
  act_all (fun ev => ~ T ev) m -> directly_after T R m.
Proof.
  intros Hall h d r Hm pre ev post -> HT.
  specialize (Hall h). rewrite Hm in Hall. cbn in Hall.
  rewrite Forall_forall in Hall.
  destruct (Hall ev (in_elt _ _ _) HT).
Qed.

Lemma after_abind {A B} (m : Act A) (k : A -> Act B) :
  directly_after T R m -> (forall a, directly_after T R (k a)) ->
  directly_after T R (abind m k).
Proof.
  intros Hm Hk h d r H pre ev post Hd HT.
  apply abind_inv in H.
  destruct H as [(e1 & H1 & ->)|(d1 & a & d2 & H1 & H2 & ->)].
  - exact (Hm _ _ _ H1 _ _ _ Hd HT).
  - apply elt_in_app in Hd.
    destruct Hd as [(post1 & -> & ->)|(pre2 & -> & ->)].
    + exact (Hm _ _ _ H1 _ _ _ eq_refl HT).
    + destruct (Hk a _ _ _ H2 _ _ _ eq_refl HT) as (pre' & ev' & -> & HR).
      exists (d1 ++ pre'), ev'. split; [apply app_assoc|exact HR].
Qed.

Lemma after_for_each {X} (l : list X) (body : X -> Act unit) :
  (forall x, directly_after T R (body x)) ->
  directly_after T R (for_each l body).
Proof.
  intros Hb. induction l as [|x l IH].
  - apply after_none, act_all_aret.
  - rewrite for_each_cons. apply after_abind; auto.
Qed.

Lemma after_alift_abind {A B} (r : result A) (k : A -> Act B) :
  (forall a, directly_after T R (k a)) ->
  directly_after T R (abind (alift r) k).
Proof.
  intros Hk. apply after_abind; [|exact Hk].
  apply after_none, act_all_alift.
Qed.

Lemma after_invoke respond (c : call) :
  (forall r, ~ T (c, r)) -> directly_after T R (invoke respond c).
Proof. intros Hc. apply after_none, act_all_invoke. exact Hc. Qed.

(** [c1] made, then [c2] when the answer [k] looks at allows it. *)
Lemma after_pair respond {B} (c1 : call) (k : PyVal -> Act B) :
  (forall r, ~ T (c1, r)) ->
  (forall ans h d r pre ev post,
      k ans h = (d, r) -> d = pre ++ ev :: post -> T ev ->
      (pre = [] /\ R (c1, Return ans) ev)
      \/ exists pre' ev', pre = pre' ++ [ev'] /\ R ev' ev) ->
  directly_after T R (abind (invoke respond c1) k).
Proof.
  intros H1 Hk h d r H pre ev post Hd HT.
  apply abind_inv in H.
  destruct H as [(e1 & Hm & ->)|(d1 & ans & d2 & Hm & H2 & ->)];
    apply invoke_inv in Hm; destruct Hm as [-> Hr].
  - apply elt_in_single in Hd. destruct Hd as (-> & -> & ->).
    destruct (H1 _ HT).
  - apply (elt_in_app pre post [_] d2) in Hd.
    destruct Hd as [(post1 & Hd1 & ->)|(pre2 & -> & ->)].
    + apply elt_in_single in Hd1. destruct Hd1 as (-> & -> & ->).
      destruct (H1 _ HT).
    + destruct (Hk ans _ _ _ _ _ _ H2 eq_refl HT)
        as [[-> HR]|(pre' & ev' & -> & HR)].
      * exists [], (c1, Return ans). split; [reflexivity|exact HR].
      * exists ((c1, inr ans) :: pre'), ev'. split; [reflexivity|exact HR].
Qed.
End DirectlyAfter.

Section StartAfterPreStart.
Variable respond : list event -> call -> result PyVal.

Ltac not_StartOne :=
  intros ? (? & ? & ? & Hcall); discriminate Hcall.

Lemma allowed_start_element (p : Plan) (c : PoolController) (e : Element) :
  directly_after is_StartOne allowed_by (start_element respond p c e).
Proof.
  unfold start_element.
  apply after_alift_abind. intros channel.
  apply after_alift_abind. intros enabled.
  destruct enabled; [|apply after_none, act_all_aret].
  apply after_pair; [not_StartOne|].
  intros ans h d r pre ev post Hk Hd HT.
  destruct (truthy ans) eqn:Hans.
  - apply abind_inv in Hk.
    destruct Hk as [(e1 & Hm & ->)|(d1 & a1 & d2 & Hm & H2 & ->)];
      apply invoke_inv in Hm; destruct Hm as [-> Hr].
    + apply elt_in_single in Hd. destruct Hd as (-> & -> & ->).
      left. split; [reflexivity|].
      exists c, (el_axis e), (master_value p), ans. auto.
    + unfold aret in H2. inversion H2; subst d2. cbn in Hd.
      apply elt_in_single in Hd. destruct Hd as (-> & -> & ->).
      left. split; [reflexivity|].
      exists c, (el_axis e), (master_value p), ans. auto.
  - unfold araise in Hk. inversion Hk as [[Hnil Hr]]. rewrite <- Hnil in Hd.
    destruct pre; discriminate Hd.
Qed.

Lemma allowed_sequence (a : Action) (kwargs : Kwargs) (p : Plan) :
  directly_after is_StartOne allowed_by (sequence_of a respond kwargs p).
Proof.
  assert (Hnone : forall (ctrls : list PoolController) method,
             (forall c c' ax v, method c <> StartOne c' ax v) ->
             directly_after is_StartOne allowed_by
               (call_each respond ctrls method)).
  { intros ctrls method Hm. apply after_none. unfold call_each.
    repeat act_all_step. intros r (c' & ax & v & Hcall). exact (Hm _ _ _ _ Hcall). }
  assert (Hload_base : directly_after is_StartOne allowed_by
            (for_each (pool_ctrls p) (load_ctrl_base respond p))).
  { apply after_none. unfold load_ctrl_base. repeat act_all_step;
      intros r (c' & ax & v & Hcall); discriminate Hcall. }
  assert (Hload_ct : directly_after is_StartOne allowed_by
            (for_each (pool_ctrls p) (load_ctrl_ct respond p))).
  { apply after_none. unfold load_ctrl_ct. repeat act_all_step;
      intros r (c' & ax & v & Hcall); discriminate Hcall. }
  assert (Hset : directly_after is_StartOne allowed_by
            (set_states_moving respond p)).
  { apply after_none. unfold set_states_moving. repeat act_all_step.
    intros r (c' & ax & v & Hcall). discriminate Hcall. }
  assert (Hlast : directly_after is_StartOne allowed_by
            (for_each (pool_ctrls p) (start_ctrl_master_last respond p))).
  { apply after_for_each. intros c. unfold start_ctrl_master_last.
    repeat (apply after_alift_abind; intros ?).
    apply after_for_each. intros e. apply allowed_start_element. }
  assert (Hdict : directly_after is_StartOne allowed_by
            (for_each (pool_ctrls p) (start_ctrl_dict_order respond p))).
  { apply after_for_each. intros c. unfold start_ctrl_dict_order.
    apply after_alift_abind; intros ?.
    apply after_for_each. intros e. apply allowed_start_element. }
  destruct a; cbn [sequence_of];
    unfold sequence_base, sequence_ct, sequence_conthw;
    repeat first [ assumption
                 | apply after_alift_abind; intros ?
                 | apply after_abind; [|intros ?]
                 | apply Hnone; discriminate ].
Qed.
End StartAfterPreStart.

(** X10: in the three actions a [StartOne] is only ever made directly after
    the [PreStartOne] on the same controller, axis and value, and only when
    that one answered a truthy value. *)
Theorem start_one_directly_after_prestart (a : Action)
    (respond : list event -> call -> result PyVal) (kwargs : Kwargs)
    (h d : list event) (r : result (dict Element Channel)) :
  start_action_of a respond kwargs h = (d, r) ->
  forall pre c axis v ans post,
    d = pre ++ (StartOne c axis v, ans) :: post ->
    exists pre' ok,
      pre = pre' ++ [(PreStartOne c axis v, Return ok)] /\ truthy ok = true.
Proof.
  intros Hrun pre c axis v ans post Hd.
  assert (Hall : directly_after is_StartOne allowed_by
                   (start_action_of a respond kwargs)).
  { assert (Hshape : start_action_of a respond kwargs
                     = abind (alift (prepare kwargs))
                         (fun p => abind (sequence_of a respond kwargs p)
                                     (fun _ => aret (plan_channels p))))
      by (destruct a; reflexivity).
    rewrite Hshape. apply after_alift_abind. intros p.
    apply after_abind; [apply allowed_sequence|intros _].
    apply after_none, act_all_aret. }
  destruct (Hall _ _ _ Hrun _ _ _ Hd) as (pre' & ev' & -> & HR).
  { exists c, axis, v. reflexivity. }
  destruct HR as (c' & ax' & v' & ok & -> & Hok & Hcall).
  cbn in Hcall. inversion Hcall; subst. eauto.
Qed.

Lemma start_one_directly_after_prestart_witness :
  exists pre' ok,
    firstn 11 (fst (PoolAcquisitionBase_start_action obliging sample_kwargs []))
    = pre' ++ [(PreStartOne ctrl_a 2 (PyFloat 1.0%float), Return ok)]
    /\ truthy ok = true.
Proof.
  refine (@start_one_directly_after_prestart BaseAction obliging sample_kwargs
            [] _ _ (surjective_pairing _)
            (firstn 11 (fst (PoolAcquisitionBase_start_action obliging
                               sample_kwargs [])))
            ctrl_a 2 (PyFloat 1.0%float) (Return (PyBool true))
            (skipn 12 (fst (PoolAcquisitionBase_start_action obliging
                              sample_kwargs []))) _).
  vm_compute. reflexivity.
Defined.

Lemma after_try (T : event -> Prop) (R : event -> event -> Prop)
    respond (c3 c2 : call) :
  (forall r, ~ T (c3, r)) ->
  (forall msg r, R (c3, Raise (TypeError msg)) (c2, r)) ->
  directly_after T R
    (try_except_TypeError (invoke respond c3) (invoke respond c2)).
Proof.
  intros H3 HR h d r H pre ev post Hd HT.
  apply try_except_TypeError_inv in H.
  destruct H as [[H _]|(d1 & msg & d2 & Hm & Hh & ->)].
  - apply invoke_inv in H. destruct H as [-> _].
    apply elt_in_single in Hd. destruct Hd as (-> & -> & ->).
    destruct (H3 _ HT).
  - apply invoke_inv in Hm. destruct Hm as [-> _].
    apply invoke_inv in Hh. destruct Hh as [-> _].
    apply (elt_in_app pre post [_] [_]) in Hd.
    destruct Hd as [(post1 & Hd1 & ->)|(pre2 & -> & Hd2)].
    + apply elt_in_single in Hd1. destruct Hd1 as (-> & -> & ->).
      destruct (H3 _ HT).
    + apply elt_in_single in Hd2. destruct Hd2 as (-> & -> & ->).
      exists [], (c3, inl (TypeError msg)). split; [reflexivity|apply HR].
Qed.

(** X11: [PoolAcquisitionBase.start_action] makes a two-argument
    [PreLoadOne] or [LoadOne] only as a fallback: directly after the
    three-argument call of the same method on the same controller, axis and
    value was answered by a [TypeError]. *)
Theorem two_argument_calls_are_fallbacks
    (respond : list event -> call -> result PyVal) (kwargs : Kwargs)
    (h d : list event) (r : result (dict Element Channel)) :
  PoolAcquisitionBase_start_action respond kwargs h = (d, r) ->
  forall pre ev post,
    d = pre ++ ev :: post -> is_two_argument ev ->
    exists pre' ev', pre = pre' ++ [ev'] /\ falls_back_from ev' ev.
Proof.
  revert h d r.
  change (directly_after is_two_argument falls_back_from
            (PoolAcquisitionBase_start_action respond kwargs)).
  assert (Hnone : forall {A} (m : Act A),
             act_all (fun ev => match fst ev with
                                | PreLoadOne _ _ _ _ | LoadOne _ _ _ _ => False
                                | _ => True
                                end) m ->
             directly_after is_two_argument falls_back_from m).
  { intros A m Hm. apply after_none. eapply act_all_impl; [|exact Hm].
    intros [c r]. unfold is_two_argument. cbn. destruct c; tauto. }
  unfold PoolAcquisitionBase_start_action.
  apply after_alift_abind. intros p.
  apply after_abind; [|intros _; apply after_none, act_all_aret].
  unfold sequence_base.
  apply after_abind; [|intros _].
  { apply after_for_each. intros c. unfold load_ctrl_base.
    apply after_alift_abind. intros data.
    apply after_abind; [apply after_invoke; intros r0 H0; exact H0|intros _].
    apply after_alift_abind. intros master.
    apply after_abind; [|intros res].
    { apply after_try; [intros r0 H0; exact H0|].
      intros msg r0. exists msg. cbn. auto. }
    destruct (truthy res); [|apply after_none, act_all_araise].
    apply after_abind; [|intros _].
    { apply after_try; [intros r0 H0; exact H0|].
      intros msg r0. exists msg. cbn. auto. }
    apply after_abind; [apply after_invoke; intros r0 H0; exact H0|intros _].
    apply after_none, act_all_aret. }
  apply Hnone. unfold call_each, set_states_moving, start_ctrl_master_last,
    start_element.
  repeat act_all_step; intros; exact I.
Qed.

Lemma two_argument_calls_are_fallbacks_witness :
  exists pre' ev',
    firstn 2 (fst (PoolAcquisitionBase_start_action old_api sample_kwargs []))
    = pre' ++ [ev']
    /\ falls_back_from ev'
         (PreLoadOne ctrl_a 1 (PyFloat 1.0%float) None, Return (PyBool true)).
Proof.
  refine (@two_argument_calls_are_fallbacks old_api sample_kwargs [] _ _
            (surjective_pairing _)
            (firstn 2 (fst (PoolAcquisitionBase_start_action old_api
                              sample_kwargs [])))
            (PreLoadOne ctrl_a 1 (PyFloat 1.0%float) None, Return (PyBool true))
            (skipn 3 (fst (PoolAcquisitionBase_start_action old_api
                             sample_kwargs []))) _ _).
  - vm_compute. reflexivity.
  - exact I.
Defined.

(** ** Witnesses for the order within and across controllers *)

Lemma info_a_channels_NoDup : NoDup (dict_keys (channels info_a)).
Proof.
  cbn. repeat constructor; cbn; intros H;
    repeat (destruct H as [H|H]; [discriminate H|]); exact H.
Defined.

Lemma info_a_timer_alone (e : Element) :
  In e (dict_keys (channels info_a)) -> el_axis e = el_axis ch_a1 -> e = ch_a1.
Proof.
  cbn. intros [<-|[<-|[]]] Hax; [reflexivity|discriminate Hax].
Defined.

Lemma base_master_channel_last_witness :
  option_map fst
    (nth_error (fst (PoolAcquisitionBase_start_action obliging sample_kwargs [])) 10)
  = Some (PreStartOne ctrl_a 2 (PyFloat 1.0%float))
  /\ option_map fst
       (nth_error (fst (PoolAcquisitionBase_start_action obliging sample_kwargs [])) 12)
     = Some (PreStartOne ctrl_a 1 (PyFloat 1.0%float))
  /\ (10 < 12)%nat.
Proof.
  split; [vm_compute; reflexivity|]. split; [vm_compute; reflexivity|].
  refine (@base_master_channel_last obliging sample_kwargs sample_cfg ctrl_a
            info_a (KeyTimer, PyFloat 1.0%float) ch_a1 [] _ _
            eq_refl sample_cfg_NoDup eq_refl eq_refl eq_refl
            info_a_channels_NoDup info_a_timer_alone (surjective_pairing _)
            12%nat 10%nat
            (PreStartOne ctrl_a 1 (PyFloat 1.0%float), Return (PyBool true))
            (PreStartOne ctrl_a 2 (PyFloat 1.0%float), Return (PyBool true))
            2 _ _ eq_refl eq_refl _).
  - vm_compute. reflexivity.
  - vm_compute. reflexivity.
  - discriminate.
Defined.

Lemma conthw_master_controller_calls_last_witness :
  option_map fst
    (nth_error (fst (PoolContHWAcquisition_start_action obliging sample_kwargs [])) 3)
  = Some (PreLoadOne ctrl_a 1 (PyFloat 1.0%float) None)
  /\ option_map fst
       (nth_error (fst (PoolContHWAcquisition_start_action obliging sample_kwargs [])) 7)
     = Some (PreLoadOne ctrl_b 1 (PyFloat 1.0%float) None)
  /\ (3 < 7)%nat.
Proof.
  split; [vm_compute; reflexivity|]. split; [vm_compute; reflexivity|].
  refine (@conthw_master_controller_calls_last obliging sample_kwargs sample_cfg
            ctrl_b [] _ _ eq_refl sample_cfg_NoDup eq_refl (surjective_pairing _)
            7%nat 3%nat
            (PreLoadOne ctrl_b 1 (PyFloat 1.0%float) None, Return (PyBool true))
            (PreLoadOne ctrl_a 1 (PyFloat 1.0%float) None, Return (PyBool true))
            KPreLoadOne ctrl_a _ _ eq_refl eq_refl eq_refl eq_refl _).
  - vm_compute. reflexivity.
  - vm_compute. reflexivity.
  - discriminate.
Defined.

Lemma prestart_refusal_aborts_ct_witness :
  snd (PoolCTAcquisition_start_action refusing_axis_2 sample_kwargs [])
  = Raise (returned_False ctrl_a "PreStartOne" 2 "returns").
Proof.
  refine (proj2 (proj1 (@prestart_refusal_aborts_ct refusing_axis_2 sample_kwargs)
                   [] _ _ (surjective_pairing _)
                   (firstn 10 (fst (PoolCTAcquisition_start_action
                                      refusing_axis_2 sample_kwargs [])))
                   ctrl_a 2 (PyFloat 1.0%float) (PyBool false) [] _ _)).
  - vm_compute. reflexivity.
  - reflexivity.
Defined.

(** ** [event_received]: the other branches *)

Ltac unfold_event :=
  unfold event_received, dispatch_zerod, is_cont_ct_acq_busy,
    is_zerod_acq_busy, set_sw_config, set_0d_config, set_sw_acq_busy,
    set_0d_acq_busy.

(** X15: a [Passive] event never changes the coordinator and never hands a
    cycle to the worker pool; it asks the ZeroD acquisition to stop exactly
    when a ZeroD configuration is cached and the ZeroD flag is set. *)
Theorem passive_event_only_stops_zerod (self : PoolAcquisition) (event_id : Z) :
  fst (event_received self TGPassive event_id) = self
  /\ submitted (snd (event_received self TGPassive event_id)) = []
  /\ (In ZeroDStopAction (snd (event_received self TGPassive event_id)) <->
      config_truthy (zerod_config self) = true /\ zerod_acq_busy self = true).
Proof.
  unfold event_received, is_zerod_acq_busy.
  destruct (config_truthy (zerod_config self)), (zerod_acq_busy self);
    cbn [andb fst snd submitted In];
    (split; [reflexivity|]); (split; [reflexivity|]);
    (split;
     [ intros H; repeat (destruct H as [H|H]; [try discriminate H|]);
       try contradiction; auto
     | intros [H1 H2]; try discriminate H1; try discriminate H2; auto ]).
Qed.

(** X16: the keyword arguments handed to the worker pool carry the id of the
    event under ['idx'] and ['synch'] set, leave the other entries of the
    cached configuration as they were, and are themselves what the
    coordinator has cached afterwards: the cached dict is the one that was
    tagged. *)
Theorem dispatched_kwargs_are_cached (self : PoolAcquisition)
    (event_type : TGEventType) (event_id : Z) (j : Job) (kwargs : Kwargs) :
  In (ThreadPoolAdd j kwargs) (snd (event_received self event_type event_id)) ->
  kw_idx kwargs = Some event_id /\ kw_synch kwargs = Some true
  /\ job_config j (fst (event_received self event_type event_id)) = Some kwargs
  /\ exists cached,
       job_config j self = Some cached
       /\ kw_config kwargs = kw_config cached
       /\ kw_integ_time kwargs = kw_integ_time cached
       /\ kw_monitor_count kwargs = kw_monitor_count cached
       /\ kw_repetitions kwargs = kw_repetitions cached.
Proof.
  destruct self as [swc zc sb zb]. unfold_event.
  destruct event_type, swc as [ks|], zc as [kz|], sb, zb;
    cbn [sw_acq_config zerod_config sw_acq_busy zerod_acq_busy];
    case_configs; cbn; intros H;
    repeat (destruct H as [H|H]; [try discriminate H|]); try contradiction;
    inversion H; subst; cbn; repeat split; eauto 10.
Qed.

Lemma dispatched_kwargs_are_cached_witness :
  kw_idx (tag_kwargs sample_kwargs 7) = Some 7
  /\ kw_synch (tag_kwargs sample_kwargs 7) = Some true
  /\ job_config RunCtContinuous (fst (event_received sw_idle TGActive 7))
     = Some (tag_kwargs sample_kwargs 7)
  /\ exists cached,
       job_config RunCtContinuous sw_idle = Some cached
       /\ kw_config (tag_kwargs sample_kwargs 7) = kw_config cached
       /\ kw_integ_time (tag_kwargs sample_kwargs 7) = kw_integ_time cached
       /\ kw_monitor_count (tag_kwargs sample_kwargs 7) = kw_monitor_count cached
       /\ kw_repetitions (tag_kwargs sample_kwargs 7) = kw_repetitions cached.
Proof.
  apply (@dispatched_kwargs_are_cached sw_idle TGActive 7 RunCtContinuous).
  cbn. right. right. left. reflexivity.
Defined.

(** X17: what an [Active] event hands to the worker pool: the software cycle
    when the software side is ready, then the ZeroD cycle when the ZeroD
    side is ready and the software side has not cut the handler short.  A
    busy ZeroD side does not hold the software cycle back; a busy software
    side holds the ZeroD cycle back. *)
Theorem active_event_submissions (self : PoolAcquisition) (event_id : Z) :
  submitted (snd (event_received self TGActive event_id))
  = (if ready RunCtContinuous self then [RunCtContinuous] else [])
    ++ (if negb (sw_blocks self) && ready RunZerodAcquisition self
        then [RunZerodAcquisition] else []).
Proof.
  destruct self as [swc zc sb zb]. unfold_event. unfold ready, sw_blocks.
  destruct swc as [ks|], zc as [kz|], sb, zb;
    cbn [sw_acq_config zerod_config sw_acq_busy zerod_acq_busy job_config
         busy_flag];
    case_configs; reflexivity.
Qed.

(** ** The busy flags are never wedged *)

Lemma step_preserves_busy_in_flight (s s' : System) :
  (forall j, busy_flag j (coord s) = true -> (1 <= count_job j (in_flight s))%nat) ->
  step s s' ->
  forall j, busy_flag j (coord s') = true -> (1 <= count_job j (in_flight s'))%nat.
Proof.
  intros Hinv Hstep j.
  destruct Hstep as [s ty id|s before j0 after ran logged Hfl|s cfg|s cfg];
    cbn [coord in_flight].
  - destruct (event_received_flag (coord s) ty id j) as (_ & _ & Hflag).
    cbv zeta in Hflag. rewrite Hflag, count_job_app. intros Hb.
    apply orb_true_iff in Hb. destruct Hb as [Hb|Hb].
    + specialize (Hinv j Hb). lia.
    + destruct (Nat.eqb_spec (count_job j (submitted
        (snd (event_received (coord s) ty id)))) 0); [discriminate Hb|lia].
  - rewrite worker_finish_flag. destruct (job_eqb j j0) eqn:Hj; [discriminate|].
    intros Hb. specialize (Hinv j Hb). rewrite Hfl in Hinv.
    rewrite count_job_app in *. unfold count_job in *. cbn [filter] in Hinv.
    rewrite Hj in Hinv. exact Hinv.
  - destruct j; cbn; [apply (Hinv RunCtContinuous)|apply (Hinv RunZerodAcquisition)].
  - destruct j; cbn; [apply (Hinv RunCtContinuous)|apply (Hinv RunZerodAcquisition)].
Qed.

(** X18: in every state the coordinator and its worker pool can reach, a
    busy flag that is set belongs to exactly one cycle in flight: the flag
    cannot stay set with no cycle left to clear it. *)
Theorem busy_flag_has_cycle_in_flight (s : System) :
  reachable s -> busy_means_in_flight s.
Proof.
  intros Hr j Hb.
  assert (Hge : forall j, busy_flag j (coord s) = true ->
                          (1 <= count_job j (in_flight s))%nat).
  { clear j Hb. induction Hr as [|s s' _ IH Hstep].
    - intros j. destruct j; cbn; discriminate.
    - apply (step_preserves_busy_in_flight IH Hstep). }
  pose proof (Hge j Hb). destruct (reachable_at_most_one Hr j) as [Hle _]. lia.
Qed.

Lemma busy_flag_has_cycle_in_flight_witness :
  busy_flag RunCtContinuous (coord after_one_active) = true
  /\ count_job RunCtContinuous (in_flight after_one_active) = 1%nat.
Proof.
  split; [reflexivity|].
  apply (@busy_flag_has_cycle_in_flight after_one_active); [|reflexivity].
  unfold after_one_active.
  eapply reach_step; [|apply step_event].
  eapply reach_step; [apply reach_init|].
  apply (step_set_sw_config initial (Some sample_kwargs)).
Defined.

(** ** The final loops of the action loops *)

Lemma for_each_completes {X} (l : list X) (body : X -> Act unit)
    (h d : list event) :
  for_each l body h = (d, Return tt) ->
  forall x, In x l ->
  exists h' d', body x h' = (d', Return tt) /\ incl d' d.
Proof.
  revert h d. induction l as [|y l IH]; intros h d H x Hx; [destruct Hx|].
  rewrite for_each_cons in H. apply abind_inv in H.
  destruct H as [(ex & _ & Habs)|(d1 & [] & d2 & H1 & H2 & ->)]; [discriminate|].
  destruct Hx as [->|Hx].
  - exists h, d1. split; [exact H1|]. apply incl_appl, incl_refl.
  - destruct (IH _ _ H2 x Hx) as (h' & d' & Hb & Hincl).
    exists h', d'. split; [exact Hb|]. apply incl_appr, Hincl.
Qed.

Lemma final_loop_shape (l : FinalLoop) respond states values :
  final_loop_of l respond states values
  = for_each states (converge_item respond (publish_of l respond values)).
Proof. destruct l; reflexivity. Qed.

Lemma publish_of_only_puts (l : FinalLoop) respond values (e : Element) :
  act_all is_PutValue (publish_of l respond values e).
Proof.
  destruct l as [index|]; cbn [publish_of];
    unfold publish_wrapped, publish_nonempty;
    destruct (dict_get element_eqb e values) as [[v0|]|];
    try apply act_all_aret; try apply act_all_araise.
  - apply act_all_abind; [|intros _; apply act_all_aret].
    apply act_all_invoke. intros r. eexists _, _, _. reflexivity.
  - apply act_all_abind; [apply act_all_alift|intros n].
    destruct (0 <? n); [|apply act_all_aret].
    apply act_all_abind; [|intros _; apply act_all_aret].
    apply act_all_invoke. intros r. eexists _, _, _. reflexivity.
Qed.

Lemma final_state_after_translation (l : FinalLoop) respond states values :
  directly_after is_final_state translated_by
    (final_loop_of l respond states values).
Proof.
  rewrite final_loop_shape. apply after_for_each. intros [e si].
  unfold converge_item.
  apply after_abind;
    [apply after_invoke; intros r (e' & s & Hc); discriminate Hc|intros _].
  apply after_abind.
  { apply after_none. eapply act_all_impl; [|apply publish_of_only_puts].
    intros ev (e1 & v & p & Hput) (e2 & s & Hc). rewrite Hput in Hc.
    discriminate Hc. }
  intros _.
  apply after_abind;
    [apply after_invoke; intros r (e' & s & Hc); discriminate Hc|intros _].
  apply after_pair; [intros r (e' & s & Hc); discriminate Hc|].
  intros ans h d r pre ev post Hk Hd HT. left.
  apply abind_inv in Hk.
  destruct Hk as [(e1 & Hm & ->)|(d1 & a1 & d2 & Hm & H2 & ->)];
    apply invoke_inv in Hm; destruct Hm as [-> Hr].
  - apply elt_in_single in Hd. destruct Hd as (-> & -> & ->).
    split; [reflexivity|]. exists e, si, ans. auto.
  - unfold aret in H2. inversion H2; subst d2. cbn in Hd.
    apply elt_in_single in Hd. destruct Hd as (-> & -> & ->).
    split; [reflexivity|]. exists e, si, ans. auto.
Qed.

Lemma translation_after_clear (l : FinalLoop) respond states values :
  directly_after is_translation cleared_by
    (final_loop_of l respond states values).
Proof.
  rewrite final_loop_shape. apply after_for_each. intros [e si].
  unfold converge_item.
  apply after_abind;
    [apply after_invoke; intros r (e' & s & Hc); discriminate Hc|intros _].
  apply after_abind.
  { apply after_none. eapply act_all_impl; [|apply publish_of_only_puts].
    intros ev (e1 & v & p & Hput) (e2 & s & Hc). rewrite Hput in Hc.
    discriminate Hc. }
  intros _.
  apply after_pair; [intros r (e' & s & Hc); discriminate Hc|].
  intros ok h d r pre ev post Hk Hd HT. left.
  apply abind_inv in Hk.
  destruct Hk as [(e1 & Hm & ->)|(d1 & s & d2 & Hm & H2 & ->)];
    apply invoke_inv in Hm; destruct Hm as [-> Hr].
  - apply elt_in_single in Hd. destruct Hd as (-> & -> & ->).
    split; [reflexivity|]. exists e, si, ok. auto.
  - apply abind_inv in H2.
    destruct H2 as [(e1 & Hm & ->)|(d3 & a3 & d4 & Hm & H4 & ->)];
      apply invoke_inv in Hm; destruct Hm as [-> Hr'].
    + destruct pre as [|x pre]; cbn in Hd; inversion Hd as [[Hev Hrest]].
      * split; [reflexivity|]. exists e, si, ok. auto.
      * apply elt_in_single in Hrest. destruct Hrest as (_ & Hx & _).
        rewrite Hx in HT. destruct HT as (e' & si' & Hc). discriminate Hc.
    + unfold aret in H4. inversion H4; subst d4. cbn in Hd.
      destruct pre as [|x pre]; cbn in Hd; inversion Hd as [[Hev Hrest]].
      * split; [reflexivity|]. exists e, si, ok. auto.
      * apply elt_in_single in Hrest. destruct Hrest as (_ & Hx & _).
        rewrite Hx in HT. destruct HT as (e' & si' & Hc). discriminate Hc.
Qed.

Lemma translations_of_read_states (l : FinalLoop) respond states values :
  act_all (fun ev => forall e si, fst ev = FromCtrlStateInfo e si ->
                                  In (e, si) states)
    (final_loop_of l respond states values).
Proof.
  rewrite final_loop_shape. apply act_all_for_each. intros [e si] Hin.
  unfold converge_item.
  apply act_all_abind;
    [apply act_all_invoke; intros r e' s' Hc; discriminate Hc|intros _].
  apply act_all_abind.
  { eapply act_all_impl; [|apply publish_of_only_puts].
    intros ev (e1 & v & p & Hput) e' s' Hc. rewrite Hput in Hc.
    discriminate Hc. }
  intros _.
  apply act_all_abind;
    [apply act_all_invoke; intros r e' s' Hc; discriminate Hc|intros _].
  apply act_all_abind.
  { apply act_all_invoke. intros r e' s' Hc. cbn in Hc. inversion Hc; subst.
    exact Hin. }
  intros s.
  apply act_all_abind; [|intros _; apply act_all_aret].
  apply act_all_invoke. intros r e' s' Hc. discriminate Hc.
Qed.

(** X19: in the final loop of the software and of the hardware action loop,
    a state is published with full propagation only directly after the
    element's [clear_operation] went through and [_from_ctrl_state_info]
    translated the state read for that element: the published state is the
    answer of the translation, never the raw state. *)
Theorem final_state_follows_clear_and_translation (l : FinalLoop)
    (respond : list event -> call -> result PyVal)
    (states : dict Element PyVal)
    (values : dict Element (option SardanaValue))
    (h d : list event) (r : result unit) :
  final_loop_of l respond states values h = (d, r) ->
  forall pre e s ans post,
    d = pre ++ (SetStateInfo e s 2, ans) :: post ->
    exists pre' ok si,
      In (e, si) states
      /\ pre = pre' ++ [(ClearOperation e, Return ok);
                        (FromCtrlStateInfo e si, Return s)].
Proof.
  intros Hrun pre e s ans post Hd.
  destruct (@final_state_after_translation l respond states values
              _ _ _ Hrun _ _ _ Hd) as (pre1 & ev1 & -> & HR).
  { exists e, s. reflexivity. }
  destruct HR as (e1 & si & s1 & -> & Hc). cbn in Hc. inversion Hc; subst e1 s1.
  rewrite <- app_assoc in Hd. cbn in Hd.
  destruct (@translation_after_clear l respond states values
              _ _ _ Hrun _ _ _ Hd) as (pre2 & ev2 & -> & HR).
  { exists e, si. reflexivity. }
  destruct HR as (e2 & si2 & ok & -> & Hc2). cbn in Hc2.
  inversion Hc2; subst e2 si2.
  exists pre2, ok, si. split.
  - pose proof (@translations_of_read_states l respond states values h) as Hall.
    rewrite Hrun in Hall. cbn in Hall. rewrite Forall_forall in Hall.
    apply (Hall (FromCtrlStateInfo e si, Return s)); [|reflexivity].
    rewrite Hd. apply in_elt.
  - rewrite <- app_assoc. reflexivity.
Qed.

Lemma final_state_follows_clear_and_translation_witness :
  exists pre' ok si,
    In (ch_a1, si) sample_states
    /\ firstn 4 (fst (final_loop_of HardwareLoop obliging sample_states
                        sample_values []))
       = pre' ++ [(ClearOperation ch_a1, Return ok);
                  (FromCtrlStateInfo ch_a1 si, Return (PyBool true))].
Proof.
  refine (@final_state_follows_clear_and_translation HardwareLoop obliging
            sample_states sample_values [] _ _ (surjective_pairing _)
            (firstn 4 (fst (final_loop_of HardwareLoop obliging sample_states
                              sample_values [])))
            ch_a1 (PyBool true) (Return (PyBool true))
            (skipn 5 (fst (final_loop_of HardwareLoop obliging sample_states
                             sample_values []))) _).
  vm_compute. reflexivity.
Defined.

Lemma converge_item_completes respond (publish : Element -> Act unit)
    (e : Element) (si : PyVal) (h d : list event) :
  converge_item respond publish (e, si) h = (d, Return tt) ->
  exists a0 dp ok s a2,
    publish e (h ++ [(SetStateInfo e si 0, Return a0)]) = (dp, Return tt)
    /\ d = (SetStateInfo e si 0, Return a0) :: dp
           ++ [(ClearOperation e, Return ok);
               (FromCtrlStateInfo e si, Return s);
               (SetStateInfo e s 2, Return a2)].
Proof.
  unfold converge_item. intros H.
  apply abind_inv in H.
  destruct H as [(ex & _ & Habs)|(d1 & a0 & d2 & H1 & H2 & ->)]; [discriminate|].
  apply invoke_inv in H1. destruct H1 as [-> _].
  apply abind_inv in H2.
  destruct H2 as [(ex & _ & Habs)|(dp & [] & d3 & Hp & H3 & ->)]; [discriminate|].
  apply abind_inv in H3.
  destruct H3 as [(ex & _ & Habs)|(d4 & ok & d5 & H4 & H5 & ->)]; [discriminate|].
  apply invoke_inv in H4. destruct H4 as [-> _].
  apply abind_inv in H5.
  destruct H5 as [(ex & _ & Habs)|(d6 & s & d7 & H6 & H7 & ->)]; [discriminate|].
  apply invoke_inv in H6. destruct H6 as [-> _].
  apply abind_inv in H7.
  destruct H7 as [(ex & _ & Habs)|(d8 & a2 & d9 & H8 & H9 & ->)]; [discriminate|].
  apply invoke_inv in H8. destruct H8 as [-> _].
  unfold aret in H9. inversion H9; subst d9.
  exists a0, dp, ok, s, a2. split; [exact Hp|reflexivity].
Qed.

(** X20: a final loop that runs to its end has found a value read for every
    acquirable it has an entry for (an entry still [None] makes it raise
    before the element's operation is cleared), and has taken every
    acquirable through the raw state, [clear_operation], the translation and
    the translated state. *)
Theorem final_loop_completes_only_with_values_read (l : FinalLoop)
    (respond : list event -> call -> result PyVal)
    (states : dict Element PyVal)
    (values : dict Element (option SardanaValue))
    (h d : list event) :
  final_loop_of l respond states values h = (d, Return tt) ->
  forall e si, In (e, si) states ->
    dict_get element_eqb e values <> Some None
    /\ exists a0 ok s a2,
         In (SetStateInfo e si 0, Return a0) d
         /\ In (ClearOperation e, Return ok) d
         /\ In (FromCtrlStateInfo e si, Return s) d
         /\ In (SetStateInfo e s 2, Return a2) d.
Proof.
  rewrite final_loop_shape. intros Hrun e si Hin.
  destruct (for_each_completes _ _ _ Hrun _ Hin) as (h' & d' & Hb & Hincl).
  apply converge_item_completes in Hb.
  destruct Hb as (a0 & dp & ok & s & a2 & Hp & ->).
  split.
  - intros Hnone. destruct l as [index|]; cbn [publish_of] in Hp;
      unfold publish_wrapped, publish_nonempty in Hp; rewrite Hnone in Hp;
      discriminate Hp.
  - exists a0, ok, s, a2.
    repeat split; apply Hincl; cbn; rewrite ?in_app_iff; cbn; auto 7.
Qed.

Lemma final_loop_completes_only_with_values_read_witness :
  dict_get element_eqb ch_a2 sample_values <> Some None
  /\ exists a0 ok s a2,
       In (SetStateInfo ch_a2 (PyList [PyInt 0; PyNone]) 0, Return a0)
          (fst (final_loop_of (SoftwareLoop (PyInt 7)) obliging sample_states
                  sample_values []))
       /\ In (ClearOperation ch_a2, Return ok)
             (fst (final_loop_of (SoftwareLoop (PyInt 7)) obliging
                     sample_states sample_values []))
       /\ In (FromCtrlStateInfo ch_a2 (PyList [PyInt 0; PyNone]), Return s)
             (fst (final_loop_of (SoftwareLoop (PyInt 7)) obliging
                     sample_states sample_values []))
       /\ In (SetStateInfo ch_a2 s 2, Return a2)
             (fst (final_loop_of (SoftwareLoop (PyInt 7)) obliging
                     sample_states sample_values [])).
Proof.
  apply (@final_loop_completes_only_with_values_read (SoftwareLoop (PyInt 7))
           obliging sample_states sample_values []).
  - vm_compute. reflexivity.
  - right. left. reflexivity.
Defined.

Lemma publish_nonempty_sound respond
    (values : dict Element (option SardanaValue)) (e : Element) :
  act_all (fun ev => forall e' v p, fst ev = PutValue e' v p ->
             e' = e /\ p = 2
             /\ dict_get element_eqb e values = Some (Some v)
             /\ exists n, py_len (sv_value v) = Return n /\ 0 < n)
    (publish_nonempty respond values e).
Proof.
  unfold publish_nonempty.
  destruct (dict_get element_eqb e values) as [[v0|]|] eqn:Hv;
    try apply act_all_aret; try apply act_all_araise.
  intros h. unfold abind, alift.
  destruct (py_len (sv_value v0)) as [ex|n] eqn:Hlen; [constructor|].
  destruct (0 <? n) eqn:Hn; [|constructor].
  unfold invoke, aret.
  assert (HP : forall (r : result PyVal) e' v p,
             fst (PutValue e v0 2, r) = PutValue e' v p ->
             e' = e /\ p = 2 /\ Some (Some v0) = Some (Some v)
             /\ exists n, py_len (sv_value v) = Return n /\ 0 < n).
  { intros r e' v p Hc. cbn in Hc. inversion Hc; subst e' v p.
    split; [reflexivity|]. split; [reflexivity|]. split; [reflexivity|].
    exists n. split; [exact Hlen|apply Z.ltb_lt, Hn]. }
  destruct (respond (h ++ []) (PutValue e v0 2)); cbn;
    (apply Forall_cons; [apply HP|apply Forall_nil]).
Qed.

(** X21: the final loop of the hardware action loop publishes a value only
    for an acquirable of [states], only the value object that was read for
    it, unchanged, with full propagation, and only when it holds at least
    one point.  When the loop runs to its end every value read has a length
    (a scalar makes [len] raise) and every non-empty one was published. *)
Theorem hardware_converge_publishes_nonempty
    (respond : list event -> call -> result PyVal)
    (states : dict Element PyVal)
    (values : dict Element (option SardanaValue))
    (h d : list event) (r : result unit) :
  PoolAcquisitionHardware_converge respond states values h = (d, r) ->
  (forall e v p ans,
      In (PutValue e v p, ans) d ->
      p = 2 /\ In e (dict_keys states)
      /\ dict_get element_eqb e values = Some (Some v)
      /\ exists n, py_len (sv_value v) = Return n /\ 0 < n)
  /\ (r = Return tt ->
      forall e si v,
        In (e, si) states ->
        dict_get element_eqb e values = Some (Some v) ->
        exists n, py_len (sv_value v) = Return n
                  /\ (0 < n -> exists ans, In (PutValue e v 2, ans) d)).
Proof.
  intros Hrun. split.
  - intros e v p ans Hin.
    assert (Hall : act_all (fun ev => forall e' v p, fst ev = PutValue e' v p ->
                      p = 2 /\ In e' (dict_keys states)
                      /\ dict_get element_eqb e' values = Some (Some v)
                      /\ exists n, py_len (sv_value v) = Return n /\ 0 < n)
                     (PoolAcquisitionHardware_converge respond states values)).
    { unfold PoolAcquisitionHardware_converge. apply act_all_for_each.
      intros [e0 si] Hin0. unfold converge_item.
      apply act_all_abind;
        [apply act_all_invoke; intros ? ? ? ? Hc; discriminate Hc|intros _].
      apply act_all_abind.
      { eapply act_all_impl; [|apply publish_nonempty_sound].
        intros ev Hev e' v' p' Hc. destruct (Hev _ _ _ Hc) as (-> & -> & Hv & Hn).
        repeat split; auto. unfold dict_keys. apply in_map_iff.
        exists (e0, si). auto. }
      intros _.
      apply act_all_abind;
        [apply act_all_invoke; intros ? ? ? ? Hc; discriminate Hc|intros _].
      apply act_all_abind;
        [apply act_all_invoke; intros ? ? ? ? Hc; discriminate Hc|intros s].
      apply act_all_abind; [|intros _; apply act_all_aret].
      apply act_all_invoke; intros ? ? ? ? Hc; discriminate Hc. }
    specialize (Hall h). rewrite Hrun in Hall. cbn in Hall.
    rewrite Forall_forall in Hall. exact (Hall _ Hin e v p eq_refl).
  - intros -> e si v Hin Hv.
    destruct (for_each_completes _ _ _ Hrun _ Hin) as (h' & d' & Hb & Hincl).
    apply converge_item_completes in Hb.
    destruct Hb as (a0 & dp & ok & s & a2 & Hp & ->).
    unfold publish_nonempty in Hp. rewrite Hv in Hp.
    apply abind_inv in Hp.
    destruct Hp as [(ex & _ & Habs)|(d1 & n & d2 & H1 & H2 & ->)];
      [discriminate|].
    unfold alift in H1. inversion H1 as [[Hd1 Hlen]]. subst d1.
    exists n. split; [exact Hlen|]. intros Hn.
    apply Z.ltb_lt in Hn. rewrite Hn in H2.
    apply abind_inv in H2.
    destruct H2 as [(ex & _ & Habs)|(d3 & a3 & d4 & H3 & _ & ->)];
      [discriminate|].
    apply invoke_inv in H3. destruct H3 as [-> _].
    exists (Return a3). apply Hincl. right. cbn. left. reflexivity.
Qed.

Lemma hardware_converge_publishes_nonempty_witness :
  (forall e v p ans,
      In (PutValue e v p, ans)
         (fst (PoolAcquisitionHardware_converge obliging sample_states
                 sample_values [])) ->
      p = 2 /\ In e (dict_keys sample_states)
      /\ dict_get element_eqb e sample_values = Some (Some v)
      /\ exists n, py_len (sv_value v) = Return n /\ 0 < n)
  /\ (snd (PoolAcquisitionHardware_converge obliging sample_states
             sample_values []) = Return tt ->
      forall e si v,
        In (e, si) sample_states ->
        dict_get element_eqb e sample_values = Some (Some v) ->
        exists n, py_len (sv_value v) = Return n
                  /\ (0 < n ->
                      exists ans,
                        In (PutValue e v 2, ans)
                           (fst (PoolAcquisitionHardware_converge obliging
                                   sample_states sample_values [])))).
Proof.
  exact (@hardware_converge_publishes_nonempty obliging sample_states
           sample_values [] _ _ (surjective_pairing _)).
Defined.

(** ** [getTGConfiguration] *)

Section DictFacts.
Variables K V : Type.
Variable eqb : K -> K -> bool.
Hypothesis eqb_eq : forall a b, eqb a b = true <-> a = b.

Lemma eqb_same (k : K) : eqb k k = true.
Proof. apply eqb_eq. reflexivity. Qed.

Lemma eqb_other (k k' : K) : k <> k' -> eqb k k' = false.
Proof.
  intros Hne. destruct (eqb k k') eqn:E; [|reflexivity].
  apply eqb_eq in E. contradiction.
Qed.

Lemma dict_get_set_same (k : K) (v : V) (d : dict K V) :
  dict_get eqb k (dict_set eqb k v d) = Some v.
Proof.
  induction d as [|[k' v'] d IH]; cbn.
  - rewrite eqb_same. reflexivity.
  - destruct (eqb k k') eqn:E; cbn; rewrite E; [reflexivity|exact IH].
Qed.

Lemma dict_get_set_other (k k' : K) (v : V) (d : dict K V) :
  k <> k' -> dict_get eqb k' (dict_set eqb k v d) = dict_get eqb k' d.
Proof.
  intros Hne. induction d as [|[k0 v0] d IH]; cbn.
  - rewrite eqb_other by congruence. reflexivity.
  - destruct (eqb k k0) eqn:E; cbn.
    + apply eqb_eq in E. subst k0. rewrite eqb_other by congruence.
      reflexivity.
    + rewrite IH. reflexivity.
Qed.

Lemma dict_get_None (k : K) (d : dict K V) :
  dict_get eqb k d = None <-> ~ In k (dict_keys d).
Proof.
  induction d as [|[k' v'] d IH]; cbn; [tauto|].
  destruct (eqb k k') eqn:E.
  - apply eqb_eq in E. subst k'. split; [discriminate|]. intros H.
    destruct H. left. reflexivity.
  - rewrite IH. split; [|tauto]. intros H [->|H']; [|tauto].
    rewrite eqb_same in E. discriminate E.
Qed.

Lemma dict_set_keys (k k' : K) (v : V) (d : dict K V) :
  In k' (dict_keys (dict_set eqb k v d)) <-> k' = k \/ In k' (dict_keys d).
Proof.
  induction d as [|[k0 v0] d IH]; cbn.
  - intuition.
  - destruct (eqb k k0) eqn:E; cbn.
    + apply eqb_eq in E. subst k0. intuition.
    + rewrite IH. intuition.
Qed.

Lemma dict_set_keys_NoDup (k : K) (v : V) (d : dict K V) :
  NoDup (dict_keys d) -> NoDup (dict_keys (dict_set eqb k v d)).
Proof.
  induction d as [|[k0 v0] d IH]; cbn; intros Hnd.
  - constructor; [intros []|constructor].
  - inversion Hnd as [|? ? Hnin Hnd']; subst.
    destruct (eqb k k0) eqn:E; cbn.
    + constructor; assumption.
    + constructor; [|apply IH, Hnd'].
      intros Hin. apply dict_set_keys in Hin. destruct Hin as [->|Hin].
      * rewrite eqb_same in E. discriminate E.
      * contradiction.
Qed.
End DictFacts.

Lemma existsb_element_In (x : Element) (l : list Element) :
  existsb (element_eqb x) l = true <-> In x l.
Proof.
  rewrite existsb_exists. split.
  - intros (y & Hy & E). apply element_eqb_eq in E. subst y. exact Hy.
  - intros Hx. exists x. split; [exact Hx|apply element_eqb_eq; reflexivity].
Qed.

Lemma tg_element_list_spec (items : dict CtrlKey CtrlInfo) (acc : list Element) :
  NoDup acc ->
  NoDup (tg_element_list items acc)
  /\ forall e, In e (tg_element_list items acc) <->
       In e acc \/ exists key info, In (key, info) items
                                    /\ trigger_element info = Some e.
Proof.
  revert acc. induction items as [|[key0 info0] items IH]; intros acc Hnd; cbn.
  - split; [exact Hnd|]. intros e. split; [auto|].
    intros [H|(k & i & [] & _)]. exact H.
  - destruct (trigger_element info0) as [tg|] eqn:Htg.
    + destruct (existsb (element_eqb tg) acc) eqn:Hex.
      * destruct (IH acc Hnd) as [IH1 IH2]. split; [exact IH1|].
        intros e. rewrite IH2. split.
        -- intros [H|(k & i & Hin & Hi)]; [auto|]. right. exists k, i. auto.
        -- intros [H|(k & i & [Heq|Hin] & Hi)]; [auto| |].
           ++ inversion Heq; subst k i. rewrite Htg in Hi. inversion Hi; subst e.
              left. apply existsb_element_In. exact Hex.
           ++ right. exists k, i. auto.
      * assert (Hnin : ~ In tg acc).
        { intros Hin. apply existsb_element_In in Hin. congruence. }
        assert (Hnd' : NoDup (acc ++ [tg])).
        { apply NoDup_app; [exact Hnd|constructor; [intros []|constructor]|].
          intros x Hx [<-|[]]. contradiction. }
        destruct (IH _ Hnd') as [IH1 IH2]. split; [exact IH1|].
        intros e. rewrite IH2, in_app_iff. cbn. split.
        -- intros [[H|[<-|[]]]|(k & i & Hin & Hi)]; [auto| |].
           ++ right. exists key0, info0. auto.
           ++ right. exists k, i. auto.
        -- intros [H|(k & i & [Heq|Hin] & Hi)]; [auto| |].
           ++ inversion Heq; subst k i. rewrite Htg in Hi. inversion Hi; subst e.
              auto.
           ++ right. exists k, i. auto.
    + destruct (IH acc Hnd) as [IH1 IH2]. split; [exact IH1|].
      intros e. rewrite IH2. split.
      * intros [H|(k & i & Hin & Hi)]; [auto|]. right. exists k, i. auto.
      * intros [H|(k & i & [Heq|Hin] & Hi)]; [auto| |].
        -- inversion Heq; subst k i. rewrite Htg in Hi. discriminate Hi.
        -- right. exists k, i. auto.
Qed.

(** X22: the element list [getTGConfiguration] returns holds every trigger
    element of the configuration exactly once, and nothing else; an entry
    without ['trigger_element'], the ['__tango__'] one included, adds
    nothing and raises nothing. *)
Theorem getTGConfiguration_elements (full_name : Element -> string)
    (cfg : MGcfg) :
  NoDup (snd (getTGConfiguration full_name cfg))
  /\ forall e, In e (snd (getTGConfiguration full_name cfg)) <->
       exists key info, In (key, info) (controllers cfg)
                        /\ trigger_element info = Some e.
Proof.
  unfold getTGConfiguration. cbn [snd].
  destruct (@tg_element_list_spec (controllers cfg) [] (NoDup_nil _))
    as [H1 H2].
  split; [exact H1|]. intros e. rewrite H2. split; [|auto].
  intros [[]|H]. exact H.
Qed.

Lemma ctrl_tgelem_dict_spec (l : list Element)
    (d : dict PoolController (list Element)) :
  NoDup (dict_keys d) ->
  NoDup (dict_keys (ctrl_tgelem_dict l d))
  /\ forall c e,
       (exists g, dict_get ctrl_eqb c (ctrl_tgelem_dict l d) = Some g /\ In e g)
       <-> (exists g, dict_get ctrl_eqb c d = Some g /\ In e g)
           \/ (In e l /\ el_controller e = c).
Proof.
  revert d. induction l as [|x l IH]; intros d Hnd; cbn [ctrl_tgelem_dict].
  - split; [exact Hnd|]. intros c e. split; [auto|]. intros [H|[[] _]]. exact H.
  - set (d' := match dict_get ctrl_eqb (el_controller x) d with
               | None => dict_set ctrl_eqb (el_controller x) [x] d
               | Some g => dict_set ctrl_eqb (el_controller x) (g ++ [x]) d
               end).
    assert (Heq : match dict_get ctrl_eqb (el_controller x) d with
                  | None => ctrl_tgelem_dict l
                              (dict_set ctrl_eqb (el_controller x) [x] d)
                  | Some g => ctrl_tgelem_dict l
                                (dict_set ctrl_eqb (el_controller x) (g ++ [x]) d)
                  end = ctrl_tgelem_dict l d').
    { unfold d'. destruct (dict_get ctrl_eqb (el_controller x) d); reflexivity. }
    rewrite Heq.
    assert (Hnd' : NoDup (dict_keys d')).
    { unfold d'. destruct (dict_get ctrl_eqb (el_controller x) d);
        apply (dict_set_keys_NoDup _ ctrl_eqb_eq); exact Hnd. }
    assert (Hd' : forall c e,
               (exists g, dict_get ctrl_eqb c d' = Some g /\ In e g)
               <-> (exists g, dict_get ctrl_eqb c d = Some g /\ In e g)
                   \/ (e = x /\ el_controller e = c)).
    { intros c e. unfold d'.
      destruct (PoolController_eq_dec (el_controller x) c) as [Hc|Hc].
      - subst c. destruct (dict_get ctrl_eqb (el_controller x) d) as [g0|] eqn:Hg;
          rewrite (dict_get_set_same _ ctrl_eqb_eq).
        + split.
          * intros (g & Hgg & Hin). inversion Hgg; subst g.
            apply in_app_iff in Hin. destruct Hin as [Hin|[<-|[]]].
            -- left. exists g0. auto.
            -- right. auto.
          * intros [(g & Hgg & Hin)|[-> _]].
            -- inversion Hgg; subst g. exists (g0 ++ [x]). split; [reflexivity|].
               apply in_app_iff. auto.
            -- exists (g0 ++ [x]). split; [reflexivity|].
               apply in_app_iff. right. left. reflexivity.
        + split.
          * intros (g & Hgg & Hin). inversion Hgg; subst g.
            destruct Hin as [<-|[]]. right. auto.
          * intros [(g & Hgg & _)|[-> _]]; [discriminate Hgg|].
            exists [x]. split; [reflexivity|left; reflexivity].
      - assert (Hget : forall v,
                   dict_get ctrl_eqb c (dict_set ctrl_eqb (el_controller x) v d)
                   = dict_get ctrl_eqb c d).
        { intros v. apply (dict_get_set_other _ ctrl_eqb_eq). exact Hc. }
        destruct (dict_get ctrl_eqb (el_controller x) d); rewrite Hget;
          (split; [auto|]); intros [H|[-> Habs]]; auto; contradiction. }
    destruct (IH d' Hnd') as [IH1 IH2]. split; [exact IH1|].
    intros c e. rewrite IH2, Hd'. cbn [In]. split.
    + intros [[H|[-> H]]|[H1 H2]]; auto.
    + intros [H|[[<-|H1] H2]]; auto.
Qed.

Lemma tg_channels_of_other (full_name : Element -> string)
    (g : list Element) (chs : dict Element string) (e : Element) :
  ~ In e g ->
  dict_get element_eqb e (tg_channels_of full_name g chs)
  = dict_get element_eqb e chs.
Proof.
  revert chs. induction g as [|x g IH]; intros chs Hnin; cbn; [reflexivity|].
  rewrite IH by (intros H; apply Hnin; right; exact H).
  apply (dict_get_set_other _ element_eqb_eq).
  intros ->. apply Hnin. left. reflexivity.
Qed.

Lemma tg_channels_of_member (full_name : Element -> string)
    (g : list Element) (chs : dict Element string) (e : Element) :
  In e g ->
  dict_get element_eqb e (tg_channels_of full_name g chs) = Some (full_name e).
Proof.
  revert chs. induction g as [|x g IH]; intros chs Hin; [destruct Hin|]. cbn.
  destruct (in_dec Element_eq_dec e g) as [Hg|Hg]; [apply IH, Hg|].
  destruct Hin as [->|Hin]; [|contradiction].
  rewrite tg_channels_of_other by exact Hg.
  apply (dict_get_set_same _ element_eqb_eq).
Qed.

Lemma tg_channels_of_keys (full_name : Element -> string)
    (g : list Element) (chs : dict Element string) (e : Element) :
  In e (dict_keys (tg_channels_of full_name g chs)) <->
  In e g \/ In e (dict_keys chs).
Proof.
  revert chs. induction g as [|x g IH]; intros chs;
    cbn [tg_channels_of In]; [tauto|].
  rewrite IH, (dict_set_keys _ element_eqb_eq). intuition.
Qed.

Lemma tg_controllers_get (full_name : Element -> string)
    (groups : dict PoolController (list Element)) (cfg : TGcfg)
    (c : PoolController) :
  NoDup (dict_keys groups) ->
  dict_get ctrl_eqb c (tg_controllers full_name groups cfg)
  = match dict_get ctrl_eqb c groups with
    | Some g => Some {| tg_channels := tg_channels_of full_name g [] |}
    | None => dict_get ctrl_eqb c cfg
    end.
Proof.
  revert cfg. induction groups as [|[c0 g0] groups IH]; intros cfg Hnd; cbn;
    [reflexivity|].
  inversion Hnd as [|? ? Hnin Hnd']; subst. rewrite IH by exact Hnd'.
  destruct (ctrl_eqb c c0) eqn:E.
  - apply ctrl_eqb_eq in E. subst c0.
    apply (dict_get_None _ ctrl_eqb_eq) in Hnin. rewrite Hnin.
    apply (dict_get_set_same _ ctrl_eqb_eq).
  - destruct (dict_get ctrl_eqb c groups); [reflexivity|].
    apply (dict_get_set_other _ ctrl_eqb_eq). intros ->.
    rewrite ctrl_eqb_refl in E. discriminate E.
Qed.

(** X23: in the configuration [getTGConfiguration] builds, the channels
    filed under a controller are exactly the listed trigger elements that
    [get_controller()] gives that controller for, and each of them holds
    its own [full_name]. *)
Theorem getTGConfiguration_files_by_controller
    (full_name : Element -> string) (cfg : MGcfg) :
  (forall c e,
      (exists info,
          dict_get ctrl_eqb c (fst (getTGConfiguration full_name cfg))
          = Some info
          /\ In e (dict_keys (tg_channels info)))
      <-> (In e (snd (getTGConfiguration full_name cfg))
           /\ el_controller e = c))
  /\ (forall c e,
         (exists info,
             dict_get ctrl_eqb c (fst (getTGConfiguration full_name cfg))
             = Some info
             /\ dict_get element_eqb e (tg_channels info)
                = Some (full_name e))
         <-> (In e (snd (getTGConfiguration full_name cfg))
              /\ el_controller e = c)).
Proof.
  unfold getTGConfiguration. cbn [fst snd].
  set (l := tg_element_list (controllers cfg) []).
  destruct (@ctrl_tgelem_dict_spec l [] (NoDup_nil _)) as [Hnd Hspec].
  assert (Hgroups : forall c e,
             (exists g, dict_get ctrl_eqb c (ctrl_tgelem_dict l []) = Some g
                        /\ In e g)
             <-> In e l /\ el_controller e = c).
  { intros c e. rewrite Hspec. split; [|auto].
    intros [(g & Hg & _)|H]; [discriminate Hg|exact H]. }
  split; intros c e; rewrite <- Hgroups, (@tg_controllers_get full_name _ [] c Hnd);
    destruct (dict_get ctrl_eqb c (ctrl_tgelem_dict l [])) as [g|]; cbn.
  - split.
    + intros (info & Hi & Hin). inversion Hi; subst info. cbn in Hin.
      apply tg_channels_of_keys in Hin. destruct Hin as [Hin|[]].
      exists g. auto.
    + intros (g' & Hg & Hin). inversion Hg; subst g'.
      eexists. split; [reflexivity|]. cbn. apply tg_channels_of_keys. auto.
  - split; [intros (info & Hi & _)|intros (g' & Hg & _)]; discriminate.
  - split.
    + intros (info & Hi & Hget). inversion Hi; subst info. cbn in Hget.
      exists g. split; [reflexivity|].
      destruct (in_dec Element_eq_dec e g) as [Hg|Hg]; [exact Hg|].
      rewrite tg_channels_of_other in Hget by exact Hg. discriminate Hget.
    + intros (g' & Hg & Hin). inversion Hg; subst g'.
      eexists. split; [reflexivity|]. cbn. apply tg_channels_of_member, Hin.
  - split; [intros (info & Hi & _)|intros (g' & Hg & _)]; discriminate.
Qed.

(** ** [PoolAcquisition.run] *)

Section RunFacts.
Variable is_software_tg : Element -> bool.
Variable full_name : Element -> string.
Variable hw_acq_run : Kwargs -> result unit.
Variable tg_gen_add_listener : result unit.
Variable tg_gen_run : TGcfg -> result unit.

Local Abbreviation run :=
  (PoolAcquisition_run is_software_tg full_name hw_acq_run
     tg_gen_add_listener tg_gen_run).

(** X24: [run] with a synchronization of any number of groups other than
    one raises before anything is asked of a sub-action and before anything
    is cached. *)
Theorem run_needs_exactly_one_group (self : PoolAcquisition) (kwargs : Kwargs)
    (synch : list SynchGroup) :
  List.length synch <> 1%nat ->
  exists e, run self kwargs (Some synch) = (self, [], Raise e).
Proof.
  intros Hlen. unfold PoolAcquisition_run.
  destruct (getitem "config" (kw_config kwargs)) as [e|config]; [eauto|].
  cbn [getitem Return].
  assert (Hraise : exists e, extract_integ_time synch = inl e).
  { unfold extract_integ_time.
    destruct (Z.eqb_spec (Z.of_nat (List.length synch)) 1) as [E|_]; [lia|].
    destruct synch as [|g rest]; [cbn; eauto|].
    destruct (@extract_loop_unbound (g :: rest)) as [e He]; [congruence|].
    rewrite He. cbn. eauto. }
  destruct Hraise as [e He]. rewrite He. eauto.
Qed.

Lemma run_inv (self self' : PoolAcquisition) (kwargs : Kwargs)
    (config : MGcfg) (synch : list SynchGroup) (integ_time : PyVal)
    (hw sw zd : MGcfg) (effs : list run_effect) (r : result unit) :
  kw_config kwargs = Some config ->
  extract_integ_time synch = Return integ_time ->
  split_MGConfigurations is_software_tg config = Return (hw, sw, zd) ->
  run self kwargs (Some synch) = (self', effs, r) ->
  let full := run_sequence kwargs integ_time hw sw zd
                (fst (getTGConfiguration full_name config)) in
  let cached :=
    {| sw_acq_config := if nonempty (controllers sw)
                        then Some (acq_kwargs kwargs sw integ_time)
                        else sw_acq_config self;
       zerod_config := if nonempty (controllers zd)
                       then Some (zerod_kwargs kwargs zd)
                       else zerod_config self;
       sw_acq_busy := sw_acq_busy self;
       zerod_acq_busy := zerod_acq_busy self |} in
  (exists rest, full = effs ++ rest
                /\ (rest <> [] -> self' = self /\ exists e, r = Raise e))
  /\ (effs = full -> self' = cached).
Proof.
  intros Hc Hi Hs. unfold PoolAcquisition_run, run_sequence.
  rewrite Hc. cbn [getitem Return]. unfold Return in Hi, Hs. rewrite Hi, Hs.
  unfold run_cache, set_sw_config, set_0d_config.
  destruct self as [swc zc sb zb].
  destruct (controllers hw) as [|h0 hs]; cbn [nonempty app].
  - destruct (controllers sw) as [|s0 ss], (controllers zd) as [|z0 zs];
      cbn [nonempty orb app];
      try (destruct tg_gen_add_listener as [e|[]]);
      intros H; inversion H; subst; cbn;
      (split; [|try (intros Habs; discriminate Habs); reflexivity]);
      first [ exists []; split; [reflexivity|intros Hn; congruence]
            | eexists; split; [reflexivity|intros _; eauto] ].
  - destruct (hw_acq_run _) as [e|[]].
    + intros H; inversion H; subst; cbn.
      split; [|destruct (nonempty (controllers sw) || nonempty (controllers zd));
               intros Habs; discriminate Habs].
      eexists; split; [reflexivity|intros _; eauto].
    + destruct (controllers sw) as [|s0 ss], (controllers zd) as [|z0 zs];
        cbn [nonempty orb app];
        try (destruct tg_gen_add_listener as [e|[]]);
        intros H; inversion H; subst; cbn;
        (split; [|try (intros Habs; discriminate Habs); reflexivity]);
        first [ exists []; split; [reflexivity|intros Hn; congruence]
              | eexists; split; [reflexivity|intros _; eauto] ].
Qed.

(** X25: [run] asks its sub-actions in one order: the hardware acquisition
    (when the hardware subset has controllers), the registration as listener
    (when the software or the ZeroD subset has), the trigger/gate generation
    last.  What it asked is always a prefix of that sequence, and it stops
    short only by raising, with nothing cached. *)
Theorem run_effects_in_order (self self' : PoolAcquisition) (kwargs : Kwargs)
    (config : MGcfg) (synch : list SynchGroup) (integ_time : PyVal)
    (hw sw zd : MGcfg) (effs : list run_effect) (r : result unit) :
  kw_config kwargs = Some config ->
  extract_integ_time synch = Return integ_time ->
  split_MGConfigurations is_software_tg config = Return (hw, sw, zd) ->
  run self kwargs (Some synch) = (self', effs, r) ->
  exists rest,
    run_sequence kwargs integ_time hw sw zd
      (fst (getTGConfiguration full_name config)) = effs ++ rest
    /\ (rest <> [] -> self' = self /\ exists e, r = Raise e).
Proof.
  intros Hc Hi Hs Hrun.
  exact (proj1 (@run_inv self self' kwargs config synch integ_time hw sw zd
                  effs r Hc Hi Hs Hrun)).
Qed.

(** X26: when [run] got as far as the trigger/gate generation, the
    coordinator holds, for each of the software and the ZeroD subset that
    has controllers, a copy of the keyword arguments with that subset as
    ['config']; the software copy has the active time of the
    synchronization as ['integ_time'], the ZeroD copy keeps the caller's.
    The configuration of a subset without controllers is left as it was,
    and no busy flag is touched. *)
Theorem run_caches_split_configurations (self self' : PoolAcquisition)
    (kwargs : Kwargs) (config : MGcfg) (synch : list SynchGroup)
    (integ_time : PyVal) (hw sw zd : MGcfg) (front : list run_effect)
    (tg_cfg : TGcfg) (r : result unit) :
  kw_config kwargs = Some config ->
  extract_integ_time synch = Return integ_time ->
  split_MGConfigurations is_software_tg config = Return (hw, sw, zd) ->
  run self kwargs (Some synch) = (self', front ++ [TgGenRun tg_cfg], r) ->
  sw_acq_config self' = (if nonempty (controllers sw)
                         then Some (acq_kwargs kwargs sw integ_time)
                         else sw_acq_config self)
  /\ zerod_config self' = (if nonempty (controllers zd)
                           then Some (zerod_kwargs kwargs zd)
                           else zerod_config self)
  /\ sw_acq_busy self' = sw_acq_busy self
  /\ zerod_acq_busy self' = zerod_acq_busy self.
Proof.
  intros Hc Hi Hs Hrun.
  destruct (@run_inv self self' kwargs config synch integ_time hw sw zd
              _ r Hc Hi Hs Hrun) as [(rest & Hfull & _) Hcached].
  assert (Hrest : rest = []).
  { unfold run_sequence in Hfull. revert Hfull.
    set (a := if nonempty (controllers hw) then _ else _).
    set (b := if nonempty (controllers sw) || nonempty (controllers zd)
              then _ else _).
    intros Hfull.
    assert (Hno : forall c, ~ In (TgGenRun c) (a ++ b)).
    { intros c Hin. apply in_app_iff in Hin. unfold a, b in Hin.
      destruct (nonempty (controllers hw)),
        (nonempty (controllers sw) || nonempty (controllers zd));
        cbn in Hin; intuition discriminate. }
    rewrite app_assoc in Hfull.
    destruct rest as [|y rest] using rev_ind; [reflexivity|].
    rewrite !app_assoc in Hfull. apply app_inj_tail in Hfull.
    destruct Hfull as [Heq _]. exfalso. apply (Hno tg_cfg). rewrite Heq.
    rewrite !in_app_iff. left. right. left. reflexivity. }
  subst rest. rewrite app_nil_r in Hfull. symmetry in Hfull.
  rewrite (Hcached Hfull). cbn. auto.
Qed.

(** X27: [run] never clears a cached configuration.  When the configuration
    of a run has no software-triggered controller, the software configuration
    cached by an earlier run stays, and an [Active] event received afterwards
    still hands a software cycle with that earlier configuration to the
    worker pool. *)
Theorem stale_software_config_survives_run (self self' : PoolAcquisition)
    (kwargs old : Kwargs) (config : MGcfg)
    (synchronization : option (list SynchGroup))
    (hw sw zd : MGcfg) (effs : list run_effect) (r : result unit)
    (event_id : Z) :
  kw_config kwargs = Some config ->
  split_MGConfigurations is_software_tg config = Return (hw, sw, zd) ->
  controllers sw = [] ->
  sw_acq_config self = Some old ->
  ready RunCtContinuous self = true ->
  run self kwargs synchronization = (self', effs, r) ->
  sw_acq_config self' = Some old
  /\ In (ThreadPoolAdd RunCtContinuous (tag_kwargs old event_id))
        (snd (event_received self' TGActive event_id)).
Proof.
  intros Hc Hs Hsw Hold Hready Hrun.
  assert (Hkeep : sw_acq_config self' = sw_acq_config self
                  /\ sw_acq_busy self' = sw_acq_busy self).
  { revert Hrun. unfold PoolAcquisition_run. rewrite Hc. cbn [getitem Return].
    destruct synchronization as [synch|]; cbn [getitem Return];
      [|intros H; inversion H; subst; auto].
    destruct (extract_integ_time synch) as [e|t];
      [intros H; inversion H; subst; auto|].
    unfold Return in Hs. rewrite Hs.
    unfold run_cache, set_sw_config, set_0d_config. rewrite Hsw.
    destruct (controllers hw) as [|h0 hs];
      [|destruct (hw_acq_run _) as [e|[]];
        [intros H; inversion H; subst; auto|]];
      (destruct (controllers zd) as [|z0 zs];
       [|destruct tg_gen_add_listener as [e|[]]]);
      intros H; inversion H; subst; cbn; auto. }
  destruct Hkeep as [Hcfg Hbusy]. split; [congruence|].
  unfold ready in Hready. cbn [job_config busy_flag] in Hready.
  apply andb_true_iff in Hready. destruct Hready as [Htruthy Hidle].
  apply negb_true_iff in Hidle.
  unfold event_received, is_cont_ct_acq_busy.
  rewrite Hcfg, Hbusy, Hold. rewrite Hold in Htruthy. rewrite Htruthy, Hidle.
  destruct (dispatch_zerod _ _) as [self3 effs3]. cbn.
  right. right. left. reflexivity.
Qed.
End RunFacts.

Lemma run_needs_exactly_one_group_witness :
  exists e, sample_run sw_idle sample_kwargs (Some []) = (sw_idle, [], Raise e).
Proof.
  apply (@run_needs_exactly_one_group (fun _ => false) (fun _ => "tg"%string)
           (fun _ => Return tt) (Return tt) (fun _ => Return tt)
           sw_idle sample_kwargs []).
  cbn. discriminate.
Defined.

Lemma run_effects_in_order_witness :
  exists rest,
    run_sequence mixed_kwargs (PyFloat 2.0%float) mixed_hw mixed_sw mixed_zd
      (fst (getTGConfiguration (fun _ => "tg"%string) mixed_cfg))
    = snd (fst (sample_run sw_idle mixed_kwargs (Some one_group))) ++ rest
    /\ (rest <> [] ->
        fst (fst (sample_run sw_idle mixed_kwargs (Some one_group))) = sw_idle
        /\ exists e,
             snd (sample_run sw_idle mixed_kwargs (Some one_group)) = Raise e).
Proof.
  apply (@run_effects_in_order (fun _ => false) (fun _ => "tg"%string)
           (fun _ => Return tt) (Return tt) (fun _ => Return tt)
           sw_idle _ mixed_kwargs mixed_cfg one_group (PyFloat 2.0%float)
           mixed_hw mixed_sw mixed_zd _ _);
    reflexivity.
Defined.

Lemma run_caches_split_configurations_witness :
  sw_acq_config (fst (fst (sample_run sw_idle mixed_kwargs (Some one_group))))
  = (if nonempty (controllers mixed_sw)
     then Some (acq_kwargs mixed_kwargs mixed_sw (PyFloat 2.0%float))
     else sw_acq_config sw_idle)
  /\ zerod_config (fst (fst (sample_run sw_idle mixed_kwargs (Some one_group))))
     = (if nonempty (controllers mixed_zd)
        then Some (zerod_kwargs mixed_kwargs mixed_zd)
        else zerod_config sw_idle)
  /\ sw_acq_busy (fst (fst (sample_run sw_idle mixed_kwargs (Some one_group))))
     = sw_acq_busy sw_idle
  /\ zerod_acq_busy
       (fst (fst (sample_run sw_idle mixed_kwargs (Some one_group))))
     = zerod_acq_busy sw_idle.
Proof.
  apply (@run_caches_split_configurations (fun _ => false)
           (fun _ => "tg"%string) (fun _ => Return tt) (Return tt)
           (fun _ => Return tt)
           sw_idle _ mixed_kwargs mixed_cfg one_group (PyFloat 2.0%float)
           mixed_hw mixed_sw mixed_zd
           (firstn 2 (snd (fst (sample_run sw_idle mixed_kwargs
                                  (Some one_group)))))
           (fst (getTGConfiguration (fun _ => "tg"%string) mixed_cfg))
           (snd (sample_run sw_idle mixed_kwargs (Some one_group))));
    reflexivity.
Defined.

Lemma stale_software_config_survives_run_witness :
  sw_acq_config (fst (fst (sample_run sw_idle hw_only_kwargs (Some one_group))))
  = Some sample_kwargs
  /\ In (ThreadPoolAdd RunCtContinuous (tag_kwargs sample_kwargs 7))
        (snd (event_received
                (fst (fst (sample_run sw_idle hw_only_kwargs (Some one_group))))
                TGActive 7)).
Proof.
  apply (@stale_software_config_survives_run (fun _ => false)
           (fun _ => "tg"%string) (fun _ => Return tt) (Return tt)
           (fun _ => Return tt)
           sw_idle _ hw_only_kwargs sample_kwargs hw_only_cfg (Some one_group)
           hw_only_cfg empty_cfg empty_cfg
           (snd (fst (sample_run sw_idle hw_only_kwargs (Some one_group))))
           (snd (sample_run sw_idle hw_only_kwargs (Some one_group))) 7);
    reflexivity.
Defined.

(** ** [in_acquisition] *)

(** X28: [in_acquisition] of [PoolAcquisitionBase] and [PoolCTAcquisition]
    answers [True] when some element's [states[elem][0][0]] is in action,
    and otherwise falls off its loop: the answer is then [None], never
    [False], and every element's state was read and found not in action. *)
Theorem in_acquisition_True_or_None (is_in_action : PyVal -> bool)
    (states : dict Element PyVal) (v : PyVal) :
  in_acquisition is_in_action states = Return v ->
  (v = PyBool true
   /\ exists elem info s0 s,
        In (elem, info) states /\ py_getitem info 0 = Return s0
        /\ py_getitem s0 0 = Return s /\ is_in_action s = true)
  \/ (v = PyNone
      /\ forall elem info, In (elem, info) states ->
           exists s0 s, py_getitem info 0 = Return s0
                        /\ py_getitem s0 0 = Return s
                        /\ is_in_action s = false).
Proof.
  induction states as [|[elem info] states IH];
    cbn [in_acquisition]; intros H.
  - right. inversion H. split; [reflexivity|]. intros ? ? [].
  - destruct (py_getitem info 0) as [e|s0] eqn:H0; [discriminate H|].
    cbv beta iota delta [rbind] in H.
    destruct (py_getitem s0 0) as [e|s] eqn:H1; [discriminate H|].
    cbv beta iota in H.
    destruct (is_in_action s) eqn:Hs.
    + left. inversion H. split; [reflexivity|].
      exists elem, info, s0, s. repeat split; auto. left. reflexivity.
    + destruct (IH H) as [(-> & e' & i' & s0' & s' & Hin & Hrest)
                         |(-> & Hall)].
      * left. split; [reflexivity|]. exists e', i', s0', s'.
        split; [right; exact Hin|exact Hrest].
      * right. split; [reflexivity|]. intros e' i' [Heq|Hin].
        -- inversion Heq; subst. exists s0, s. auto.
        -- apply (Hall _ _ Hin).
Qed.

Lemma in_acquisition_True_or_None_witness :
  (PyNone = PyBool true
   /\ exists elem info s0 s,
        In (elem, info) idle_states /\ py_getitem info 0 = Return s0
        /\ py_getitem s0 0 = Return s /\ moving_is_1 s = true)
  \/ (PyNone = PyNone
      /\ forall elem info, In (elem, info) idle_states ->
           exists s0 s, py_getitem info 0 = Return s0
                        /\ py_getitem s0 0 = Return s
                        /\ moving_is_1 s = false).
Proof.
  apply (@in_acquisition_True_or_None moving_is_1 idle_states PyNone).
  reflexivity.
Defined.

(** X29: [in_acquisition] of [Pool0DAcquisition] reads [states[state][0]],
    one level less; it too answers [True] or falls off its loop with
    [None], and [None] only after every state was read and found not in
    action. *)
Theorem in_acquisition_0d_True_or_None (is_in_action : PyVal -> bool)
    (states : dict Element PyVal) (v : PyVal) :
  in_acquisition_0d is_in_action states = Return v ->
  (v = PyBool true
   /\ exists elem info s,
        In (elem, info) states /\ py_getitem info 0 = Return s
        /\ is_in_action s = true)
  \/ (v = PyNone
      /\ forall elem info, In (elem, info) states ->
           exists s, py_getitem info 0 = Return s /\ is_in_action s = false).
Proof.
  induction states as [|[elem info] states IH];
    cbn [in_acquisition_0d]; intros H.
  - right. inversion H. split; [reflexivity|]. intros ? ? [].
  - destruct (py_getitem info 0) as [e|s] eqn:H0; [discriminate H|].
    cbv beta iota delta [rbind] in H.
    destruct (is_in_action s) eqn:Hs.
    + left. inversion H. split; [reflexivity|].
      exists elem, info, s. repeat split; auto. left. reflexivity.
    + destruct (IH H) as [(-> & e' & i' & s' & Hin & Hrest)|(-> & Hall)].
      * left. split; [reflexivity|]. exists e', i', s'.
        split; [right; exact Hin|exact Hrest].
      * right. split; [reflexivity|]. intros e' i' [Heq|Hin].
        -- inversion Heq; subst. exists s. auto.
        -- apply (Hall _ _ Hin).
Qed.

Lemma in_acquisition_0d_True_or_None_witness :
  (PyBool true = PyBool true
   /\ exists elem info s,
        In (elem, info) sample_states /\ py_getitem info 0 = Return s
        /\ negb (moving_is_1 s) = true)
  \/ (PyBool true = PyNone
      /\ forall elem info, In (elem, info) sample_states ->
           exists s, py_getitem info 0 = Return s
                     /\ negb (moving_is_1 s) = false).
Proof.
  apply (@in_acquisition_0d_True_or_None (fun s => negb (moving_is_1 s))
           sample_states (PyBool true)).
  reflexivity.
Defined.

(** X30: while the state of some element is still unread ([None], as the
    action loops file it before the first [read_state_info]),
    [in_acquisition] cannot report the end of the acquisition: it answers
    [True] for an earlier element in action or raises, in the counter and
    in the ZeroD variant alike. *)
Theorem in_acquisition_unread_state (is_in_action : PyVal -> bool)
    (states : dict Element PyVal) (elem : Element) :
  In (elem, PyNone) states ->
  (in_acquisition is_in_action states = Return (PyBool true)
   \/ exists e, in_acquisition is_in_action states = Raise e)
  /\ (in_acquisition_0d is_in_action states = Return (PyBool true)
      \/ exists e, in_acquisition_0d is_in_action states = Raise e).
Proof.
  induction states as [|[elem' info] states IH]; intros Hin; [destruct Hin|].
  cbn [in_acquisition in_acquisition_0d].
  destruct Hin as [Heq|Hin].
  - inversion Heq; subst. cbn. split; right; eauto.
  - destruct (IH Hin) as [IH1 IH2]. clear IH.
    destruct (py_getitem info 0) as [e|s0]; [split; right; cbn; eauto|].
    cbv beta iota delta [rbind]. split.
    + destruct (py_getitem s0 0) as [e|s]; [right; eauto|]. cbv beta iota.
      destruct (is_in_action s); [left; reflexivity|exact IH1].
    + destruct (is_in_action s0); [left; reflexivity|exact IH2].
Qed.

Lemma in_acquisition_unread_state_witness :
  (in_acquisition moving_is_1 unread_states = Return (PyBool true)
   \/ exists e, in_acquisition moving_is_1 unread_states = Raise e)
  /\ (in_acquisition_0d moving_is_1 unread_states = Return (PyBool true)
      \/ exists e, in_acquisition_0d moving_is_1 unread_states = Raise e).
Proof.
  apply (@in_acquisition_unread_state moving_is_1 unread_states ch_a2).
  right. left. reflexivity.
Defined.
